(** * code_splitter: a shallow embedding of [splitter_core.py]

    The development follows the pipeline of the program:
    declaration extractor, dependency analyzer, partition planner, file
    emitter, interface aggregator and the three validation stages.

    Conventions.
    - Python [str] is [string], the text in UTF-8: a character outside
      ASCII is the two to four bytes of its encoding.  The program compares
      texts with ASCII patterns only, which find in the bytes what they find
      in the characters; [str.strip] and [str.splitlines] know characters
      outside ASCII, and their models know the encodings of these.
    - Line numbers are [Z], 1-based as in [ast]; slices follow Python's
      clamping rules.
    - A [set] is a [gset]; iterating over it is [elements], whose order is
      fixed but unspecified, like the order of a Python set.
    - A [dict] whose insertion order is observed ([config]) is an association
      list; the module registry and the file system are [gmap]s.
    - What belongs to the host runtime ([ast.parse], the code formatter, the
      module loader, [mkdtemp]) is a [Variable] of the section that uses it. *)

From Stdlib Require Import ZArith Ascii String List Bool Lia.
From stdpp Require Import gmap strings list fin_maps.

Local Open Scope Z_scope.
Local Set Warnings "-register-all,-clear-no-such-hyp".

(** ** Python string operations *)

Module PyStr.

Definition NL : ascii := Ascii.ascii_of_nat 10.
Definition nl : string := String NL EmptyString.

(** The byte with the number [n], and the text with the bytes [l]. *)
Definition byte (n : nat) : ascii := Ascii.ascii_of_nat n.
Definition utf8 (l : list nat) : string :=
  fold_right (λ n s, String (byte n) s) EmptyString l.

(** The pictographs that open some messages: U+274C, U+26A0 U+FE0F,
    U+2705 and U+1F4C4. *)
Definition cross_mark : string := utf8 [226; 157; 140]%nat.
Definition warning_sign : string := utf8 [226; 154; 160; 239; 184; 143]%nat.
Definition check_mark : string := utf8 [226; 156; 133]%nat.
Definition page_mark : string := utf8 [240; 159; 147; 132]%nat.

(** [s.startswith(p)] *)
Definition startswith (s p : string) : bool := String.prefix p s.

(** [sub in s] *)
Fixpoint contains (s sub : string) : bool :=
  String.prefix sub s ||
  match s with
  | EmptyString => false
  | String _ s' => contains s' sub
  end.

(** [s.endswith(p)] *)
Definition endswith (s p : string) : bool :=
  String.prefix (String.rev p) (String.rev s).

Definition byte_is (c : ascii) (n : nat) : bool := Nat.eqb (Ascii.nat_of_ascii c) n.

(** The characters [str.strip()] removes are those of [str.isspace].  The
    ones of one byte: TAB, LF, VT, FF, CR, FS, GS, RS, US and space. *)
Definition isspace (c : ascii) : bool :=
  let n := Ascii.nat_of_ascii c in
  ((9 <=? n)%nat && (n <=? 13)%nat) || ((28 <=? n)%nat && (n <=? 32)%nat).

(** The ones of two bytes: U+0085 and U+00A0. *)
Definition isspace2 (c1 c2 : ascii) : bool :=
  byte_is c1 194 && (byte_is c2 133 || byte_is c2 160).

(** The ones of three bytes: U+1680, U+2000 to U+200A, U+2028, U+2029,
    U+202F, U+205F and U+3000. *)
Definition isspace3 (c1 c2 c3 : ascii) : bool :=
  let n3 := Ascii.nat_of_ascii c3 in
  (byte_is c1 225 && byte_is c2 154 && byte_is c3 128)
  || (byte_is c1 226 && byte_is c2 128
      && (((128 <=? n3)%nat && (n3 <=? 138)%nat)
          || byte_is c3 168 || byte_is c3 169 || byte_is c3 175))
  || (byte_is c1 226 && byte_is c2 129 && byte_is c3 159)
  || (byte_is c1 227 && byte_is c2 128 && byte_is c3 128).

(** The number of bytes of the whitespace character a text starts with;
    [0] when it starts with none. *)
Definition space_width (s : string) : nat :=
  match s with
  | EmptyString => 0
  | String c1 s1 =>
      if isspace c1 then 1
      else match s1 with
           | EmptyString => 0
           | String c2 s2 =>
               if isspace2 c1 c2 then 2
               else match s2 with
                    | EmptyString => 0
                    | String c3 _ => if isspace3 c1 c2 c3 then 3 else 0
                    end
           end
  end.

(** The same for a text that is read from its end: the bytes of a
    character come last byte first. *)
Definition space_width_rev (s : string) : nat :=
  match s with
  | EmptyString => 0
  | String c1 s1 =>
      if isspace c1 then 1
      else match s1 with
           | EmptyString => 0
           | String c2 s2 =>
               if isspace2 c2 c1 then 2
               else match s2 with
                    | EmptyString => 0
                    | String c3 _ => if isspace3 c3 c2 c1 then 3 else 0
                    end
           end
  end.

(** Whitespace characters are dropped from the front for as long as there
    are any; [skip] counts the bytes of a character still to drop. *)
Fixpoint strip_go (width : string → nat) (skip : nat) (s : string) : string :=
  match s with
  | EmptyString => EmptyString
  | String _ s' =>
      match skip with
      | S k => strip_go width k s'
      | O =>
          match width s with
          | O => s
          | S k => strip_go width k s'
          end
      end
  end.

(** [s.lstrip()] *)
Definition lstrip (s : string) : string := strip_go space_width O s.

(** [s.rstrip()] *)
Definition rstrip (s : string) : string :=
  String.rev (strip_go space_width_rev O (String.rev s)).

(** [s.strip()] *)
Definition strip (s : string) : string := rstrip (lstrip s).

(** [sep.join(parts)] *)
Fixpoint join (sep : string) (parts : list string) : string :=
  match parts with
  | [] => EmptyString
  | [p] => p
  | p :: ps => p +:+ sep +:+ join sep ps
  end.

(** [s.split(c)] for a one-character separator: never an empty list. *)
Fixpoint split (c : ascii) (s : string) : list string :=
  match s with
  | EmptyString => [EmptyString]
  | String a s' =>
      if Ascii.eqb a c then EmptyString :: split c s'
      else match split c s' with
           | [] => [String a EmptyString]
           | p :: ps => String a p :: ps
           end
  end.

(** Line boundaries of [str.splitlines()].  The ones of one byte: LF,
    VT, FF, CR, FS, GS, RS. *)
Definition is_linebreak (c : ascii) : bool :=
  let n := Ascii.nat_of_ascii c in
  ((10 <=? n)%nat && (n <=? 13)%nat) || ((28 <=? n)%nat && (n <=? 30)%nat).

Definition CR : ascii := Ascii.ascii_of_nat 13.

(** The number of bytes of the line boundary a text starts with; [0] when
    it starts with none.  CR LF counts as one boundary; U+0085 has two
    bytes, U+2028 and U+2029 have three. *)
Definition break_width (s : string) : nat :=
  match s with
  | EmptyString => 0
  | String c1 s1 =>
      if Ascii.eqb c1 CR then
        match s1 with
        | String c2 _ => if Ascii.eqb c2 NL then 2 else 1
        | EmptyString => 1
        end
      else if is_linebreak c1 then 1
      else match s1 with
           | EmptyString => 0
           | String c2 s2 =>
               if byte_is c1 194 && byte_is c2 133 then 2
               else match s2 with
                    | EmptyString => 0
                    | String c3 _ =>
                        if byte_is c1 226 && byte_is c2 128
                           && (byte_is c3 168 || byte_is c3 169)
                        then 3 else 0
                    end
           end
  end.

(** [cur] is the line being read, reversed; [skip] counts the bytes of a
    line boundary still to pass over. *)
Fixpoint splitlines_go (cur : option string) (skip : nat) (s : string)
  : list string :=
  match s with
  | EmptyString =>
      match cur with
      | None => []
      | Some l => [String.rev l]
      end
  | String a s' =>
      match skip with
      | S k => splitlines_go None k s'
      | O =>
          match break_width s with
          | O => splitlines_go (Some (String a (default EmptyString cur))) O s'
          | S k => String.rev (default EmptyString cur) :: splitlines_go None k s'
          end
      end
  end.

(** [s.splitlines()] *)
Definition splitlines (s : string) : list string := splitlines_go None O s.

(** [s.replace(old, new)] for a non-empty [old]: left to right, matches do
    not overlap.  [skip] counts the characters of a match still to drop. *)
Fixpoint replace_go (old new : string) (skip : nat) (s : string) : string :=
  match s with
  | EmptyString => EmptyString
  | String a s' =>
      match skip with
      | S k => replace_go old new k s'
      | O =>
          if String.prefix old s
          then new +:+ replace_go old new (Nat.pred (String.length old)) s'
          else String a (replace_go old new O s')
      end
  end.

Definition replace (s old new : string) : string := replace_go old new O s.

(** [s.count(sub)] for a non-empty [sub]: matches do not overlap. *)
Fixpoint count_go (sub : string) (skip : nat) (s : string) : nat :=
  match s with
  | EmptyString => O
  | String _ s' =>
      match skip with
      | S k => count_go sub k s'
      | O =>
          if String.prefix sub s
          then S (count_go sub (Nat.pred (String.length sub)) s')
          else count_go sub O s'
      end
  end.

Definition count (s sub : string) : nat := count_go sub O s.

(** [s[:n]] for [n >= 0] *)
Definition str_take (n : nat) (s : string) : string := String.substring 0 n s.

(** [s[:-n]] for [n > 0] *)
Definition str_drop_end (n : nat) (s : string) : string :=
  String.substring 0 (String.length s - n) s.

(** ASCII [str.lower()] *)
Definition lower_ascii (c : ascii) : ascii :=
  let n := Ascii.nat_of_ascii c in
  if ((65 <=? n)%nat && (n <=? 90)%nat) then Ascii.ascii_of_nat (n + 32) else c.

Fixpoint lower (s : string) : string :=
  match s with
  | EmptyString => EmptyString
  | String c s' => String (lower_ascii c) (lower s')
  end.

End PyStr.

Import PyStr.

(** ** Python list slicing *)

(** The clamping of one bound of [l[a:b]] for a list of length [len]. *)
Definition slice_bound (len i : Z) : Z :=
  if i <? 0 then Z.max 0 (len + i) else Z.min i len.

(** [l[a:b]] *)
Definition py_slice {A} (l : list A) (a b : Z) : list A :=
  let len := Z.of_nat (length l) in
  let a' := slice_bound len a in
  let b' := slice_bound len b in
  take (Z.to_nat (b' - a')) (drop (Z.to_nat a') l).

(** [extract_code]: the text of lines [start..end], 1-based, inclusive. *)
Definition extract_code (lines : list string) (start end_ : Z) : string :=
  join nl (py_slice lines (start - 1) end_).

(** ** The syntax tree

    The nodes of [ast] the program tells apart; every other kind of node is
    [Other] with its child nodes, which is what [generic_visit] and
    [ast.walk] see of it.  A decorator is kept with its [lineno]. *)

Inductive expr_context := Load | Store | Del.

Record alias := { alias_name : string; alias_asname : option string }.

Inductive constant := CStr (s : string) | COther.

Inductive node :=
| Name (id : string) (ctx : expr_context)
| Constant (value : constant)
| Expr (value : node)
| Import (names : list alias)
| ImportFrom (module : option string) (names : list alias) (level : nat)
| ClassDef (name : string) (lineno : Z) (end_lineno : option Z)
    (decorator_list : list (Z * node)) (children : list node)
| FunctionDef (name : string) (lineno : Z) (end_lineno : option Z)
    (decorator_list : list (Z * node)) (children : list node)
| AsyncFunctionDef (name : string) (lineno : Z) (end_lineno : option Z)
    (decorator_list : list (Z * node)) (children : list node)
| Other (children : list node).

(** [ast.Module]: its [body]. *)
Definition Module_ := list node.

(** [UsedNamesCollector]: the [id] of every [Name] node in [Load] context
    below [n].  The visitor's accumulator set is the result. *)
Fixpoint used_names (n : node) : gset string :=
  match n with
  | Name id Load => {[ id ]}
  | Name _ _ | Constant _ | Import _ | ImportFrom _ _ _ => ∅
  | Expr v => used_names v
  | ClassDef _ _ _ ds ch
  | FunctionDef _ _ _ ds ch
  | AsyncFunctionDef _ _ _ ds ch =>
      ⋃ (List.map (λ d, used_names (snd d)) ds) ∪ ⋃ (List.map used_names ch)
  | Other ch => ⋃ (List.map used_names ch)
  end.

(** ** Declaration extractor *)

(** A declaration as the program keeps it: [(name, start_line, end_lineno)]. *)
Definition decl : Type := string * Z * option Z.

Definition decl_name (d : decl) : string := d.1.1.
Definition decl_start (d : decl) : Z := d.1.2.
Definition decl_end (d : decl) : option Z := d.2.

(** The start line: the first decorator's line when it is above. *)
Definition start_line (lineno : Z) (decorator_list : list (Z * node)) : Z :=
  match decorator_list with
  | [] => lineno
  | (l, _) :: _ => Z.min lineno l
  end.

Definition class_decl (s : node) : option decl :=
  match s with
  | ClassDef name lineno end_lineno ds _ => Some (name, start_line lineno ds, end_lineno)
  | _ => None
  end.

Definition function_decl (s : node) : option decl :=
  match s with
  | FunctionDef name lineno end_lineno ds _ => Some (name, start_line lineno ds, end_lineno)
  | _ => None
  end.

Definition find_top_level_defs (tree : Module_) : list decl * list decl :=
  (omap class_decl tree, omap function_decl tree).

(** [range(start, end + 1)] *)
Definition line_range (start end_ : Z) : list Z := seqZ start (end_ + 1 - start).

Definition get_occupied_lines (defs : list decl) : gset Z :=
  foldl (λ occupied d,
           match decl_end d with
           | Some end_ => occupied ∪ list_to_set (line_range (decl_start d) end_)
           | None => occupied
           end) ∅ defs.

(** [ast.unparse] on an import statement. *)
Definition unparse_alias (a : alias) : string :=
  match alias_asname a with
  | Some n => alias_name a +:+ " as " +:+ n
  | None => alias_name a
  end.

Fixpoint dots (n : nat) : string :=
  match n with O => EmptyString | S k => "." +:+ dots k end.

Definition unparse_import (s : node) : option string :=
  match s with
  | Import names => Some ("import " +:+ join ", " (unparse_alias <$> names))
  | ImportFrom module names level =>
      Some ("from " +:+ dots level +:+ default EmptyString module +:+ " import "
              +:+ join ", " (unparse_alias <$> names))
  | _ => None
  end.

Definition get_imports (tree : Module_) : list string := omap unparse_import tree.

(** ** Dependency analyzer *)

Definition is_class (s : node) : bool :=
  match s with ClassDef _ _ _ _ _ => true | _ => false end.
Definition is_function (s : node) : bool :=
  match s with FunctionDef _ _ _ _ _ => true | _ => false end.
Definition is_import (s : node) : bool :=
  match s with Import _ | ImportFrom _ _ _ => true | _ => false end.

(** The two buckets of one class: other classes it reads, functions it reads. *)
Definition class_buckets (class_names function_names : list string)
    (name : string) (used : gset string) : list string * list string :=
  (filter (λ n, n ∈ class_names ∧ n ≠ name) (elements used),
   filter (λ n, n ∈ function_names) (elements used)).

(** The first loop: the buckets of every class, under its name. *)
Definition class_used_step (class_names function_names : list string)
    (acc : gmap string (list string * list string)) (stmt : node)
  : gmap string (list string * list string) :=
  match stmt with
  | ClassDef name _ _ _ _ =>
      <[name := class_buckets class_names function_names name (used_names stmt)]> acc
  | _ => acc
  end.

Definition class_used_of (tree : Module_) (class_names function_names : list string)
  : gmap string (list string * list string) :=
  foldl (class_used_step class_names function_names) ∅ tree.

(** The second loop: the classes that some function reads. *)
Definition func_used_classes_of (tree : Module_) (class_names : list string) : gset string :=
  foldl (λ acc stmt,
           if is_function stmt
           then acc ∪ list_to_set (filter (λ n, n ∈ class_names) (elements (used_names stmt)))
           else acc) ∅ tree.

(** The third loop: the names read by the statements that are neither
    class, function nor import. *)
Definition top_used_of (tree : Module_) : gset string :=
  foldl (λ acc stmt,
           if is_class stmt || is_function stmt || is_import stmt then acc
           else acc ∪ used_names stmt) ∅ tree.

Definition analyze_dependencies (tree : Module_) (class_names function_names : list string)
  : gmap string (list string * list string) * gset string * list string * list string :=
  let class_used := class_used_of tree class_names function_names in
  let func_used_classes := func_used_classes_of tree class_names in
  let top_used := top_used_of tree in
  let top_used_cls := filter (λ n, n ∈ class_names) (elements top_used) in
  let top_used_fn := filter (λ n, n ∈ function_names) (elements top_used) in
  (class_used, func_used_classes, top_used_cls, top_used_fn).

(** ** Grouping config *)

(** One group of the config: [items.get("classes", [])] and
    [items.get("functions", [])]. *)
Record module_items := { classes : list string; functions : list string }.

(** [config.get("modules", {})] of a config that Python takes as true, its
    groups in the order of the file.  [None : option config_modules] stands
    for no config and for the empty dict alike: [if config:] treats them
    the same. *)
Definition config_modules : Type := list (string * module_items).

(** Every name the config mentions as a class, and as a function. *)
Definition config_split_classes (ms : config_modules) : gset string :=
  foldl (λ acc m, acc ∪ list_to_set (classes (snd m))) ∅ ms.
Definition config_split_functions (ms : config_modules) : gset string :=
  foldl (λ acc m, acc ∪ list_to_set (functions (snd m))) ∅ ms.

(** ** The residual file *)

Definition DQ : ascii := Ascii.ascii_of_nat 34.
Definition SQ : ascii := Ascii.ascii_of_nat 39.
Definition triple_dq : string := String DQ (String DQ (String DQ EmptyString)).
Definition triple_sq : string := String SQ (String SQ (String SQ EmptyString)).

(** The [while] loop that replaces three line feeds by two until none is
    left; every round that finds the pattern shortens the text, so the
    length of the text bounds the number of rounds. *)
Fixpoint collapse_go (fuel : nat) (result : string) : string :=
  match fuel with
  | O => result
  | S k =>
      if contains result (nl +:+ nl +:+ nl)
      then collapse_go k (replace result (nl +:+ nl +:+ nl) (nl +:+ nl))
      else result
  end.

Definition collapse_blank_lines (result : string) : string :=
  collapse_go (String.length result) result.

(** The state of the scan over the lines outside every declaration. *)
Record scan_state := {
  in_module_docstring : bool;
  docstring_quotes : option string;
  top_level_code : list string
}.

Definition scan_line (st : scan_state) (line : string) : scan_state :=
  let stripped := strip line in
  if negb (in_module_docstring st)
     && (startswith stripped triple_dq || startswith stripped triple_sq)
  then
    let q := str_take 3 stripped in
    if Nat.eqb (count stripped q) 2
    then {| in_module_docstring := in_module_docstring st;
            docstring_quotes := Some q;
            top_level_code := top_level_code st |}
    else {| in_module_docstring := true;
            docstring_quotes := Some q;
            top_level_code := top_level_code st |}
  else if in_module_docstring st
          && match docstring_quotes st with
             | Some q => endswith stripped q
             | None => false
             end
  then {| in_module_docstring := false;
          docstring_quotes := docstring_quotes st;
          top_level_code := top_level_code st |}
  else if in_module_docstring st then st
  else if match top_level_code st with [] => true | _ => false end
          && String.eqb stripped EmptyString
  then st
  else {| in_module_docstring := in_module_docstring st;
          docstring_quotes := docstring_quotes st;
          top_level_code := top_level_code st ++ [line] |}.

(** The lines [i] of [1..len(lines)] that are not in [occupied], in order;
    [i] is the number of the first line of [lines]. *)
Fixpoint free_lines_from (i : Z) (lines : list string) (occupied : gset Z) : list string :=
  match lines with
  | [] => []
  | line :: rest =>
      if decide (i ∈ occupied) then free_lines_from (i + 1) rest occupied
      else line :: free_lines_from (i + 1) rest occupied
  end.

Definition free_lines (lines : list string) (occupied : gset Z) : list string :=
  free_lines_from 1 lines occupied.

Definition scan_top_level (lines : list string) (all_occupied : gset Z) : list string :=
  top_level_code
    (foldl scan_line
       {| in_module_docstring := false; docstring_quotes := None; top_level_code := [] |}
       (free_lines lines all_occupied)).

(** The second filter: lines that start a docstring are dropped as long as
    nothing was kept yet. *)
Definition filter_top_level (top_level : list string) : list string :=
  foldl (λ filtered line,
           if startswith (strip line) triple_dq
              && match filtered with [] => true | _ => false end
           then filtered else filtered ++ [line]) [] top_level.

(** The declarations with an end line, as [(name, (start, end))]. *)
Definition with_end (defs : list decl) : list (string * (Z * Z)) :=
  omap (λ d, (λ e, (decl_name d, (decl_start d, e))) <$> decl_end d) defs.

(** The text of the declarations that stay: one part for the code, one empty
    part after it. *)
Definition remaining_parts (lines : list string) (remaining : list decl) : list string :=
  flat_map (λ d, match decl_end d with
                 | Some end_ => [extract_code lines (decl_start d) end_; EmptyString]
                 | None => []
                 end) remaining.

Section Residual.

(** [ast.parse]: [None] for a [SyntaxError]. *)
Variable ast_parse : string → option Module_.

Definition _extract_module_docstring (code : string) : option string :=
  match ast_parse code with
  | Some (Expr (Constant (CStr value)) :: _) => Some (triple_dq +:+ value +:+ triple_dq)
  | _ => None
  end.

(** The names that are split out, by mode. *)
Definition split_names (config : option config_modules)
    (class_names function_names : list string) : gset string * gset string :=
  match config with
  | Some ms => (config_split_classes ms, config_split_functions ms)
  | None => (list_to_set class_names, list_to_set function_names)
  end.

Definition remaining_decls (split : gset string) (defs : list decl) : list decl :=
  filter (λ d, decl_name d ∉ split) defs.

(** The classes and the functions that stay in the residual file. *)
Definition remaining_of (config : option config_modules)
    (classes_ functions_ : list decl) (class_names function_names : list string)
  : list decl * list decl :=
  let '(split_classes, split_functions) :=
    split_names config class_names function_names in
  (remaining_decls split_classes classes_, remaining_decls split_functions functions_).

(** [content_parts] when nothing remains. *)
Definition minimal_parts (code : string) (imports : list string)
    (config : option config_modules) (class_names function_names : list string)
  : list string :=
  (match _extract_module_docstring code with
   | Some original_docstring => [original_docstring; EmptyString]
   | None =>
       [triple_dq;
        "Main module - classes have been split into separate files.";
        "Import from the individual modules or use the __init__.py for convenience.";
        triple_dq;
        EmptyString]
   end)
  ++ (match imports with [] => [] | _ => imports ++ [EmptyString] end)
  ++ (match config with
      | Some ms => (λ m, "from ." +:+ fst m +:+ " import *") <$> ms
      | None =>
          ((λ c, "from ." +:+ c +:+ " import " +:+ c) <$> class_names)
          ++ (match function_names with
              | [] => []
              | _ => ["from .functions import " +:+ join ", " function_names]
              end)
      end).

(** [content_parts] when some declaration remains. *)
Definition shrunk_parts (lines imports : list string)
    (classes_ functions_ remaining_classes remaining_functions : list decl)
  : list string :=
  let all_occupied := get_occupied_lines (classes_ ++ functions_) in
  (match imports with [] => [] | _ => imports ++ [EmptyString] end)
  ++ remaining_parts lines remaining_classes
  ++ remaining_parts lines remaining_functions
  ++ filter_top_level (scan_top_level lines all_occupied).

Definition finish_shrunk (parts : list string) : string :=
  let result := collapse_blank_lines (join nl parts) in
  if String.eqb (strip result) EmptyString then EmptyString
  else strip result +:+ nl.

Definition create_shrunk_original (code : string) (lines imports : list string)
    (classes_ functions_ : list decl) (config : option config_modules)
    (class_names function_names : list string) : string :=
  let '(remaining_classes, remaining_functions) :=
    remaining_of config classes_ functions_ class_names function_names in
  match remaining_classes, remaining_functions with
  | [], [] =>
      join nl (minimal_parts code imports config class_names function_names) +:+ nl
  | _, _ =>
      finish_shrunk
        (shrunk_parts lines imports classes_ functions_
           remaining_classes remaining_functions)
  end.

(** The declarations whose text is put into the residual file. *)
Definition residual_members (config : option config_modules)
    (classes_ functions_ : list decl) (class_names function_names : list string)
  : list string :=
  let '(remaining_classes, remaining_functions) :=
    remaining_of config classes_ functions_ class_names function_names in
  fst <$> (with_end remaining_classes ++ with_end remaining_functions).

End Residual.

(** ** The world the program runs in

    [fs] holds the regular files by path, [dirs] the directories,
    [sys_path] and [sys_modules] are the module search path and the
    process-wide module registry (a module object is known by the file it was
    made from), [stdout] the printed diagnostics, oldest first: the
    messages about something that went wrong.  The progress messages and the
    report that [write_split_files] prints on its way are not kept.  A file
    holds a text, and reads and writes of existing paths succeed: encodings
    that do not decode, permissions and devices are not modelled. *)

Record world := {
  fs : gmap string string;
  dirs : gset string;
  sys_path : list string;
  sys_modules : gmap string string;
  stdout : list string
}.

Definition with_fs (f : gmap string string → gmap string string) (w : world) : world :=
  {| fs := f (fs w); dirs := dirs w; sys_path := sys_path w;
     sys_modules := sys_modules w; stdout := stdout w |}.
Definition with_dirs (f : gset string → gset string) (w : world) : world :=
  {| fs := fs w; dirs := f (dirs w); sys_path := sys_path w;
     sys_modules := sys_modules w; stdout := stdout w |}.
Definition with_sys_path (f : list string → list string) (w : world) : world :=
  {| fs := fs w; dirs := dirs w; sys_path := f (sys_path w);
     sys_modules := sys_modules w; stdout := stdout w |}.
Definition with_sys_modules (f : gmap string string → gmap string string) (w : world) : world :=
  {| fs := fs w; dirs := dirs w; sys_path := sys_path w;
     sys_modules := f (sys_modules w); stdout := stdout w |}.
Definition print (msg : string) (w : world) : world :=
  {| fs := fs w; dirs := dirs w; sys_path := sys_path w;
     sys_modules := sys_modules w; stdout := stdout w ++ [msg] |}.

Definition write_file (path content : string) : world → world :=
  with_fs (insert path content).

(** ** Paths *)

Module Path.

Definition SEP : ascii := Ascii.ascii_of_nat 47.
Definition DOT : ascii := Ascii.ascii_of_nat 46.

(** [os.path.join(a, b)] *)
Definition join (a b : string) : string :=
  if startswith b (String SEP EmptyString) then b
  else if String.eqb a EmptyString || endswith a (String SEP EmptyString) then a +:+ b
  else a +:+ String SEP b.

(** The text before and after the last [c] of [s]. *)
Fixpoint rsplit (c : ascii) (s : string) : option (string * string) :=
  match s with
  | EmptyString => None
  | String a s' =>
      match rsplit c s' with
      | Some (l, r) => Some (String a l, r)
      | None => if Ascii.eqb a c then Some (EmptyString, s') else None
      end
  end.

(** [os.path.basename(p)] *)
Definition basename (p : string) : string :=
  match rsplit SEP p with
  | Some (_, b) => b
  | None => p
  end.

Fixpoint all_dots (s : string) : bool :=
  match s with
  | EmptyString => true
  | String a s' => Ascii.eqb a DOT && all_dots s'
  end.

(** [os.path.splitext(b)[0]] for a name [b] without separator: the last
    dot starts the extension unless only dots come before it. *)
Definition splitext_root (b : string) : string :=
  match rsplit DOT b with
  | Some (root, _) => if all_dots root then b else root
  | None => b
  end.

End Path.

(** ** Partition planner and file emitter *)

(** One emitted file of the new package: its name without [.py], the
    declarations whose text was put into it, in order, and its text. *)
Record unit_file := {
  unit_name : string;
  unit_members : list string;
  unit_content : string
}.

(** The first declaration called [name] that has an end line. *)
Definition find_def (defs : list decl) (name : string) : option (Z * Z) :=
  list_find (λ d, decl_name d = name ∧ decl_end d ≠ None) defs
    ≫= λ '(_, d), (λ e, (decl_start d, e)) <$> decl_end d.

(** What one list of a group selects: the listed names that are declared,
    each with the span of its first declaration that has an end line. *)
Definition group_picks (defs : list decl) (names : list string) (listed : list string)
  : list (string * (Z * Z)) :=
  omap (λ n, if decide (n ∈ names) then pair n <$> find_def defs n else None) listed.

Definition picks_code (lines : list string) (picks : list (string * (Z * Z))) : string :=
  String.concat EmptyString
    ((λ p, extract_code lines (fst (snd p)) (snd (snd p)) +:+ nl +:+ nl) <$> picks).

Definition group_unit (lines imports : list string) (classes_ functions_ : list decl)
    (class_names function_names : list string) (m : string * module_items) : unit_file :=
  let cs := group_picks classes_ class_names (classes (snd m)) in
  let fns := group_picks functions_ function_names (functions (snd m)) in
  {| unit_name := fst m;
     unit_members := (fst <$> cs) ++ (fst <$> fns);
     unit_content := join nl imports +:+ nl +:+ picks_code lines cs +:+ picks_code lines fns |}.

(** The import lines synthesized for a class unit from its two buckets. *)
Definition class_import_lines (b : list string * list string) : string :=
  String.concat EmptyString ((λ uc, "from ." +:+ uc +:+ " import " +:+ uc +:+ nl) <$> fst b)
  +:+ match snd b with
      | [] => EmptyString
      | _ => "from .functions import " +:+ join ", " (snd b) +:+ nl
      end.

Definition class_unit (lines imports : list string)
    (class_used : gmap string (list string * list string)) (d : decl) : option unit_file :=
  match decl_end d with
  | None => None
  | Some end_ =>
      Some {| unit_name := decl_name d;
              unit_members := [decl_name d];
              unit_content :=
                join nl imports +:+ nl
                +:+ class_import_lines (default ([], []) (class_used !! decl_name d))
                +:+ nl +:+ extract_code lines (decl_start d) end_ |}
  end.

Definition functions_unit (lines imports : list string) (func_used : gset string)
    (functions_ : list decl) : option unit_file :=
  match functions_ with
  | [] => None
  | _ =>
      Some {| unit_name := "functions";
              unit_members := fst <$> with_end functions_;
              unit_content :=
                join nl imports +:+ nl
                +:+ String.concat EmptyString
                      ((λ uc, "from ." +:+ uc +:+ " import " +:+ uc +:+ nl)
                         <$> elements func_used)
                +:+ nl +:+ picks_code lines (with_end functions_) |}
  end.

(** The partition units of a run, in the order they are written. *)
Definition partition_units (lines imports : list string) (classes_ functions_ : list decl)
    (config : option config_modules) (class_names function_names : list string)
    (class_used : gmap string (list string * list string)) (func_used : gset string)
  : list unit_file :=
  match config with
  | Some ms =>
      group_unit lines imports classes_ functions_ class_names function_names <$> ms
  | None =>
      omap (class_unit lines imports class_used) classes_
      ++ option_list (functions_unit lines imports func_used functions_)
  end.

Definition main_unit (imports top_level : list string) (top_used_cls top_used_fn : list string)
  : option unit_file :=
  match top_level with
  | [] => None
  | _ =>
      Some {| unit_name := "main";
              unit_members := [];
              unit_content :=
                join nl imports +:+ nl
                +:+ class_import_lines (top_used_cls, top_used_fn)
                +:+ nl +:+ join nl top_level |}
  end.

(** ** Interface aggregator *)

Definition init_content (config : option config_modules)
    (class_names function_names : list string) : string :=
  match config with
  | Some ms =>
      String.concat EmptyString ((λ m, "from ." +:+ fst m +:+ " import *" +:+ nl) <$> ms)
  | None =>
      String.concat EmptyString
        ((λ c, "from ." +:+ c +:+ " import " +:+ c +:+ nl) <$> class_names)
      +:+ match function_names with
          | [] => EmptyString
          | _ => "from .functions import " +:+ join ", " function_names +:+ nl
          end
  end.

(** The import lines of the interface file. *)
Definition interface_imports (base_name : string) (config : option config_modules)
    (class_names function_names : list string) : list string :=
  match config with
  | Some ms =>
      omap (λ m, match classes (snd m) ++ functions (snd m) with
                 | [] => None
                 | names => Some ("from ." +:+ base_name +:+ "." +:+ fst m
                                    +:+ " import " +:+ join ", " names)
                 end) ms
  | None =>
      ((λ c, "from ." +:+ base_name +:+ "." +:+ c +:+ " import " +:+ c) <$> class_names)
      ++ match function_names with
         | [] => []
         | _ => ["from ." +:+ base_name +:+ ".functions import " +:+ join ", " function_names]
         end
  end.

Definition create_interface_file (base_name : string) (class_names function_names : list string)
    (config : option config_modules) : string :=
  let all_exports := class_names ++ function_names in
  join nl
    ([triple_dq;
      "Interface module for " +:+ base_name +:+ ".";
      EmptyString;
      "This file provides a clean interface to all classes and functions";
      "that were split into separate modules. Import from this file";
      "to maintain compatibility with existing code.";
      triple_dq;
      EmptyString]
     ++ interface_imports base_name config class_names function_names
     ++ [EmptyString]
     ++ match all_exports with
        | [] => []
        | _ => ["__all__ = ["]
               ++ ((λ e, "    " +:+ String DQ e +:+ String DQ ",") <$> all_exports)
               ++ ["]"]
        end)
  +:+ nl.

(** ** Directories *)

Definition str_drop (n : nat) (s : string) : string :=
  String.substring n (String.length s - n) s.

(** The path of [path] below [folder], when it lies below it. *)
Definition below (folder path : string) : option string :=
  let pre := Path.join folder EmptyString in
  if startswith path pre then Some (str_drop (String.length pre) path) else None.

(** The name of [path] when it lies directly in [folder]. *)
Definition child_name (folder path : string) : option string :=
  below folder path ≫= λ rest,
    if contains rest (String Path.SEP EmptyString) then None else Some rest.

(** [os.listdir(folder)]: the regular files directly in [folder], in an
    unspecified order; [None] when [folder] is no directory. *)
Definition listdir (w : world) (folder : string) : option (list string) :=
  if decide (folder ∈ dirs w)
  then Some (omap (child_name folder) (fst <$> map_to_list (fs w)))
  else None.

Definition exists_ (w : world) (path : string) : bool :=
  bool_decide (is_Some (fs w !! path)) || bool_decide (path ∈ dirs w).

(** The [OSError]s of [open(path, 'r')]. *)
Inductive open_error := FileNotFoundError | IsADirectoryError | NotADirectoryError.

(** Some regular file lies on the way to [path]. *)
Definition under_a_file (w : world) (path : string) : bool :=
  bool_decide (Exists (λ p, is_Some (below p path)) (map_to_list (fs w)).*1).

(** [open(path, 'r').read()]: the text of the file, or the error that
    [open] raises. *)
Definition open_read (w : world) (path : string) : string + open_error :=
  match fs w !! path with
  | Some text => inl text
  | None =>
      if bool_decide (path ∈ dirs w) then inr IsADirectoryError
      else if under_a_file w path then inr NotADirectoryError
      else inr FileNotFoundError
  end.

(** [shutil.copytree(src, dst)]: [None] when [src] is no directory or
    [dst] exists. *)
Definition copytree (src dst : string) (w : world) : option world :=
  if bool_decide (src ∈ dirs w) && negb (exists_ w dst)
  then
    let copied : gmap string string :=
      list_to_map (omap (λ pc : string * string,
                           (λ rest, (Path.join dst rest, snd pc)) <$> below src (fst pc))
                        (map_to_list (fs w))) in
    let copied_dirs : gset string :=
      list_to_set (omap (λ d, Path.join dst <$> below src d) (elements (dirs w))) in
    Some (with_dirs (λ ds, {[dst]} ∪ copied_dirs ∪ ds) (with_fs (λ m, copied ∪ m) w))
  else None.

(** [shutil.rmtree(dir)] as the temporary directory does it on exit. *)
Definition rmtree (dir : string) (w : world) : world :=
  with_dirs (filter (λ d, d ≠ dir ∧ below dir d = None))
    (with_fs (filter (λ pc, below dir (fst pc) = None)) w).

(** ** Validation, stage 1: syntax *)

Record syntax_results := {
  all_valid : bool;
  files_checked : list string;
  syntax_errors : list string;
  valid_files : list string;
  invalid_files : list string
}.

Definition is_py (file_name : string) : bool := endswith file_name ".py".

(** What [json.load] makes of a text. *)
Inductive json_result :=
| JsonError (msg : string)
| JsonNull
| JsonConfig (config : option config_modules).

(** The package [black]: the modules that importing it registers - black
    itself and what it loads, each unless it is registered already - and
    [black.format_file_in_place] on a file that holds a text: the text it
    leaves in the file, or the message of the exception it raises, for a
    text it cannot parse. *)
Record black_package := {
  black_modules : gmap string string;
  format_file_in_place : string → string + string
}.

Section Validation.

Variable ast_parse : string → option Module_.

(** [str(e)] of the [SyntaxError] that [ast.parse] raises on a text. *)
Variable syntax_error_message : string → string.

Definition check_file (w : world) (split_folder : string)
    (r : syntax_results) (file_name : string) : syntax_results :=
  if is_py file_name then
    match fs w !! Path.join split_folder file_name with
    | Some code =>
        match ast_parse code with
        | Some _ =>
            {| all_valid := all_valid r;
               files_checked := files_checked r ++ [file_name];
               syntax_errors := syntax_errors r;
               valid_files := valid_files r ++ [file_name];
               invalid_files := invalid_files r |}
        | None =>
            {| all_valid := false;
               files_checked := files_checked r ++ [file_name];
               syntax_errors := syntax_errors r
                 ++ ["Syntax error in " +:+ file_name +:+ ": " +:+ syntax_error_message code];
               valid_files := valid_files r;
               invalid_files := invalid_files r ++ [file_name] |}
        end
    | None =>
        {| all_valid := false;
           files_checked := files_checked r ++ [file_name];
           syntax_errors := syntax_errors r
             ++ ["Error reading " +:+ file_name +:+ ": No such file or directory"];
           valid_files := valid_files r;
           invalid_files := invalid_files r ++ [file_name] |}
    end
  else r.

Definition _validate_syntax (w : world) (split_folder : string) : syntax_results :=
  let init := {| all_valid := true; files_checked := []; syntax_errors := [];
                 valid_files := []; invalid_files := [] |} in
  match listdir w split_folder with
  | Some names => foldl (check_file w split_folder) init names
  | None =>
      {| all_valid := false; files_checked := [];
         syntax_errors := ["Error accessing split folder: No such file or directory"];
         valid_files := []; invalid_files := [] |}
  end.

(** ** Validation, stage 2: imports in a sandbox *)

(** The test that decides whether a line of the copy is commented out. *)
Definition escapes_package (line : string) : bool :=
  let stripped := strip line in
  startswith stripped "from .."
  || startswith stripped "import .."
  || contains stripped "from ..core"
  || contains stripped "from ..models".

Definition fix_line (line : string) : string :=
  if escapes_package line
  then "# " +:+ line +:+ "  # Commented out for validation"
  else line.

(** What is written back for a file whose text is [content]. *)
Definition fix_content (content : string) : string :=
  join nl (fix_line <$> split NL content).

Definition fix_file (folder : string) (w : world) (file_name : string) : world :=
  if is_py file_name then
    match fs w !! Path.join folder file_name with
    | Some content => write_file (Path.join folder file_name) (fix_content content) w
    | None => w
    end
  else w.

(** [None] when [copytree] raises; otherwise the world with the copy in
    it and the path of the copy. *)
Definition _create_test_version_with_fixed_imports
    (split_folder temp_dir base_name : string) (w : world) : option (world * string) :=
  let temp_split_folder := Path.join temp_dir base_name in
  copytree split_folder temp_split_folder w ≫= λ w1,
    Some (foldl (fix_file temp_split_folder) w1
            (default [] (listdir w1 temp_split_folder)),
          temp_split_folder).

Record import_results := {
  all_imports_successful : bool;
  successful_imports : list string;
  failed_imports : list string;
  import_errors : list string;
  import_warnings : list string
}.

(** How loading one file ends. *)
Inductive load_result :=
| Loaded
| RaisedImportError (msg : string)
| RaisedException (msg : string)
| RaisedBaseException.

(** The module loader of the host runtime.
    [spec_from_file_location name path] says whether a spec with a loader
    is made; [exec_module name path w] runs the file at [path] as module
    [name] in world [w]: it gives the world afterwards and how the run
    ended.  Running a file runs its top-level code: its imports register
    what they load, and its statements may print, write files and change
    the search path. *)
Variable spec_from_file_location : string → string → bool.
Variable exec_module : string → string → world → world * load_result.

(** [tempfile.mkdtemp]: the path of the directory it makes in a world. *)
Variable mkdtemp : world → string.

Definition add_success (f : string) (r : import_results) : import_results :=
  {| all_imports_successful := all_imports_successful r;
     successful_imports := successful_imports r ++ [f];
     failed_imports := failed_imports r;
     import_errors := import_errors r;
     import_warnings := import_warnings r |}.
Definition add_warning (msg : string) (r : import_results) : import_results :=
  {| all_imports_successful := all_imports_successful r;
     successful_imports := successful_imports r;
     failed_imports := failed_imports r;
     import_errors := import_errors r;
     import_warnings := import_warnings r ++ [msg] |}.
Definition add_failure (f msg : string) (r : import_results) : import_results :=
  {| all_imports_successful := false;
     successful_imports := successful_imports r;
     failed_imports := failed_imports r ++ [f];
     import_errors := import_errors r ++ [msg];
     import_warnings := import_warnings r |}.
Definition setup_failure (msg : string) (r : import_results) : import_results :=
  {| all_imports_successful := false;
     successful_imports := successful_imports r;
     failed_imports := failed_imports r;
     import_errors := import_errors r ++ [msg];
     import_warnings := import_warnings r |}.

(** The state of the stage while files are loaded: [None] once an
    exception that is no [Exception] is on its way out. *)
Definition loading : Type := world * option import_results.

(** Loading the package initializer. *)
Definition load_init (temp_split_folder base_name : string) (st : loading) : loading :=
  match snd st with
  | None => st
  | Some r =>
      let w := fst st in
      let path := Path.join temp_split_folder "__init__.py" in
      if spec_from_file_location base_name path then
        let '(w', res) := exec_module base_name path w in
        match res with
        | Loaded => (w', Some (add_success "__init__.py" r))
        | RaisedImportError msg | RaisedException msg =>
            if contains (lower msg) "relative import"
            then (w', Some (add_warning
                              ("Expected relative import issue in __init__.py: " +:+ msg) r))
            else (w', Some (add_failure "__init__.py"
                              ("Failed to import main package: " +:+ msg) r))
        | RaisedBaseException => (w', None)
        end
      else (w, Some (add_warning "Could not create module spec for __init__.py" r))
  end.

(** Loading one file of the copy. *)
Definition load_file (temp_split_folder base_name : string)
    (st : loading) (file_name : string) : loading :=
  match snd st with
  | None => st
  | Some r =>
      let w := fst st in
      if is_py file_name && negb (String.eqb file_name "__init__.py") then
        let module_name := str_drop_end 3 file_name in
        let file_path := Path.join temp_split_folder file_name in
        let full_name := base_name +:+ "." +:+ module_name in
        if spec_from_file_location full_name file_path then
          let w1 := with_sys_modules (insert full_name file_path) w in
          let '(w', res) := exec_module full_name file_path w1 in
          match res with
          | Loaded => (w', Some (add_success file_name r))
          | RaisedImportError msg =>
              if contains (lower msg) "relative import"
              then (w', Some (add_warning
                                ("Expected relative import issue in " +:+ file_name
                                   +:+ ": " +:+ msg) r))
              else (w', Some (add_warning
                                ("Import warning for " +:+ file_name +:+ ": " +:+ msg) r))
          | RaisedException msg =>
              (w', Some (add_failure file_name
                           ("Failed to import " +:+ file_name +:+ ": " +:+ msg) r))
          | RaisedBaseException => (w', None)
          end
        else (w, Some (add_warning ("Could not create module spec for " +:+ file_name) r))
      else st
  end.

(** [list.remove(x)]: the first occurrence goes. *)
Fixpoint remove_first (x : string) (l : list string) : list string :=
  match l with
  | [] => []
  | y :: l' => if String.eqb x y then l' else y :: remove_first x l'
  end.

(** The [finally] block: the search path and the registry are cleaned. *)
Definition cleanup_sys_modules (base_name : string)
    (m : gmap string string) : gmap string string :=
  filter (λ kv, startswith (fst kv) base_name = false) m.

Definition cleanup (temp_dir base_name : string) (w : world) : world :=
  with_sys_modules (cleanup_sys_modules base_name)
    (with_sys_path (λ p, if decide (temp_dir ∈ p) then remove_first temp_dir p else p) w).

(** [None] as result: an exception that is no [Exception] leaves the
    stage, after the cleanup. *)
Definition _validate_imports (split_folder base_name : string) (w : world)
  : option import_results * world :=
  let results := {| all_imports_successful := true; successful_imports := [];
                    failed_imports := []; import_errors := []; import_warnings := [] |} in
  let temp_dir := mkdtemp w in
  let w0 := with_dirs (λ ds, {[temp_dir]} ∪ ds) w in
  let '(r, w_end) :=
    match _create_test_version_with_fixed_imports split_folder temp_dir base_name w0 with
    | None =>
        (Some (setup_failure
                 "Error setting up import test environment: cannot copy the split folder"
                 results), w0)
    | Some (w1, temp_split_folder) =>
        let w2 := with_sys_path
                    (λ p, if decide (temp_dir ∈ p) then p else temp_dir :: p) w1 in
        let st := load_init temp_split_folder base_name (w2, Some results) in
        let st' := foldl (load_file temp_split_folder base_name) st
                     (default [] (listdir (fst st) temp_split_folder)) in
        (snd st', cleanup temp_dir base_name (fst st'))
    end in
  (r, rmtree temp_dir w_end).

(** ** Reading and parsing a file *)

Inductive parsed :=
| ReadError
| SyntaxErr
| Parsed (code : string) (lines : list string) (tree : Module_).

(** [parse_script]: a file that cannot be read raises ([ReadError]); a
    syntax error is printed and gives [None] ([SyntaxErr]). *)
Definition parse_script (filepath : string) (w : world) : parsed * world :=
  match fs w !! filepath with
  | None => (ReadError, w)
  | Some code =>
      match ast_parse code with
      | Some tree => (Parsed code (splitlines code) tree, w)
      | None =>
          (SyntaxErr,
           print (cross_mark +:+ " Syntax error in " +:+ filepath +:+ ": "
                    +:+ syntax_error_message code) w)
      end
  end.

(** ** Validation, stage 3: structure *)

(** [ast.walk]: the node and everything below it. *)
Fixpoint walk (n : node) : list node :=
  n :: match n with
       | Expr v => walk v
       | ClassDef _ _ _ ds ch
       | FunctionDef _ _ _ ds ch
       | AsyncFunctionDef _ _ _ ds ch =>
           flat_map (λ d, walk (snd d)) ds ++ flat_map walk ch
       | Other ch => flat_map walk ch
       | _ => []
       end.

(** The names one import node of the initializer adds: to the classes
    or, when the module name contains [functions], to the functions. *)
Definition add_exports (acc : gset string * gset string) (n : node)
  : gset string * gset string :=
  match n with
  | ImportFrom module names _ =>
      foldl (λ acc a,
               if String.eqb (alias_name a) "*" then acc
               else match module with
                    | Some m =>
                        if negb (String.eqb m EmptyString) && contains m "functions"
                        then (fst acc, snd acc ∪ {[alias_name a]})
                        else (fst acc ∪ {[alias_name a]}, snd acc)
                    | None => (fst acc ∪ {[alias_name a]}, snd acc)
                    end) acc names
  | Import names => (fst acc ∪ list_to_set (alias_name <$> names), snd acc)
  | _ => acc
  end.

Definition init_exports (init_tree : Module_) : gset string * gset string :=
  foldl add_exports (∅, ∅) (flat_map walk init_tree).

Record functionality_results := {
  classes_match : bool;
  functions_match : bool;
  f_errors : list string;
  f_warnings : list string;
  original_classes : list string;
  split_classes : list string;
  original_functions : list string;
  split_functions : list string;
  missing_classes : list string;
  missing_functions : list string
}.

Definition f_add_warning (msg : string) (r : functionality_results) : functionality_results :=
  {| classes_match := classes_match r; functions_match := functions_match r;
     f_errors := f_errors r; f_warnings := f_warnings r ++ [msg];
     original_classes := original_classes r; split_classes := split_classes r;
     original_functions := original_functions r; split_functions := split_functions r;
     missing_classes := missing_classes r; missing_functions := missing_functions r |}.

Definition f_fail (msg : string) (r : functionality_results) : functionality_results :=
  {| classes_match := false; functions_match := functions_match r;
     f_errors := f_errors r ++ [msg]; f_warnings := f_warnings r;
     original_classes := original_classes r; split_classes := split_classes r;
     original_functions := original_functions r; split_functions := split_functions r;
     missing_classes := missing_classes r; missing_functions := missing_functions r |}.

(** The end of the stage: the two differences and what is recorded for
    them.  [found_classes] and [found_functions] are the names seen in
    the emitted package. *)
Definition compare_names (original_class_list original_function_list : list string)
    (found_classes found_functions : gset string) (warnings0 : list string)
  : functionality_results :=
  let original_class_names : gset string := list_to_set original_class_list in
  let missing_cls := original_class_names ∖ found_classes in
  let original_function_names : gset string := list_to_set original_function_list in
  let missing_fns := original_function_names ∖ found_functions in
  let errors1 :=
    if decide (missing_cls = ∅) then []
    else ["Missing classes in split files: " +:+ join ", " (elements missing_cls)] in
  let errors2 :=
    if decide (missing_fns = ∅) then []
    else ["Missing functions in split files: " +:+ join ", " (elements missing_fns)] in
  let warnings1 :=
    if decide (size original_class_names < size found_classes)%nat
    then ["Extra classes found in split files: "
            +:+ join ", " (elements (found_classes ∖ original_class_names))]
    else [] in
  let warnings2 :=
    if decide (size original_function_names < size found_functions)%nat
    then ["Extra functions found in split files: "
            +:+ join ", " (elements (found_functions ∖ original_function_names))]
    else [] in
  {| classes_match := bool_decide (missing_cls = ∅);
     functions_match := bool_decide (missing_fns = ∅);
     f_errors := errors1 ++ errors2;
     f_warnings := warnings0 ++ warnings1 ++ warnings2;
     original_classes := original_class_list;
     split_classes := elements found_classes;
     original_functions := original_function_list;
     split_functions := elements found_functions;
     missing_classes := elements missing_cls;
     missing_functions := elements missing_fns |}.

(** The scan of one emitted file; the residual file, [main.py] and the
    initializer are left out. *)
Definition scan_file (split_folder base_name : string)
    (st : gset string * gset string * world) (file_name : string)
  : gset string * gset string * world :=
  let '(cs, fns, w) := st in
  if is_py file_name
     && negb (bool_decide (file_name ∈ ["__init__.py"; base_name +:+ ".py"; "main.py"]))
  then
    match parse_script (Path.join split_folder file_name) w with
    | (Parsed _ _ file_tree, w') =>
        let '(file_classes, file_functions) := find_top_level_defs file_tree in
        (cs ∪ list_to_set (decl_name <$> file_classes),
         fns ∪ list_to_set (decl_name <$> file_functions), w')
    | (_, w') => (cs, fns, w')
    end
  else st.

Definition empty_functionality : functionality_results :=
  {| classes_match := true; functions_match := true; f_errors := []; f_warnings := [];
     original_classes := []; split_classes := []; original_functions := [];
     split_functions := []; missing_classes := []; missing_functions := [] |}.

Definition _validate_functionality (original_file_path split_folder base_name : string)
    (w : world) : functionality_results * world :=
  match parse_script original_file_path w with
  | (ReadError, w1) =>
      (f_fail "Error during functionality validation: No such file or directory"
         empty_functionality, w1)
  | (SyntaxErr, w1) => (f_fail "Could not parse original file" empty_functionality, w1)
  | (Parsed _ _ original_tree, w1) =>
      let '(original_classes_, original_functions_) := find_top_level_defs original_tree in
      let class_list := decl_name <$> original_classes_ in
      let function_list := decl_name <$> original_functions_ in
      let '(from_init, warnings0) :=
        match fs w1 !! Path.join split_folder "__init__.py" with
        | Some init_content_ =>
            match ast_parse init_content_ with
            | Some init_tree => (init_exports init_tree, [])
            | None =>
                ((∅, ∅), ["Could not parse __init__.py: "
                            +:+ syntax_error_message init_content_])
            end
        | None => ((∅, ∅), [])
        end in
      match listdir w1 split_folder with
      | None =>
          (f_fail "Error during functionality validation: No such file or directory"
             {| classes_match := true; functions_match := true;
                f_errors := []; f_warnings := warnings0;
                original_classes := class_list; split_classes := [];
                original_functions := function_list; split_functions := [];
                missing_classes := []; missing_functions := [] |}, w1)
      | Some names =>
          let '(found_classes, found_functions, w2) :=
            foldl (scan_file split_folder base_name)
              (fst from_init, snd from_init, w1) names in
          (compare_names class_list function_list found_classes found_functions warnings0,
           w2)
      end
  end.

(** ** The validation report *)

Record validation_results := {
  success : bool;
  errors : list string;
  warnings : list string;
  import_tests : option import_results;
  syntax_tests : option syntax_results;
  functionality_tests : option functionality_results;
  summary : string
}.

(** How the three stage results make the report. *)
Definition combine_results (syntax : syntax_results) (imports : import_results)
    (functionality : functionality_results) (summary_of : bool → nat → nat → string)
  : validation_results :=
  let errors1 :=
    if all_imports_successful imports then [] else import_errors imports in
  let warnings1 :=
    if all_imports_successful imports then [] else import_warnings imports in
  let errors2 :=
    if classes_match functionality then [] else f_errors functionality in
  let all_errors := errors1 ++ errors2 in
  let has_critical_errors := negb (Nat.eqb (length all_errors) 0) in
  {| success := negb has_critical_errors;
     errors := all_errors;
     warnings := warnings1;
     import_tests := Some imports;
     syntax_tests := Some syntax;
     functionality_tests := Some functionality;
     summary := summary_of (negb has_critical_errors) (length all_errors) (length warnings1) |}.

(** The text of the summary line, from success and the two counts. *)
Variable summary_of : bool → nat → nat → string.

(** [None]: an exception that is no [Exception] left the import stage. *)
Definition validate_split_files (output_dir base_name original_file_path : string)
    (w : world) : option validation_results * world :=
  let split_folder := Path.join output_dir base_name in
  let syntax := _validate_syntax w split_folder in
  if negb (all_valid syntax) then
    (Some {| success := false; errors := syntax_errors syntax; warnings := [];
             import_tests := None; syntax_tests := Some syntax;
             functionality_tests := None; summary := EmptyString |}, w)
  else
    match _validate_imports split_folder base_name w with
    | (None, w1) => (None, w1)
    | (Some imports, w1) =>
        let '(functionality, w2) :=
          _validate_functionality original_file_path split_folder base_name w1 in
        (Some (combine_results syntax imports functionality summary_of), w2)
    end.

(** ** The split operation *)

(** [json.load] on the text of a config file: the message of the
    [JSONDecodeError] it raises, or the value it gives - JSON [null], or
    the config as the program reads it: [None] for a value that Python
    takes as false (the empty dict), the groups otherwise.  A value that
    Python takes as true and that is no dict of groups as above makes the
    program raise where it first reads it; such a config file is not
    modelled. *)
Variable json_load : string → json_result.

(** The code formatter of the host, as [import black] finds it: [None]
    when the import raises [ImportError]. *)
Variable black : option black_package.

(** What formatting leaves of a text. *)
Definition format_text (text : string) : string :=
  match black with
  | Some b =>
      match format_file_in_place b text with
      | inl formatted => formatted
      | inr _ => text
      end
  | None => text
  end.

Definition format_code (path : string) (w : world) : world :=
  match black with
  | None => print (warning_sign +:+ " Black not found. Skipping code formatting.") w
  | Some b =>
      let w1 := with_sys_modules (λ registry, registry ∪ black_modules b) w in
      match fs w1 !! path with
      | Some text =>
          match format_file_in_place b text with
          | inl formatted => write_file path formatted w1
          | inr msg => print ("An error occurred during code formatting: " +:+ msg) w1
          end
      | None =>
          print ("An error occurred during code formatting: "
                   +:+ "[Errno 2] No such file or directory: "
                   +:+ String SQ path +:+ String SQ EmptyString) w1
      end
  end.

(** How [parse_config] ends: an exception leaves it, it returns [None],
    or it returns the config. *)
Inductive config_outcome :=
| ConfigRaised
| ConfigNone
| ConfigLoaded (config : option config_modules).

(** Of the errors of opening and decoding the file, [FileNotFoundError]
    and [JSONDecodeError] are caught, printed and answered with [None];
    every other one leaves the function.  JSON [null] is returned as it
    is: [None], and nothing is printed. *)
Definition parse_config (config_path : string) (w : world) : config_outcome * world :=
  match open_read w config_path with
  | inl text =>
      match json_load text with
      | JsonConfig config => (ConfigLoaded config, w)
      | JsonNull => (ConfigNone, w)
      | JsonError msg =>
          (ConfigNone,
           print (cross_mark +:+ " Error parsing config file " +:+ config_path
                    +:+ ": " +:+ msg) w)
      end
  | inr FileNotFoundError =>
      (ConfigNone,
       print (cross_mark +:+ " Error parsing config file " +:+ config_path
                +:+ ": [Errno 2] No such file or directory: "
                +:+ String SQ config_path +:+ String SQ EmptyString) w)
  | inr _ => (ConfigRaised, w)
  end.

Definition emit (folder : string) (w : world) (u : unit_file) : world :=
  let path := Path.join folder (unit_name u +:+ ".py") in
  format_code path (write_file path (unit_content u) w).

(** Everything one run decides before it writes: the parsed source taken
    apart. *)
Record plan := {
  p_base : string;
  p_residual : string;
  p_units : list unit_file;
  p_main : option unit_file;
  p_init : string;
  p_interface : string
}.

Definition make_plan (code_path : string) (config : option config_modules)
    (code : string) (lines : list string) (tree : Module_) : plan :=
  let imports := get_imports tree in
  let '(classes_, functions_) := find_top_level_defs tree in
  let occupied := get_occupied_lines (classes_ ++ functions_) in
  let top_level := free_lines lines occupied in
  let class_names := decl_name <$> classes_ in
  let function_names := decl_name <$> functions_ in
  let '(class_used, func_used, top_used_cls, top_used_fn) :=
    analyze_dependencies tree class_names function_names in
  let base := Path.splitext_root (Path.basename code_path) in
  {| p_base := base;
     p_residual := create_shrunk_original ast_parse code lines imports classes_ functions_
                     config class_names function_names;
     p_units := partition_units lines imports classes_ functions_ config
                  class_names function_names class_used func_used;
     p_main := main_unit imports top_level top_used_cls top_used_fn;
     p_init := init_content config class_names function_names;
     p_interface := create_interface_file base class_names function_names config |}.

(** The files of a plan, written in the order of the program. *)
Definition write_plan (code_path output_dir : string) (p : plan) (w : world) : world :=
  let backup_path := code_path +:+ ".backup" in
  let w1 :=
    if exists_ w backup_path then w
    else match fs w !! code_path with
         | Some original => write_file backup_path original w
         | None => w
         end in
  let folder := Path.join output_dir (p_base p) in
  let w2 := with_dirs (λ ds, {[folder]} ∪ ds) w1 in
  let w3 := emit folder w2
              {| unit_name := p_base p; unit_members := []; unit_content := p_residual p |} in
  let w4 := foldl (emit folder) w3 (p_units p) in
  let w5 := foldl (emit folder) w4 (option_list (p_main p)) in
  let w6 := emit folder w5
              {| unit_name := "__init__"; unit_members := []; unit_content := p_init p |} in
  emit output_dir w6
    {| unit_name := p_base p; unit_members := []; unit_content := p_interface p |}.

(** How a call of [write_split_files] ends: it returns [None] when it
    gives up, the verdict of the validation otherwise, or an exception
    leaves it. *)
Inductive outcome :=
| Returned (verdict : option bool)
| Raised.

Definition write_split_files (code_path output_dir : string) (config_path : option string)
    (w : world) : outcome * world :=
  let '(config_result, w0) :=
    match config_path with
    | Some path =>
        if String.eqb path EmptyString then (ConfigLoaded None, w)
        else parse_config path w
    | None => (ConfigLoaded None, w)
    end in
  match config_result with
  | ConfigRaised => (Raised, w0)
  | ConfigNone => (Returned None, w0)
  | ConfigLoaded config =>
      match parse_script code_path w0 with
      | (ReadError, w1) => (Raised, w1)
      | (SyntaxErr, w1) => (Returned None, w1)
      | (Parsed code lines tree, w1) =>
          let p := make_plan code_path config code lines tree in
          let w2 := write_plan code_path output_dir p w1 in
          match validate_split_files output_dir (p_base p) code_path w2 with
          | (Some report, w3) => (Returned (Some (success report)), w3)
          | (None, w3) => (Raised, w3)
          end
      end
  end.

End Validation.

(** * The documentation generator and the command line *)

(** ** [docgen.py] *)

Module Docgen.

(** One entry of the documentation: [(kind, name, doc)]. *)
Definition doc_entry : Type := string * string * string.

Section Docgen.

(** [ast.get_docstring] of the host library: the cleaned docstring of a
    class or function node, [None] when its body does not start with a
    string. *)
Variable get_docstring : node → option string.

Variable ast_parse : string → option Module_.

(** [ast.get_docstring(node) or "No docstring."]: the empty docstring is
    false for [or]. *)
Definition docstring_or_default (n : node) : string :=
  match get_docstring n with
  | Some doc => if String.eqb doc EmptyString then "No docstring." else doc
  | None => "No docstring."
  end.

(** The entry of one statement of a class body, when it is a function. *)
Definition method_entry (class_name : string) (sub : node) : option doc_entry :=
  match sub with
  | FunctionDef name _ _ _ _ =>
      Some ("Method", class_name +:+ "." +:+ name, docstring_or_default sub)
  | _ => None
  end.

(** The entries of one statement of the module. *)
Definition statement_entries (n : node) : list doc_entry :=
  match n with
  | ClassDef name _ _ _ ch =>
      ("Class", name, docstring_or_default n) :: omap (method_entry name) ch
  | FunctionDef name _ _ _ _ => [("Function", name, docstring_or_default n)]
  | _ => []
  end.

Definition extract_docstrings (tree : Module_) : list doc_entry :=
  flat_map statement_entries tree.

(** What is written for one entry. *)
Definition entry_text (e : doc_entry) : string :=
  "## " +:+ e.1.1 +:+ ": `" +:+ e.1.2 +:+ "`" +:+ nl +:+ nl +:+ e.2 +:+ nl +:+ nl.

(** The text of [DOCS.md]. *)
Definition docs_text (base : string) (entries : list doc_entry) : string :=
  "# Documentation for `" +:+ base +:+ "`" +:+ nl +:+ nl
  +:+ String.concat EmptyString (entry_text <$> entries).

(** [generate_doc]: an exception leaves it when the input cannot be read
    or does not parse, and when [DOCS.md] cannot be opened for writing
    because its folder is no directory or its path is one. *)
Definition generate_doc (input_file output_dir : string) (w : world) : outcome * world :=
  let base := Path.splitext_root (Path.basename input_file) in
  let folder := Path.join output_dir base in
  let docs_md := Path.join folder "DOCS.md" in
  match fs w !! input_file with
  | None => (Raised, w)
  | Some code =>
      match ast_parse code with
      | None => (Raised, w)
      | Some tree =>
          if bool_decide (folder ∈ dirs w) && negb (bool_decide (docs_md ∈ dirs w))
          then (Returned None,
                print (page_mark +:+ " DOCS.md written to " +:+ folder)
                  (write_file docs_md (docs_text base (extract_docstrings tree)) w))
          else (Raised, w)
      end
  end.

End Docgen.

End Docgen.

(** ** [cli.py] *)

Module Cli.

(** The arguments as [argparse] hands them over. *)
Record args := {
  input : string;
  output : string;
  doc : bool;
  config : option string
}.

(** [s.strip(c)] for one character [c]. *)
Fixpoint lstrip_char (c : ascii) (s : string) : string :=
  match s with
  | EmptyString => EmptyString
  | String a s' => if Ascii.eqb a c then lstrip_char c s' else s
  end.

Definition strip_char (c : ascii) (s : string) : string :=
  String.rev (lstrip_char c (String.rev (lstrip_char c s))).

(** [os.path.isfile(path)] *)
Definition isfile (w : world) (path : string) : bool :=
  bool_decide (is_Some (fs w !! path)).

(** [os.makedirs(path, exist_ok=True)]: [None] when it raises, for the
    empty path and for the path of a regular file.  The directories above
    [path] are made too; [dirs] keeps the one the program goes on to use. *)
Definition makedirs (path : string) (w : world) : option world :=
  if String.eqb path EmptyString || isfile w path then None
  else Some (with_dirs (λ ds, {[path]} ∪ ds) w).

Section Cli.

Variable ast_parse : string → option Module_.
Variable syntax_error_message : string → string.
Variable spec_from_file_location : string → string → bool.
Variable exec_module : string → string → world → world * load_result.
Variable mkdtemp : world → string.
Variable summary_of : bool → nat → nat → string.
Variable json_load : string → json_result.
Variable black : option black_package.
Variable get_docstring : node → option string.

(** [main] after [parse_args]. *)
Definition main (a : args) (w : world) : outcome * world :=
  let input_path := strip_char DQ (input a) in
  if negb (isfile w input_path)
  then (Returned None, print ("Input not found: " +:+ input_path) w)
  else
    match makedirs (output a) w with
    | None => (Raised, w)
    | Some w1 =>
        match write_split_files ast_parse syntax_error_message spec_from_file_location
                exec_module mkdtemp summary_of json_load black
                input_path (output a) (config a) w1 with
        | (Raised, w2) => (Raised, w2)
        | (Returned validation_success, w2) =>
            let w3 :=
              if default false validation_success
              then print (nl +:+ check_mark +:+ " Splitting complete and validated! Files in "
                            +:+ output a) w2
              else print "Check the validation output above for details."
                     (print (nl +:+ warning_sign
                               +:+ " Splitting complete but validation found issues. Files in "
                               +:+ output a) w2) in
            if doc a
            then Docgen.generate_doc get_docstring ast_parse input_path (output a) w3
            else (Returned None, w3)
        end
    end.

End Cli.

End Cli.

(** * Vocabulary of the further properties *)

(** An import node of the initializer counts for the functions when its
    module name is not empty and contains [functions]. *)
Definition to_functions (module : option string) : bool :=
  match module with
  | Some m => negb (String.eqb m EmptyString) && contains m "functions"
  | None => false
  end.

(** The node [s] brings the name [n] in as a class, or as a function. *)
Definition exports_as_class (n : string) (s : node) : Prop :=
  match s with
  | Import names => n ∈ alias_name <$> names
  | ImportFrom module names _ =>
      n ∈ alias_name <$> names ∧ n ≠ "*" ∧ to_functions module = false
  | _ => False
  end.

Definition exports_as_function (n : string) (s : node) : Prop :=
  match s with
  | ImportFrom module names _ =>
      n ∈ alias_name <$> names ∧ n ≠ "*" ∧ to_functions module = true
  | _ => False
  end.

(** The file [f] of the package folder is one the structural stage scans,
    it parses, and [n] is the name of one of the declarations that [pick]
    takes from it. *)
Definition declared_by (ast_parse : string → option Module_)
    (pick : list decl * list decl → list decl) (w : world)
    (split_folder base_name f n : string) : Prop :=
  is_py f = true
  ∧ (f ∉ ["__init__.py"; base_name +:+ ".py"; "main.py"])
  ∧ ∃ code tree, fs w !! Path.join split_folder f = Some code
                 ∧ ast_parse code = Some tree
                 ∧ n ∈ decl_name <$> pick (find_top_level_defs tree).

(** The files that the write phase writes after the backup, in its order:
    the residual file, the partition units, the main unit, the initializer
    and the interface file, each with its path and the text it is given. *)
Definition planned_writes (output_dir : string) (p : plan) : list (string * string) :=
  let folder := Path.join output_dir (p_base p) in
  [(Path.join folder (p_base p +:+ ".py"), p_residual p)]
  ++ ((λ u, (Path.join folder (unit_name u +:+ ".py"), unit_content u))
        <$> (p_units p ++ option_list (p_main p)))
  ++ [(Path.join folder "__init__.py", p_init p);
      (Path.join output_dir (p_base p +:+ ".py"), p_interface p)].

(** The text that is written last to [path]. *)
Definition last_write (path : string) (writes : list (string * string)) : option string :=
  foldl (λ last pt, if decide (pt.1 = path) then Some pt.2 else last) None writes.

(** A text whose only line boundary is the line feed: wherever a line
    boundary of [str.splitlines] starts in it - of one byte or of several -
    it is a line feed. *)
Fixpoint lf_only (s : string) : bool :=
  match s with
  | EmptyString => true
  | String a s' => (Nat.eqb (break_width s) 0 || Ascii.eqb a NL) && lf_only s'
  end.

(** * Vocabulary of the specification *)

(** The lines [start..end_] of a file, counted from 1. *)
Definition source_lines (lines : list string) (start end_ : Z) : list string :=
  take (Z.to_nat (end_ - start + 1)) (drop (Z.to_nat (start - 1)) lines).

(** The line numbers of a declaration are those [ast] gives: when it has an
    end line, its first line is line 1 or a later one and not after the end
    line. *)
Definition span_ok (d : decl) : Prop :=
  ∀ end_, decl_end d = Some end_ → 1 ≤ decl_start d ∧ decl_start d ≤ end_.

(** The text of a declaration in the source: its lines, from the first to
    the end line, with a line feed between them. *)
Definition declaration_text (lines : list string) (d : decl) : string :=
  match decl_end d with
  | Some end_ => join nl (source_lines lines (decl_start d) end_)
  | None => EmptyString
  end.

(** The texts of declarations one after the other, an empty line after
    each. *)
Definition declaration_block (lines : list string) (ds : list decl) : string :=
  String.concat EmptyString ((λ d, declaration_text lines d +:+ nl +:+ nl) <$> ds).

(** Lines, a line feed after each. *)
Definition line_block (ls : list string) : string :=
  String.concat EmptyString ((λ l, l +:+ nl) <$> ls).

(** The text of a unit file that is written from the declarations [ds] and
    from nothing else of the source but its import block: the unit of a
    group, the unit of a class, the shared unit of the functions.  The latter
    two have import lines of their own, all of them relative imports. *)
Inductive written_from (lines imports : list string) : string → list decl → Prop :=
| written_group ds :
    written_from lines imports
      (join nl imports +:+ nl +:+ declaration_block lines ds) ds
| written_class synthesized d :
    Forall (λ l, startswith l "from ." = true) synthesized →
    written_from lines imports
      (join nl imports +:+ nl +:+ line_block synthesized
         +:+ nl +:+ declaration_text lines d) [d]
| written_functions synthesized ds :
    Forall (λ l, startswith l "from ." = true) synthesized →
    written_from lines imports
      (join nl imports +:+ nl +:+ line_block synthesized
         +:+ nl +:+ declaration_block lines ds) ds.

(** A text that starts with a character of ASCII that is no whitespace. *)
Definition starts_plain (t : string) : bool :=
  match t with
  | String c _ => negb (isspace c) && (Ascii.nat_of_ascii c <? 128)%nat
  | EmptyString => false
  end.

(** A text that the residual file keeps as it is: it starts and ends with a
    character of ASCII that is no whitespace, and no two empty lines follow
    one another in it. *)
Definition kept_verbatim (t : string) : Prop :=
  starts_plain t = true
  ∧ starts_plain (String.rev t) = true
  ∧ contains t (nl +:+ nl +:+ nl) = false.

(** The declaration that a pair [(name, (start, end))] stands for. *)
Definition span_decl (p : string * (Z * Z)) : decl := (p.1, p.2.1, Some p.2.2).

(** A line that holds an import reaching above the package: after its
    indentation it begins with [from ..]. *)
Definition parent_relative_import (line : string) : bool :=
  startswith (strip line) "from ..".

(** A line that holds an absolute import: after its indentation it begins
    with [import] or [from] and a name that does not start with a dot. *)
Definition absolute_import (line : string) : bool :=
  let s := strip line in
  (startswith s "import " && negb (startswith s "import ."))
  || (startswith s "from " && negb (startswith s "from .")).



(** The line of the sandbox copy for a line of an emitted file: the line
    between [# ] and a remark when, without the whitespace around it, it
    starts with [from ..] or [import ..] or holds [from ..core] or
    [from ..models]; the line itself otherwise. *)
Definition sandbox_line (line : string) : string :=
  let stripped := strip line in
  if startswith stripped "from .." || startswith stripped "import .."
     || contains stripped "from ..core" || contains stripped "from ..models"
  then "# " +:+ line +:+ "  # Commented out for validation"
  else line.


(** Every name is listed by the groups of one unit at most. *)
Definition one_group_per_name (ms : config_modules) : Prop :=
  ∀ m1 m2 n, m1 ∈ ms → m2 ∈ ms →
    n ∈ classes (snd m1) ++ functions (snd m1) →
    n ∈ classes (snd m2) ++ functions (snd m2) →
    fst m1 = fst m2.

(** A config names [n] when some group lists it, as a class or as a
    function. *)
Definition config_names (ms : config_modules) (n : string) : Prop :=
  ∃ m, m ∈ ms ∧ (n ∈ classes (snd m) ∨ n ∈ functions (snd m)).

(** The name [x] is read somewhere below a node. *)
Inductive reads (x : string) : node → Prop :=
| reads_Name : reads x (Name x Load)
| reads_Expr v : reads x v → reads x (Expr v)
| reads_ClassDef_decorator name lineno end_lineno ds ch d :
    d ∈ ds → reads x (snd d) → reads x (ClassDef name lineno end_lineno ds ch)
| reads_ClassDef_child name lineno end_lineno ds ch c :
    c ∈ ch → reads x c → reads x (ClassDef name lineno end_lineno ds ch)
| reads_FunctionDef_decorator name lineno end_lineno ds ch d :
    d ∈ ds → reads x (snd d) → reads x (FunctionDef name lineno end_lineno ds ch)
| reads_FunctionDef_child name lineno end_lineno ds ch c :
    c ∈ ch → reads x c → reads x (FunctionDef name lineno end_lineno ds ch)
| reads_AsyncFunctionDef_decorator name lineno end_lineno ds ch d :
    d ∈ ds → reads x (snd d) → reads x (AsyncFunctionDef name lineno end_lineno ds ch)
| reads_AsyncFunctionDef_child name lineno end_lineno ds ch c :
    c ∈ ch → reads x c → reads x (AsyncFunctionDef name lineno end_lineno ds ch)
| reads_Other ch c : c ∈ ch → reads x c → reads x (Other ch).

(** * A concrete runtime and concrete inputs

    Small sources with the syntax trees [ast.parse] gives for them, and a
    loader that does what running the import statements of a file does to
    the module registry. *)

Module Demo.

Definition plain (n : string) : alias := {| alias_name := n; alias_asname := None |}.

(** [pass] is a node without children; every [def] has an [arguments]
    node before its body. *)
Definition Pass : node := Other [].
Definition arguments : node := Other [].

(** A class and a function of the same name. *)
Definition same_name_src : string :=
  join nl ["class A:"; "    pass"; "def A():"; "    pass"] +:+ nl.
Definition same_name_tree : Module_ :=
  [ClassDef "A" 1 (Some 2) [] [Pass];
   FunctionDef "A" 3 (Some 4) [] [arguments; Pass]].

(** Two classes; the config below names only the first. *)
Definition two_classes_src : string :=
  join nl ["class A:"; "    pass"; "class C:"; "    pass"] +:+ nl.
Definition two_classes_tree : Module_ :=
  [ClassDef "A" 1 (Some 2) [] [Pass];
   ClassDef "C" 3 (Some 4) [] [Pass]].
Definition core_A : config_modules :=
  [("core", {| classes := ["A"]; functions := [] |})].

(** A module docstring and one class. *)
Definition doc_class_src : string :=
  join nl [triple_dq +:+ "Doc" +:+ triple_dq; "class A:"; "    pass"] +:+ nl.
Definition doc_class_tree : Module_ :=
  [Expr (Constant (CStr "Doc"));
   ClassDef "A" 2 (Some 3) [] [Pass]].

(** One coroutine function; the config below lists it as a function. *)
Definition async_src : string :=
  join nl ["async def fetch():"; "    pass"] +:+ nl.
Definition async_tree : Module_ :=
  [AsyncFunctionDef "fetch" 1 (Some 2) [] [arguments; Pass]].
Definition core_fetch : config_modules :=
  [("core", {| classes := []; functions := ["fetch"] |})].

(** Class [A] has base [B] and calls [f] in its body. *)
Definition uses_src : string :=
  join nl ["class B:"; "    pass"; "def f():"; "    pass";
           "class A(B):"; "    x = f()"] +:+ nl.
Definition uses_tree : Module_ :=
  [ClassDef "B" 1 (Some 2) [] [Pass];
   FunctionDef "f" 3 (Some 4) [] [arguments; Pass];
   ClassDef "A" 5 (Some 6) []
     [Name "B" Load; Other [Name "x" Store; Other [Name "f" Load]]]].

(** Two classes [A] and [B], for the structural stage. *)
Definition a_b_src : string :=
  join nl ["class A:"; "    pass"; "class B:"; "    pass"] +:+ nl.
Definition a_b_tree : Module_ :=
  [ClassDef "A" 1 (Some 2) [] [Pass];
   ClassDef "B" 3 (Some 4) [] [Pass]].

(** Two classes of one name: the first has the base [B], the second has
    none. *)
Definition twice_src : string :=
  join nl ["class B:"; "    pass"; "class A(B):"; "    pass";
           "class A:"; "    pass"] +:+ nl.
Definition twice_tree : Module_ :=
  [ClassDef "B" 1 (Some 2) [] [Pass];
   ClassDef "A" 3 (Some 4) [] [Name "B" Load; Pass];
   ClassDef "A" 5 (Some 6) [] [Pass]].

(** Files of an emitted package. *)
Definition unit_A_src : string := join nl ["class A:"; "    pass"].
Definition unit_A_tree : Module_ := [ClassDef "A" 1 (Some 2) [] [Pass]].
Definition unit_C_src : string := join nl ["class C:"; "    pass"].
Definition unit_C_tree : Module_ := [ClassDef "C" 1 (Some 2) [] [Pass]].
Definition init_A_C_src : string :=
  join nl ["from .A import A"; "from .C import C"] +:+ nl.
Definition init_A_C_tree : Module_ :=
  [ImportFrom (Some "A") [plain "A"] 1;
   ImportFrom (Some "C") [plain "C"] 1].
Definition init_A_src : string := "from .A import A" +:+ nl.
Definition init_A_tree : Module_ := [ImportFrom (Some "A") [plain "A"] 1].
Definition csv_unit_A_src : string :=
  join nl ["import csv"; EmptyString; "class A:"; "    pass"].
Definition csv_unit_A_tree : Module_ :=
  [Import [plain "csv"]; ClassDef "A" 3 (Some 4) [] [Pass]].

(** A text that is no Python. *)
Definition broken_src : string := "class :".

Definition sources : list (string * Module_) :=
  [(same_name_src, same_name_tree);
   (two_classes_src, two_classes_tree);
   (doc_class_src, doc_class_tree);
   (async_src, async_tree);
   (uses_src, uses_tree);
   (a_b_src, a_b_tree);
   (unit_A_src, unit_A_tree);
   (unit_C_src, unit_C_tree);
   (init_A_C_src, init_A_C_tree);
   (init_A_src, init_A_tree);
   (csv_unit_A_src, csv_unit_A_tree);
   (twice_src, twice_tree)].

Fixpoint lookup_source (table : list (string * Module_)) (code : string)
  : option Module_ :=
  match table with
  | [] => None
  | (text, tree) :: rest =>
      if String.eqb text code then Some tree else lookup_source rest code
  end.

(** The parser knows the sources above; any other text is a syntax error. *)
Definition ast_parse (code : string) : option Module_ := lookup_source sources code.

Definition syntax_error_message (code : string) : string := "invalid syntax".

Definition spec_from_file_location (name path : string) : bool := true.

(** The modules that are installed besides the package. *)
Definition installed : list string := ["csv"; "sys"].

(** Running one line of a file: [import X] registers [X] when it is
    installed and not registered yet, and raises [ImportError] when it is
    not installed; the one statement the loader knows besides puts [lib]
    on the search path. *)
Definition run_line (st : world * load_result) (line : string) : world * load_result :=
  match snd st with
  | Loaded =>
      if startswith line "import " then
        let m := str_drop 7 line in
        if bool_decide (m ∈ installed)
        then (with_sys_modules (λ registry, registry ∪ {[ m := "site-packages" ]}) (fst st),
              Loaded)
        else (fst st,
              RaisedImportError ("No module named " +:+ String SQ m +:+ String SQ EmptyString))
      else if String.eqb line "sys.path.insert(0, 'lib')"
      then (with_sys_path (cons "lib") (fst st), Loaded)
      else st
  | _ => st
  end.

Definition exec_module (name path : string) (w : world) : world * load_result :=
  match fs w !! path with
  | Some text => foldl run_line (w, Loaded) (split NL text)
  | None => (w, RaisedException "No such file or directory")
  end.

Definition mkdtemp (w : world) : string := "/tmp/tmpsplit".

Definition summary_of (ok : bool) (error_count warning_count : nat) : string :=
  if ok then "All validation tests passed" else "Validation failed".

Definition json_load (text : string) : json_result :=
  if String.eqb text "core A" then JsonConfig (Some core_A)
  else if String.eqb text "core fetch" then JsonConfig (Some core_fetch)
  else if String.eqb text "null" then JsonNull
  else JsonError "Expecting value: line 1 column 1 (char 0)".

(** A formatter that finds every text well formatted. *)
Definition black : option black_package :=
  Some {| black_modules := {[ "black" := "site-packages/black/__init__.py" ]};
          format_file_in_place := inl |}.

Definition write_split_files :=
  write_split_files ast_parse syntax_error_message spec_from_file_location
    exec_module mkdtemp summary_of json_load black.

Definition _validate_imports :=
  _validate_imports spec_from_file_location exec_module mkdtemp.

Definition _validate_functionality :=
  _validate_functionality ast_parse syntax_error_message.

Definition make_plan := make_plan ast_parse.

(** An emitted package [out/m] whose unit imports [csv]. *)
Definition package_world (registry : gmap string string) : world :=
  {| fs := {[ "out/m/__init__.py" := init_A_src; "out/m/A.py" := csv_unit_A_src ]};
     dirs := {[ "out"; "out/m" ]};
     sys_path := ["/usr/lib/python3"];
     sys_modules := registry;
     stdout := [] |}.


(** A package whose initializer imports a module that is not installed. *)
Definition lost_init_src : string := "import nowhere" +:+ nl.
Definition lost_world : world :=
  {| fs := {[ "out/m/__init__.py" := lost_init_src ]};
     dirs := {[ "out"; "out/m" ]};
     sys_path := ["/usr/lib/python3"];
     sys_modules := ∅;
     stdout := [] |}.

(** A source that is no Python beside a config file that holds [null]. *)
Definition null_config_world : world :=
  {| fs := {[ "in/m.py" := broken_src; "in/groups.json" := "null" ]};
     dirs := {[ "in"; "out" ]};
     sys_path := [];
     sys_modules := ∅;
     stdout := [] |}.

(** The original with classes [A] and [B]; the package holds [A] and a
    class [C] that the original does not have. *)
Definition stale_world : world :=
  {| fs := {[ "in/m.py" := a_b_src;
              "out/m/__init__.py" := init_A_C_src;
              "out/m/A.py" := unit_A_src;
              "out/m/C.py" := unit_C_src ]};
     dirs := {[ "in"; "out"; "out/m" ]};
     sys_path := [];
     sys_modules := ∅;
     stdout := [] |}.

Definition source_world (path text : string) : world :=
  {| fs := {[ path := text ]};
     dirs := {[ "in"; "out" ]};
     sys_path := [];
     sys_modules := ∅;
     stdout := [] |}.



End Demo.

(** * Properties *)

(** ** Facts about strings *)

Local Arguments ascii_dec : simpl never.

Section StringFacts.

Lemma length_append (s t : string) :
  String.length (s +:+ t) = (String.length s + String.length t)%nat.
Proof. induction s as [|a s IH]; simpl; [done | by rewrite IH]. Qed.

Lemma append_cons (a : ascii) (s t : string) :
  String a s +:+ t = String a (s +:+ t).
Proof. reflexivity. Qed.

Lemma append_assoc (s t u : string) : (s +:+ t) +:+ u = s +:+ t +:+ u.
Proof. induction s as [|a s IH]; [done|]. rewrite !append_cons. by f_equal. Qed.

Lemma append_nil_r (s : string) : s +:+ EmptyString = s.
Proof. induction s as [|a s IH]; [done|]. rewrite append_cons. by f_equal. Qed.

Lemma prefix_refl (s : string) : String.prefix s s = true.
Proof. induction s as [|a s IH]; simpl; [done|]. by destruct (ascii_dec a a). Qed.

Lemma prefix_append (s t : string) : String.prefix s (s +:+ t) = true.
Proof.
  induction s as [|a s IH]; simpl; [by destruct t|]. by destruct (ascii_dec a a).
Qed.

Lemma prefix_trans (s t u : string) :
  String.prefix s t = true → String.prefix t u = true → String.prefix s u = true.
Proof.
  revert t u. induction s as [|a s IH]; intros t u Hst Htu; [by destruct u|].
  destruct t as [|b t]; [done|]. destruct u as [|c u]; [done|]. simpl in *.
  destruct (ascii_dec a b) as [->|]; [|done].
  destruct (ascii_dec b c) as [->|]; [|done]. eauto.
Qed.

Lemma prefix_head_ne (a b : ascii) (s t : string) :
  a ≠ b → String.prefix (String a s) (String b t) = false.
Proof. intros Hne. simpl. by destruct (ascii_dec a b). Qed.

Lemma split_nonempty c s : split c s ≠ [].
Proof.
  destruct s as [|a s]; simpl; [done|].
  destruct (Ascii.eqb a c); [done|]. by destruct (split c s).
Qed.

Lemma join_cons sep p ps :
  ps ≠ [] → join sep (p :: ps) = p +:+ sep +:+ join sep ps.
Proof. by destruct ps. Qed.

(** Splitting at line feeds and joining with line feeds gives the text
    back. *)
Lemma join_split (s : string) : join nl (split NL s) = s.
Proof.
  induction s as [|a s IH]; [done|]. simpl.
  destruct (Ascii.eqb a NL) eqn:Ha.
  - apply Ascii.eqb_eq in Ha as ->.
    rewrite join_cons by apply split_nonempty. simpl. by rewrite IH.
  - pose proof (split_nonempty NL s) as Hne.
    destruct (split NL s) as [|p ps]; [done|].
    destruct ps as [|q ps]; simpl in *; by rewrite <- IH.
Qed.

End StringFacts.

(** ** The loop over runs of empty lines *)

Lemma prefix_length (p s : string) :
  String.prefix p s = true → (String.length p ≤ String.length s)%nat.
Proof.
  revert s. induction p as [|a p IH]; intros s Hp; simpl; [lia|].
  destruct s as [|b s]; simpl in Hp; [discriminate|].
  destruct (ascii_dec a b); [|discriminate].
  apply IH in Hp. simpl. lia.
Qed.

Lemma replace_go_length (old new : string) (skip : nat) (s : string) :
  (1 ≤ String.length old)%nat →
  (String.length new ≤ String.length old)%nat →
  (skip ≤ String.length s)%nat →
  (String.length (replace_go old new skip s) + skip ≤ String.length s)%nat.
Proof.
  intros Hold Hnew. revert skip.
  induction s as [|a s IH]; intros skip Hskip; cbn [replace_go String.length] in *; [lia|].
  destruct skip as [|k].
  - destruct (String.prefix old (String a s)) eqn:Hp.
    + apply prefix_length in Hp. cbn [String.length] in Hp.
      rewrite length_append.
      specialize (IH (Nat.pred (String.length old))). lia.
    + cbn [String.length]. specialize (IH O). lia.
  - specialize (IH k). lia.
Qed.

Lemma replace_shortens (old new s : string) :
  (String.length new < String.length old)%nat →
  contains s old = true →
  (String.length (replace s old new) < String.length s)%nat.
Proof.
  intros Hnew. unfold replace.
  induction s as [|a s IH]; intros Hc.
  - destruct old; [simpl in Hnew; lia|discriminate Hc].
  - cbn [contains] in Hc. cbn [replace_go].
    destruct (String.prefix old (String a s)) eqn:Hp.
    + pose proof (prefix_length _ _ Hp) as Hlen. cbn [String.length] in Hlen.
      rewrite length_append.
      pose proof (replace_go_length old new (Nat.pred (String.length old)) s) as Hgo.
      cbn [String.length]. lia.
    + cbn [orb] in Hc. apply IH in Hc. cbn [String.length]. lia.
Qed.

Lemma collapse_round_shortens (result : string) :
  contains result (nl +:+ nl +:+ nl) = true →
  (String.length (replace result (nl +:+ nl +:+ nl) (nl +:+ nl))
   < String.length result)%nat.
Proof. apply replace_shortens. vm_compute. lia. Qed.

(** The bound on the rounds is enough: more rounds change nothing. *)
Lemma collapse_go_enough (fuel : nat) (result : string) :
  (String.length result ≤ fuel)%nat →
  collapse_go fuel result = collapse_blank_lines result.
Proof.
  unfold collapse_blank_lines.
  remember (String.length result) as n eqn:Hn.
  revert fuel result Hn.
  induction n as [n IH] using lt_wf_ind; intros fuel result Hn Hfuel.
  destruct fuel as [|k].
  - assert (n = O) by lia. subst n. by replace (String.length result) with O by lia.
  - destruct n as [|m].
    + destruct result; [reflexivity|discriminate Hn].
    + cbn [collapse_go].
      destruct (contains result (nl +:+ nl +:+ nl)) eqn:Hc; [|reflexivity].
      pose proof (collapse_round_shortens result Hc) as Hlt.
      set (shorter := replace result (nl +:+ nl +:+ nl) (nl +:+ nl)) in *.
      assert (Hm : (String.length shorter < S m)%nat) by lia.
      rewrite (IH _ Hm k shorter eq_refl) by lia.
      rewrite (IH _ Hm m shorter eq_refl) by lia.
      reflexivity.
Qed.

(** [collapse_blank_lines] is the [while] loop: it goes round while three
    line feeds in a row are found, and what it returns has none. *)
Lemma collapse_blank_lines_loop (result : string) :
  collapse_blank_lines result
  = if contains result (nl +:+ nl +:+ nl)
    then collapse_blank_lines (replace result (nl +:+ nl +:+ nl) (nl +:+ nl))
    else result.
Proof.
  unfold collapse_blank_lines at 1.
  destruct result as [|a s]; [reflexivity|].
  cbn [String.length collapse_go].
  destruct (contains (String a s) (nl +:+ nl +:+ nl)) eqn:Hc; [|reflexivity].
  apply collapse_go_enough.
  pose proof (collapse_round_shortens (String a s) Hc) as Hlt.
  cbn [String.length] in Hlt. lia.
Qed.

Lemma collapse_blank_lines_done (result : string) :
  contains (collapse_blank_lines result) (nl +:+ nl +:+ nl) = false.
Proof.
  remember (String.length result) as n eqn:Hn. revert result Hn.
  induction n as [n IH] using lt_wf_ind; intros result Hn.
  rewrite collapse_blank_lines_loop.
  destruct (contains result (nl +:+ nl +:+ nl)) eqn:Hc; [|exact Hc].
  pose proof (collapse_round_shortens result Hc) as Hlt.
  eapply IH; [|reflexivity]. lia.
Qed.

(** ** More facts about strings *)

Lemma rev_app_spec (s t : string) : String.rev_app s t = String.rev s +:+ t.
Proof.
  revert t. induction s as [|a s IH]; intros t; [done|].
  unfold String.rev. simpl. rewrite IH, (IH (String a EmptyString)).
  by rewrite append_assoc.
Qed.

Lemma rev_cons (a : ascii) (s : string) :
  String.rev (String a s) = String.rev s +:+ String a EmptyString.
Proof. unfold String.rev at 1. simpl. apply rev_app_spec. Qed.

Lemma rev_append (s t : string) :
  String.rev (s +:+ t) = String.rev t +:+ String.rev s.
Proof.
  induction s as [|a s IH]; [by rewrite append_nil_r|].
  by rewrite append_cons, !rev_cons, IH, append_assoc.
Qed.

Lemma rev_involutive (s : string) : String.rev (String.rev s) = s.
Proof.
  induction s as [|a s IH]; [done|]. by rewrite rev_cons, rev_append, IH.
Qed.

Lemma prefix_app_r (p s t : string) :
  String.prefix p s = true → String.prefix p (s +:+ t) = true.
Proof.
  revert s. induction p as [|a p IH]; intros s Hp; [by destruct (s +:+ t)|].
  destruct s as [|b s]; [done|]. rewrite append_cons. simpl in *.
  destruct (ascii_dec a b); [by apply IH|done].
Qed.

Lemma contains_app_l (s t p : string) :
  contains s p = true → contains (s +:+ t) p = true.
Proof.
  induction s as [|a s IH]; intros Hc.
  - simpl in Hc. rewrite orb_false_r in Hc.
    destruct p; [by destruct t|done].
  - cbn [contains] in Hc. apply orb_true_iff in Hc as [Hp|Hc].
    + rewrite append_cons. cbn [contains].
      rewrite <- append_cons, (prefix_app_r _ _ _ Hp). done.
    + rewrite append_cons. cbn [contains]. rewrite (IH Hc). apply orb_true_r.
Qed.

Lemma contains_app_r (s t p : string) :
  contains t p = true → contains (s +:+ t) p = true.
Proof.
  intros Hc. induction s as [|a s IH]; [done|].
  rewrite append_cons. cbn [contains]. rewrite IH. apply orb_true_r.
Qed.

(** What [strip_go] returns is the end of what it was given. *)
Lemma strip_go_suffix width skip (s : string) : ∃ a, s = a +:+ strip_go width skip s.
Proof.
  revert skip. induction s as [|c s IH]; intros skip; [by exists EmptyString|].
  cbn [strip_go]. destruct skip as [|k].
  - destruct (width (String c s)) as [|k]; [by exists EmptyString|].
    destruct (IH k) as [a Ha]. exists (String c a). by rewrite append_cons, <- Ha.
  - destruct (IH k) as [a Ha]. exists (String c a). by rewrite append_cons, <- Ha.
Qed.

(** And it starts with no character that is dropped. *)
Lemma strip_go_done width skip (s : string) :
  width EmptyString = O → width (strip_go width skip s) = O.
Proof.
  intros Hnil. revert skip. induction s as [|c s IH]; intros skip; [done|].
  cbn [strip_go]. destruct skip as [|k]; [|apply IH].
  destruct (width (String c s)) as [|k] eqn:Hw; [done|apply IH].
Qed.

Lemma strip_go_fixed width (s : string) : width s = O → strip_go width O s = s.
Proof. intros Hw. destruct s as [|c s]; [done|]. cbn [strip_go]. by rewrite Hw. Qed.

(** A text that follows in which no character to drop reaches is left
    whole. *)
Lemma strip_go_keeps width (T : string) :
  (∀ x, (width (x +:+ T) ≤ String.length x)%nat) →
  ∀ a skip, (skip ≤ String.length a)%nat →
    ∃ a', strip_go width skip (a +:+ T) = a' +:+ T.
Proof.
  intros Hw. induction a as [|c a IH]; intros skip Hskip.
  - simpl in Hskip. assert (skip = O) as -> by lia.
    exists EmptyString. change (EmptyString +:+ T) with T.
    apply strip_go_fixed. specialize (Hw EmptyString).
    simpl in Hw. change (EmptyString +:+ T) with T in Hw. lia.
  - rewrite append_cons. cbn [strip_go]. simpl in Hskip. destruct skip as [|k].
    + destruct (width (String c (a +:+ T))) as [|k] eqn:Hwidth.
      * by exists (String c a).
      * apply IH. specialize (Hw (String c a)). rewrite append_cons, Hwidth in Hw.
        simpl in Hw. lia.
    + apply IH. lia.
Qed.

Lemma space_width_head (c : ascii) (r : string) :
  space_width (String c r) = O → isspace c = false.
Proof. simpl. by destruct (isspace c). Qed.

Lemma space_width_rev_head (c : ascii) (r : string) :
  space_width_rev (String c r) = O → isspace c = false.
Proof. simpl. by destruct (isspace c). Qed.

(** The start of a text that starts with no whitespace starts with
    none. *)
Lemma space_width_prefix (p b : string) :
  space_width (p +:+ b) = O → space_width p = O.
Proof.
  destruct p as [|c1 [|c2 [|c3 p]]]; [done|..]; rewrite ?append_cons; simpl.
  - by destruct (isspace c1).
  - destruct (isspace c1); [done|]. by destruct (isspace2 c1 c2).
  - done.
Qed.

Lemma lstrip_suffix (s : string) : ∃ a, s = a +:+ lstrip s.
Proof. apply strip_go_suffix. Qed.

Lemma lstrip_done (s : string) : space_width (lstrip s) = O.
Proof. by apply strip_go_done. Qed.

Lemma lstrip_head (s : string) c r : lstrip s = String c r → isspace c = false.
Proof.
  intros Hs. pose proof (lstrip_done s) as Hw. rewrite Hs in Hw.
  by apply space_width_head in Hw.
Qed.

Lemma lstrip_fixed (s : string) : space_width s = O → lstrip s = s.
Proof. apply strip_go_fixed. Qed.

Lemma lstrip_idemp (s : string) : lstrip (lstrip s) = lstrip s.
Proof. apply lstrip_fixed, lstrip_done. Qed.

Lemma rstrip_prefix (s : string) : ∃ b, s = rstrip s +:+ b.
Proof.
  unfold rstrip. destruct (strip_go_suffix space_width_rev O (String.rev s)) as [a Ha].
  exists (String.rev a). rewrite <- rev_append, <- Ha. by rewrite rev_involutive.
Qed.

Lemma rstrip_idemp (s : string) : rstrip (rstrip s) = rstrip s.
Proof.
  unfold rstrip. rewrite rev_involutive.
  by rewrite strip_go_fixed by by apply strip_go_done.
Qed.

(** The last character of a text without closing whitespace. *)
Lemma rstrip_last (s x : string) c :
  rstrip s = x +:+ String c EmptyString → isspace c = false.
Proof.
  unfold rstrip. intros Hs. apply (f_equal String.rev) in Hs.
  rewrite rev_involutive, rev_append in Hs. simpl in Hs.
  pose proof (strip_go_done space_width_rev O (String.rev s) eq_refl) as Hw.
  rewrite Hs in Hw. by apply space_width_rev_head in Hw.
Qed.

Lemma strip_no_leading_space (s : string) : lstrip (strip s) = strip s.
Proof.
  unfold strip. apply lstrip_fixed.
  destruct (rstrip_prefix (lstrip s)) as [b Hb].
  apply (space_width_prefix _ b). rewrite <- Hb. apply lstrip_done.
Qed.

Lemma strip_no_trailing_space (s : string) : rstrip (strip s) = strip s.
Proof. unfold strip. apply rstrip_idemp. Qed.

(** A text is a part of what it was stripped from. *)
Lemma strip_factor (s : string) : ∃ a b, s = a +:+ strip s +:+ b.
Proof.
  destruct (lstrip_suffix s) as [a Ha].
  destruct (rstrip_prefix (lstrip s)) as [b Hb].
  exists a, b. unfold strip. by rewrite <- Hb.
Qed.

Lemma contains_strip (s p : string) :
  contains s p = false → contains (strip s) p = false.
Proof.
  intros Hs. destruct (contains (strip s) p) eqn:Ht; [|done].
  destruct (strip_factor s) as (a & b & Hab).
  rewrite Hab in Hs. rewrite contains_app_r in Hs; [done|].
  by apply contains_app_l.
Qed.

(** Three line feeds in a row after a line feed was put at the end: they
    were there before, or the text ended in two line feeds. *)
Lemma contains_three_after_nl (t : string) :
  contains (t +:+ nl) (nl +:+ nl +:+ nl) = true →
  contains t (nl +:+ nl +:+ nl) = true ∨ ∃ x, t = x +:+ nl +:+ nl.
Proof.
  induction t as [|a t IH]; intros Hc; [by vm_compute in Hc|].
  rewrite append_cons in Hc. cbn [contains] in Hc.
  apply orb_true_iff in Hc as [Hp|Hc].
  - destruct t as [|b [|c t]].
    + apply prefix_length in Hp. vm_compute in Hp. lia.
    + right. exists EmptyString.
      change (String.prefix (String NL (String NL (String NL EmptyString)))
                (String a (String b (String NL EmptyString))) = true) in Hp.
      simpl in Hp. destruct (ascii_dec NL a) as [<-|]; [|done].
      destruct (ascii_dec NL b) as [<-|]; [|done]. done.
    + left. cbn [contains]. apply orb_true_iff. left.
      change (String.prefix (String NL (String NL (String NL EmptyString)))
                (String a (String b (String c (t +:+ nl)))) = true) in Hp.
      change (String.prefix (String NL (String NL (String NL EmptyString)))
                (String a (String b (String c t))) = true).
      simpl in *. destruct (ascii_dec NL a); [|done].
      destruct (ascii_dec NL b); [|done]. destruct (ascii_dec NL c); [|done].
      by destruct t.
  - apply IH in Hc as [Hc|[x ->]].
    + left. cbn [contains]. rewrite Hc. apply orb_true_r.
    + right. exists (String a x). by rewrite append_cons.
Qed.

(** ** Reading the config *)

Section ConfigStage.

Variable json_load : string → json_result.

(** Reading the config changes nothing but the printed messages. *)
Lemma parse_config_keeps_files config_path w :
  let r := parse_config json_load config_path w in
  fs (snd r) = fs w ∧ dirs (snd r) = dirs w
  ∧ sys_path (snd r) = sys_path w ∧ sys_modules (snd r) = sys_modules w
  ∧ (∀ config, fst r = ConfigLoaded config → snd r = w).
Proof.
  unfold parse_config. destruct (open_read w config_path) as [text|[]]; simpl.
  - destruct (json_load text); simpl; repeat split; done.
  - repeat split; done.
  - repeat split; done.
  - repeat split; done.
Qed.

(** How reading the config ends, by what is at its path. *)
Lemma parse_config_cases config_path w :
  let r := parse_config json_load config_path w in
  (∀ text config, fs w !! config_path = Some text → json_load text = JsonConfig config →
     r = (ConfigLoaded config, w))
  ∧ (∀ text, fs w !! config_path = Some text → json_load text = JsonNull →
       r = (ConfigNone, w))
  ∧ (∀ text msg, fs w !! config_path = Some text → json_load text = JsonError msg →
       r = (ConfigNone,
            print (cross_mark +:+ " Error parsing config file " +:+ config_path
                     +:+ ": " +:+ msg) w))
  ∧ (fs w !! config_path = None →
     config_path ∈ dirs w ∨ under_a_file w config_path = true →
     r = (ConfigRaised, w))
  ∧ (fs w !! config_path = None →
     config_path ∉ dirs w → under_a_file w config_path = false →
     r = (ConfigNone,
          print (cross_mark +:+ " Error parsing config file " +:+ config_path
                   +:+ ": [Errno 2] No such file or directory: "
                   +:+ String SQ config_path +:+ String SQ EmptyString) w)).
Proof.
  unfold parse_config, open_read. cbv zeta.
  destruct (fs w !! config_path) as [text|].
  - split; [by intros ? ? [= <-] ->|]. split; [by intros ? [= <-] ->|].
    split; [by intros ? ? [= <-] ->|]. by split.
  - split; [done|]. split; [done|]. split; [done|]. split.
    + intros _ [Hdir|Hfile].
      * by rewrite bool_decide_eq_true_2.
      * destruct (bool_decide (config_path ∈ dirs w)); [done|]. by rewrite Hfile.
    + intros _ Hdir Hfile. by rewrite bool_decide_eq_false_2, Hfile.
Qed.

End ConfigStage.

(** ** Parse failure *)

Section SplitOperation.

Variable ast_parse : string → option Module_.
Variable syntax_error_message : string → string.
Variable spec_from_file_location : string → string → bool.
Variable exec_module : string → string → world → world * load_result.
Variable mkdtemp : world → string.
Variable summary_of : bool → nat → nat → string.
Variable json_load : string → json_result.
Variable black : option black_package.

Local Abbreviation run_split :=
  (write_split_files ast_parse syntax_error_message spec_from_file_location
     exec_module mkdtemp summary_of json_load black).

(** C7. When the text of the input file does not parse, the run creates
    and changes no file and no directory - so no backup either - and
    leaves the search path and the module registry as they are.  When no
    config path is given, or the config loads, the run prints one message,
    the diagnostic of the syntax error, and returns without a verdict.
    When a config path is given and the config does not load, the run ends
    before the input is parsed and says nothing of the syntax error: for a
    config file that is missing or is no JSON it prints the diagnostic of
    the config and returns; for one that holds JSON [null] it returns and
    prints nothing; and when the path is a directory, or leads through a
    regular file, an exception leaves the run. *)
Theorem syntax_error_writes_nothing code_path output_dir config_path w code :
  fs w !! code_path = Some code →
  ast_parse code = None →
  let r := run_split code_path output_dir config_path w in
  let syntax_diagnostic :=
    cross_mark +:+ " Syntax error in " +:+ code_path +:+ ": "
    +:+ syntax_error_message code in
  let config_diagnostic path reason :=
    cross_mark +:+ " Error parsing config file " +:+ path +:+ ": " +:+ reason in
  (fs (snd r) = fs w ∧ dirs (snd r) = dirs w
   ∧ sys_path (snd r) = sys_path w ∧ sys_modules (snd r) = sys_modules w)
  ∧ (config_path = None ∨ config_path = Some EmptyString
     ∨ (∃ path text config, config_path = Some path ∧ fs w !! path = Some text
                            ∧ json_load text = JsonConfig config) →
     fst r = Returned None ∧ stdout (snd r) = stdout w ++ [syntax_diagnostic])
  ∧ (∀ path, config_path = Some path → path ≠ EmptyString →
       (∀ text msg, fs w !! path = Some text → json_load text = JsonError msg →
          fst r = Returned None
          ∧ stdout (snd r) = stdout w ++ [config_diagnostic path msg])
       ∧ (fs w !! path = None → path ∉ dirs w → under_a_file w path = false →
          fst r = Returned None
          ∧ stdout (snd r)
            = stdout w
              ++ [config_diagnostic path
                    ("[Errno 2] No such file or directory: "
                       +:+ String SQ path +:+ String SQ EmptyString)])
       ∧ (∀ text, fs w !! path = Some text → json_load text = JsonNull →
            fst r = Returned None ∧ stdout (snd r) = stdout w)
       ∧ (fs w !! path = None → path ∈ dirs w ∨ under_a_file w path = true →
          fst r = Raised ∧ stdout (snd r) = stdout w)).
Proof.
  intros Hread Hsyntax. cbv zeta. unfold write_split_files.
  assert (Hparse :
    parse_script ast_parse syntax_error_message code_path w
    = (SyntaxErr, print (cross_mark +:+ " Syntax error in " +:+ code_path +:+ ": "
                           +:+ syntax_error_message code) w)).
  { unfold parse_script. by rewrite Hread, Hsyntax. }
  destruct config_path as [path|]; [destruct (String.eqb path EmptyString) eqn:Hpath|].
  - apply String.eqb_eq in Hpath as ->. rewrite Hparse. cbn [fst snd print fs dirs
      sys_path sys_modules stdout]. split; [done|]. split; [done|].
    intros path [= <-] Hne. done.
  - apply String.eqb_neq in Hpath.
    destruct (parse_config_keeps_files json_load path w)
      as (Hfs & Hdirs & Hsp & Hmods & Hsame).
    destruct (parse_config_cases json_load path w)
      as (Hok & Hnull & Herr & Hraise & Hmissing).
    cbv zeta in *.
    split; [|split].
    + destruct (parse_config json_load path w) as [[| |config] w0] eqn:Hcfg;
        cbn [fst snd] in *; [done|done|].
      rewrite (Hsame config eq_refl), Hparse. done.
    + intros [?|[[= ->]|(path' & text & config & [= <-] & Htext & Hjson)]];
        [done|done|].
      rewrite (Hok _ _ Htext Hjson), Hparse. done.
    + intros path' [= <-] _. split; [|split; [|split]].
      * intros text msg Htext Hjson. by rewrite (Herr _ _ Htext Hjson).
      * intros Hnone Hdir Hfile. by rewrite (Hmissing Hnone Hdir Hfile).
      * intros text Htext Hjson. by rewrite (Hnull _ Htext Hjson).
      * intros Hnone Hway. by rewrite (Hraise Hnone Hway).
  - rewrite Hparse. cbn [fst snd print fs dirs sys_path sys_modules stdout].
    split; [done|]. split; [done|]. intros path [=].
Qed.

End SplitOperation.

(** ** Paths and listings *)

Lemma prefix_spec (p s : string) :
  String.prefix p s = true ↔ ∃ r, s = p +:+ r.
Proof.
  split.
  - revert s. induction p as [|a p IH]; intros s Hp; [by exists s|].
    destruct s as [|b s]; [done|]. simpl in Hp.
    destruct (ascii_dec a b) as [->|]; [|done].
    destruct (IH _ Hp) as [r ->]. by exists r.
  - intros [r ->]. apply prefix_append.
Qed.

Lemma append_inj_l (p s t : string) : p +:+ s = p +:+ t → s = t.
Proof.
  induction p as [|a p IH]; [done|]. rewrite !append_cons. intros [= H]. by apply IH.
Qed.

Lemma substring_all (s : string) : String.substring 0 (String.length s) s = s.
Proof. induction s as [|a s IH]; [done|]. simpl. by rewrite IH. Qed.

Lemma str_drop_app (p r : string) : str_drop (String.length p) (p +:+ r) = r.
Proof.
  unfold str_drop. induction p as [|a p IH].
  - change (EmptyString +:+ r) with r. simpl. rewrite Nat.sub_0_r. apply substring_all.
  - rewrite append_cons. simpl. apply IH.
Qed.

Lemma below_Some folder path rest :
  below folder path = Some rest ↔ path = Path.join folder EmptyString +:+ rest.
Proof.
  unfold below, startswith. cbv zeta. split.
  - destruct (String.prefix _ path) eqn:Hpre; [|done].
    apply prefix_spec in Hpre as [r ->]. rewrite str_drop_app. by intros [= ->].
  - intros ->. by rewrite prefix_append, str_drop_app.
Qed.

Lemma contains_startswith (s p : string) :
  contains s p = false → startswith s p = false.
Proof. unfold startswith. destruct s; simpl; by intros [? _]%orb_false_iff. Qed.

(** The path of a plain name in a folder. *)
Lemma path_join_plain folder name :
  contains name (String Path.SEP EmptyString) = false →
  Path.join folder name = Path.join folder EmptyString +:+ name.
Proof.
  intros Hplain. apply contains_startswith in Hplain. unfold Path.join.
  rewrite Hplain. change (startswith EmptyString (String Path.SEP EmptyString)) with false.
  cbv iota. destruct (_ || _).
  - by rewrite append_nil_r.
  - by rewrite append_assoc.
Qed.

Lemma path_join_inj folder n1 n2 :
  Path.join folder n1 = Path.join folder n2 →
  contains n1 (String Path.SEP EmptyString) = false →
  contains n2 (String Path.SEP EmptyString) = false →
  n1 = n2.
Proof.
  intros Heq H1 H2.
  rewrite (path_join_plain folder n1), (path_join_plain folder n2) in Heq by done.
  by apply append_inj_l in Heq.
Qed.

Lemma child_name_Some folder path name :
  child_name folder path = Some name
  ↔ path = Path.join folder name
    ∧ contains name (String Path.SEP EmptyString) = false.
Proof.
  unfold child_name. split.
  - destruct (below folder path) as [rest|] eqn:Hbelow; [|done]. simpl.
    destruct (contains rest _) eqn:Hplain; [done|]. intros [= <-].
    apply below_Some in Hbelow. by rewrite (path_join_plain folder rest).
  - intros [-> Hplain]. rewrite (path_join_plain folder name) by done.
    rewrite (proj2 (below_Some _ _ name)) by done. simpl. by rewrite Hplain.
Qed.

Lemma child_name_join folder name :
  contains name (String Path.SEP EmptyString) = false →
  child_name folder (Path.join folder name) = Some name.
Proof. intros Hplain. by apply child_name_Some. Qed.

Lemma NoDup_omap_inj {A B} (f : A → option B) (l : list A) :
  (∀ x y z, f x = Some z → f y = Some z → x = y) →
  NoDup l → NoDup (omap f l).
Proof.
  intros Hinj. induction 1 as [|x l Hx Hl IH]; [constructor|]. simpl.
  destruct (f x) as [z|] eqn:Hfx; [|done]. constructor; [|done].
  intros (y & Hy & Hfy)%list_elem_of_omap. by rewrite (Hinj _ _ _ Hfx Hfy) in Hx.
Qed.

(** The listing of a directory: the plain names of the files that lie in
    it, each once. *)
Lemma listdir_spec w folder :
  folder ∈ dirs w →
  ∃ names, listdir w folder = Some names
           ∧ NoDup names
           ∧ ∀ n, n ∈ names
                  ↔ is_Some (fs w !! Path.join folder n)
                    ∧ contains n (String Path.SEP EmptyString) = false.
Proof.
  intros Hdir. unfold listdir. rewrite decide_True by done.
  eexists. split; [done|]. split.
  - apply NoDup_omap_inj; [|apply NoDup_fst_map_to_list].
    intros x y z Hx%child_name_Some Hy%child_name_Some. by destruct Hx as [-> _], Hy as [-> _].
  - intros n. rewrite list_elem_of_omap. split.
    + intros (path & Hpath & [-> Hplain]%child_name_Some). split; [|done].
      apply list_elem_of_fmap in Hpath as ([path content] & -> & Hin).
      apply elem_of_map_to_list in Hin. by eexists.
    + intros [[content Hread] Hplain]. exists (Path.join folder n).
      split; [|by apply child_name_join].
      apply list_elem_of_fmap. exists (Path.join folder n, content).
      split; [done|]. by apply elem_of_map_to_list.
Qed.

(** ** The import stage *)


Section ImportStage.

Variable spec_from_file_location : string → string → bool.
Variable exec_module : string → string → world → world * load_result.
Variable mkdtemp : world → string.


Local Abbreviation run_imports :=
  (_validate_imports spec_from_file_location exec_module mkdtemp).
Local Abbreviation load_one :=
  (load_file spec_from_file_location exec_module).
Local Abbreviation load_package :=
  (load_init spec_from_file_location exec_module).

Lemma cleanup_sys_modules_prefixed base_name (m : gmap string string) name :
  startswith name base_name = true →
  cleanup_sys_modules base_name m !! name = None.
Proof.
  intros Hpre. unfold cleanup_sys_modules. apply map_lookup_filter_None.
  right. intros v _. simpl. congruence.
Qed.

Lemma cleanup_sys_modules_other base_name (m : gmap string string) name :
  startswith name base_name = false →
  cleanup_sys_modules base_name m !! name = m !! name.
Proof.
  intros Hpre. unfold cleanup_sys_modules. destruct (m !! name) as [v|] eqn:Hm.
  - by apply map_lookup_filter_Some.
  - apply map_lookup_filter_None. by left.
Qed.












(** The registry cleanup seen from the whole stage: once the sandbox copy
    exists, no entry with the prefix is left, whoever registered it. *)
Lemma stage_registry_without_prefix split_folder base_name w name :
  is_Some (_create_test_version_with_fixed_imports split_folder (mkdtemp w) base_name
             (with_dirs (λ ds, {[mkdtemp w]} ∪ ds) w)) →
  startswith name base_name = true →
  sys_modules (snd (run_imports split_folder base_name w)) !! name = None.
Proof.
  intros [[w1 folder] Hcopy] Hpre. unfold _validate_imports. rewrite Hcopy. simpl.
  by apply cleanup_sys_modules_prefixed.
Qed.

(** ** The sandbox copy *)

Lemma startswith_strip_from line :
  absolute_import line = true → startswith (strip line) "from .." = false.
Proof.
  unfold absolute_import, startswith. intros Habs.
  destruct (String.prefix "from .." (strip line)) eqn:Hpre; [|done].
  assert (String.prefix "from ." (strip line) = true) as Hdot
    by (eapply prefix_trans; [|exact Hpre]; done).
  assert (String.prefix "import " (strip line) = false) as Himp.
  { destruct (strip line) as [|a s]; [done|]. simpl in Hpre.
    destruct (ascii_dec "f" a) as [<-|]; [|done]. by apply prefix_head_ne. }
  rewrite Himp, Hdot in Habs. simpl in Habs. by rewrite andb_false_r in Habs.
Qed.

Lemma startswith_strip_import line :
  absolute_import line = true → startswith (strip line) "import .." = false.
Proof.
  unfold absolute_import, startswith. intros Habs.
  destruct (String.prefix "import .." (strip line)) eqn:Hpre; [|done].
  assert (String.prefix "import ." (strip line) = true) as Hdot
    by (eapply prefix_trans; [|exact Hpre]; done).
  assert (String.prefix "from " (strip line) = false) as Hfrom.
  { destruct (strip line) as [|a s]; [done|]. simpl in Hpre.
    destruct (ascii_dec "i" a) as [<-|]; [|done]. by apply prefix_head_ne. }
  rewrite Hfrom, Hdot in Habs. simpl in Habs. by rewrite andb_false_r in Habs.
Qed.

Lemma fix_line_changes line : fix_line line ≠ line ↔ escapes_package line = true.
Proof.
  unfold fix_line. destruct (escapes_package line); split; try done.
  intros _ Heq. apply (f_equal String.length) in Heq.
  rewrite !length_append in Heq. simpl in Heq. lia.
Qed.

(** The model writes the line of the sandbox copy. *)
Lemma fix_line_sandbox_line line : fix_line line = sandbox_line line.
Proof. reflexivity. Qed.

(** A file of the sandbox is rewritten by the file that is no other. *)
Lemma fix_file_other folder w n path :
  Path.join folder n ≠ path → fs (fix_file folder w n) !! path = fs w !! path.
Proof.
  intros Hne. unfold fix_file. destruct (is_py n); [|done].
  destruct (fs w !! Path.join folder n); [|done]. simpl. by rewrite lookup_insert_ne.
Qed.

Lemma fix_files_other folder (names : list string) w path :
  (∀ n, n ∈ names → Path.join folder n ≠ path) →
  fs (foldl (fix_file folder) w names) !! path = fs w !! path.
Proof.
  revert w. induction names as [|n names IH]; intros w Hother; [done|]. cbn [foldl].
  rewrite IH by (intros n' Hn'; apply Hother; by right).
  apply fix_file_other, Hother. by left.
Qed.

Lemma fix_file_same folder w n :
  fs (fix_file folder w n) !! Path.join folder n
  = (if is_py n then fix_content else id) <$> fs w !! Path.join folder n.
Proof.
  unfold fix_file. destruct (is_py n); [|by destruct (fs w !! _)].
  destruct (fs w !! Path.join folder n) as [content|] eqn:Hread; [|by rewrite Hread].
  simpl. by rewrite lookup_insert_eq.
Qed.

(** Every file of the listing is rewritten once. *)
Lemma fix_files_lookup folder (names : list string) w n0 :
  NoDup names →
  (∀ n, n ∈ names → contains n (String Path.SEP EmptyString) = false) →
  n0 ∈ names →
  fs (foldl (fix_file folder) w names) !! Path.join folder n0
  = (if is_py n0 then fix_content else id) <$> fs w !! Path.join folder n0.
Proof.
  revert w. induction names as [|n names IH]; intros w Hnodup Hplain Hin;
    [by apply elem_of_nil in Hin|].
  apply NoDup_cons in Hnodup as [Hnew Hnodup]. cbn [foldl].
  assert (Hplain' : ∀ n', n' ∈ names → contains n' (String Path.SEP EmptyString) = false)
    by (intros n' Hn'; apply Hplain; by right).
  destruct (decide (n0 = n)) as [->|Hne].
  - rewrite fix_files_other; [apply fix_file_same|].
    intros n' Hn' Heq. apply path_join_inj in Heq; [by subst n'| |].
    + by apply Hplain'.
    + apply Hplain. by left.
  - apply elem_of_cons in Hin as [?|Hin]; [done|].
    rewrite IH by done. f_equal. apply fix_file_other.
    intros Heq. apply path_join_inj in Heq; [done| |].
    + apply Hplain. by left.
    + by apply Hplain'.
Qed.

(** Once an exception that is no [Exception] is on its way, no file is
    loaded any more. *)
Lemma loading_stopped folder base_name (names : list string) w :
  snd (foldl (load_one folder base_name) (w, None) names) = None.
Proof. revert w. induction names as [|f names IH]; intros w; [done|]. apply IH. Qed.

(** The flag of the stage never comes back. *)
Lemma load_one_failed folder base_name w r file_name w' r' :
  load_one folder base_name (w, Some r) file_name = (w', Some r') →
  all_imports_successful r = false → all_imports_successful r' = false.
Proof.
  unfold load_file. cbn [fst snd].
  destruct (is_py file_name && _); [|by intros [= <- <-]].
  destruct (spec_from_file_location _ _); [|by intros [= <- <-]].
  destruct (exec_module _ _ _) as [w1 res].
  destruct res as [|msg|msg|]; try (by intros [= <- <-]).
  by destruct (contains _ _); intros [= <- <-].
Qed.

Lemma load_all_failed folder base_name (names : list string) w r w' r' :
  foldl (load_one folder base_name) (w, Some r) names = (w', Some r') →
  all_imports_successful r = false → all_imports_successful r' = false.
Proof.
  revert w r. induction names as [|f names IH]; intros w r Hrun Hflag.
  - by injection Hrun as <- <-.
  - cbn [foldl] in Hrun.
    destruct (load_one folder base_name (w, Some r) f) as [w1 [r1|]] eqn:Hstep.
    + apply (IH _ _ Hrun). by apply (load_one_failed _ _ _ _ _ _ _ Hstep).
    + pose proof (loading_stopped folder base_name names w1) as Hnone.
      rewrite Hrun in Hnone. discriminate Hnone.
Qed.

(** C6. The sandbox copy is the copy of the folder of the package in which
    every [.py] file that lies in the folder itself is rewritten line by
    line, and nothing else is changed.  A line is put between [# ] and a
    remark exactly when, without the whitespace around it, it starts with
    [from ..] or [import ..], or holds [from ..core] or [from ..models]
    anywhere; every other line is kept as it is.  So every import from
    above the package is disabled, and so is any other line that holds one
    of the two texts, a comment for one; an absolute import that holds
    neither is copied as it is.  When loading a module file other than the
    initializer ends in an [ImportError], the stage records a warning at
    most: no error, no failed import, and the success flag stays.  When
    loading the initializer ends in an [ImportError] whose message does
    not speak of a relative import - that of an absolute import that
    cannot be resolved - the stage has failed: the initializer is a failed
    import with its error, and the flag never comes back. *)
Theorem sandbox_rewrites_by_pattern :
  (∀ split_folder temp_dir base_name w w2 folder,
     _create_test_version_with_fixed_imports split_folder temp_dir base_name w
     = Some (w2, folder) →
     folder = Path.join temp_dir base_name
     ∧ ∃ w1,
         copytree split_folder folder w = Some w1
         ∧ (∀ name content,
              contains name (String Path.SEP EmptyString) = false →
              fs w1 !! Path.join folder name = Some content →
              fs w2 !! Path.join folder name
              = Some (if is_py name
                      then join nl (sandbox_line <$> split NL content)
                      else content))
         ∧ (∀ path, child_name folder path = None → fs w2 !! path = fs w1 !! path))
  ∧ (∀ line, parent_relative_import line = true →
       sandbox_line line = "# " +:+ line +:+ "  # Commented out for validation")
  ∧ (∀ line, absolute_import line = true →
       contains (strip line) "from ..core" = false →
       contains (strip line) "from ..models" = false →
       sandbox_line line = line)
  ∧ (∀ line, sandbox_line line ≠ line →
       parent_relative_import line = true
       ∨ startswith (strip line) "import .." = true
       ∨ contains (strip line) "from ..core" = true
       ∨ contains (strip line) "from ..models" = true)
  ∧ (∀ folder base_name w r file_name w' msg,
       exec_module (base_name +:+ "." +:+ str_drop_end 3 file_name)
         (Path.join folder file_name)
         (with_sys_modules
            (insert (base_name +:+ "." +:+ str_drop_end 3 file_name)
               (Path.join folder file_name)) w)
       = (w', RaisedImportError msg) →
       ∃ r', snd (load_one folder base_name (w, Some r) file_name) = Some r'
             ∧ all_imports_successful r' = all_imports_successful r
             ∧ import_errors r' = import_errors r
             ∧ failed_imports r' = failed_imports r)
  ∧ (∀ folder base_name w r w' msg,
       spec_from_file_location base_name (Path.join folder "__init__.py") = true →
       exec_module base_name (Path.join folder "__init__.py") w
       = (w', RaisedImportError msg) →
       contains (lower msg) "relative import" = false →
       ∃ r', load_package folder base_name (w, Some r) = (w', Some r')
             ∧ all_imports_successful r' = false
             ∧ failed_imports r' = failed_imports r ++ ["__init__.py"]
             ∧ import_errors r'
               = import_errors r ++ ["Failed to import main package: " +:+ msg])
  ∧ (∀ folder base_name names w r w' r',
       foldl (load_one folder base_name) (w, Some r) names = (w', Some r') →
       all_imports_successful r = false → all_imports_successful r' = false).
Proof.
  split; [|split; [|split; [|split; [|split; [|split]]]]].
  - intros split_folder temp_dir base_name w w2 folder.
    unfold _create_test_version_with_fixed_imports. cbv zeta.
    destruct (copytree split_folder (Path.join temp_dir base_name) w) as [w1|] eqn:Hcopy;
      [|done].
    cbn [mbind option_bind]. intros [= <- <-]. split; [done|].
    exists w1. split; [done|].
    assert (Hdir : Path.join temp_dir base_name ∈ dirs w1).
    { revert Hcopy. unfold copytree. destruct (_ && _); [|done].
      intros [= <-]. simpl. set_solver. }
    destruct (listdir_spec w1 (Path.join temp_dir base_name) Hdir)
      as (names & Hnames & Hnodup & Hin).
    rewrite Hnames. simpl. split.
    + intros name content Hplain Hread.
      rewrite fix_files_lookup; [| done | by intros n (_ & ?)%Hin |].
      * rewrite Hread. simpl. by destruct (is_py name).
      * apply Hin. split; [by rewrite Hread|done].
    + intros path Hchild. apply fix_files_other.
      intros n (_ & Hplain)%Hin <-. by rewrite child_name_join in Hchild.
  - intros line Hrel. unfold sandbox_line. cbv zeta.
    unfold parent_relative_import in Hrel. by rewrite Hrel.
  - intros line Habs Hcore Hmodels. unfold sandbox_line. cbv zeta.
    by rewrite startswith_strip_from, startswith_strip_import, Hcore, Hmodels.
  - intros line. unfold sandbox_line, parent_relative_import. cbv zeta.
    destruct (startswith (strip line) "from .."); [by left|].
    destruct (startswith (strip line) "import .."); [by right; left|].
    destruct (contains (strip line) "from ..core"); [by right; right; left|].
    destruct (contains (strip line) "from ..models"); [by right; right; right|done].
  - intros folder base_name w r file_name w' msg Hexec. unfold load_file. simpl.
    destruct (is_py file_name && _); [|by eexists].
    destruct (spec_from_file_location _ _); [|by eexists].
    rewrite Hexec. destruct (contains _ _); by eexists.
  - intros folder base_name w r w' msg Hspec Hexec Hmsg. unfold load_init.
    cbn [fst snd]. rewrite Hspec, Hexec, Hmsg. by eexists.
  - intros folder base_name names w r w' r'. apply load_all_failed.
Qed.

End ImportStage.

(** ** The structural stage and the report *)

Section Report.

Variable summary_of : bool → nat → nat → string.


Lemma missing_is_an_error original_class_list original_function_list
    (found_classes found_functions : gset string) warnings0 :
  list_to_set original_class_list ∖ found_classes ≠ (∅ : gset string)
  ∨ list_to_set original_function_list ∖ found_functions ≠ (∅ : gset string) →
  f_errors (compare_names original_class_list original_function_list
              found_classes found_functions warnings0) ≠ [].
Proof.
  intros Hmissing. unfold compare_names. simpl.
  destruct (decide (list_to_set original_class_list ∖ found_classes = ∅)) as [Hc|Hc];
    [|done].
  destruct (decide (list_to_set original_function_list ∖ found_functions = ∅));
    [|done].
  by destruct Hmissing.
Qed.

(** Names that are found but not in the original never make an error:
    the errors depend on the missing names only. *)
Lemma extra_is_no_error original_class_list original_function_list
    (found_classes found_functions : gset string) warnings0 :
  list_to_set original_class_list ∖ found_classes = (∅ : gset string) →
  list_to_set original_function_list ∖ found_functions = (∅ : gset string) →
  let r := compare_names original_class_list original_function_list
             found_classes found_functions warnings0 in
  f_errors r = [] ∧ classes_match r = true ∧ functions_match r = true.
Proof.
  intros Hc Hf. unfold compare_names. simpl.
  rewrite !decide_True by done. rewrite !bool_decide_eq_true_2 by done. done.
Qed.

(** The warning for extra classes is given when more names were found
    than the original has, and only then. *)
Lemma extra_warning_by_count original_class_list
    (found_classes : gset string) warnings0 :
  (size found_classes ≤ size (list_to_set original_class_list : gset string))%nat →
  f_warnings (compare_names original_class_list [] found_classes ∅ warnings0)
  = warnings0.
Proof.
  intros Hsize. unfold compare_names. simpl.
  rewrite (decide_False (P := (_ < size found_classes)%nat)) by lia.
  rewrite decide_False by lia. simpl. by rewrite app_nil_r.
Qed.

(** Success of the report is decided by its errors alone. *)
Lemma success_iff_no_errors syntax imports functionality :
  let report := combine_results syntax imports functionality summary_of in
  success report = true ↔ errors report = [].
Proof.
  unfold combine_results. simpl.
  destruct (_ ++ _); simpl; split; done.
Qed.

(** Warnings of the import stage do not reach the verdict. *)
Lemma warnings_do_not_decide syntax imports functionality extra_warnings :
  success (combine_results syntax
             {| all_imports_successful := all_imports_successful imports;
                successful_imports := successful_imports imports;
                failed_imports := failed_imports imports;
                import_errors := import_errors imports;
                import_warnings := import_warnings imports ++ extra_warnings |}
             (f_add_warning "w" functionality) summary_of)
  = success (combine_results syntax imports functionality summary_of).
Proof. unfold combine_results. by destruct imports, functionality. Qed.

End Report.

(** ** Texts that the residual file keeps *)

Lemma plain_byte (c : ascii) (n : nat) :
  (Ascii.nat_of_ascii c < 128)%nat → (128 ≤ n)%nat → byte_is c n = false.
Proof. intros Hc Hn. unfold byte_is. apply Nat.eqb_neq. lia. Qed.

Lemma isspace2_plain_l c c2 : (Ascii.nat_of_ascii c < 128)%nat → isspace2 c c2 = false.
Proof. intros Hc. unfold isspace2. by rewrite (plain_byte c 194) by (done || lia). Qed.

Lemma isspace2_plain_r c1 c : (Ascii.nat_of_ascii c < 128)%nat → isspace2 c1 c = false.
Proof.
  intros Hc. unfold isspace2.
  rewrite (plain_byte c 133), (plain_byte c 160) by (done || lia).
  apply andb_false_r.
Qed.

Lemma isspace3_plain_1 c c2 c3 : (Ascii.nat_of_ascii c < 128)%nat → isspace3 c c2 c3 = false.
Proof.
  intros Hc. unfold isspace3.
  by rewrite (plain_byte c 225), (plain_byte c 226), (plain_byte c 227) by (done || lia).
Qed.

Lemma isspace3_plain_2 c1 c c3 : (Ascii.nat_of_ascii c < 128)%nat → isspace3 c1 c c3 = false.
Proof.
  intros Hc. unfold isspace3.
  rewrite (plain_byte c 154), (plain_byte c 128), (plain_byte c 129) by (done || lia).
  by rewrite !andb_false_r.
Qed.

Lemma isspace3_plain_3 c1 c2 c : (Ascii.nat_of_ascii c < 128)%nat → isspace3 c1 c2 c = false.
Proof.
  intros Hc. unfold isspace3.
  rewrite (plain_byte c 128), (plain_byte c 168), (plain_byte c 169),
    (plain_byte c 175), (plain_byte c 159) by (done || lia).
  assert ((128 <=? Ascii.nat_of_ascii c)%nat = false) as -> by (apply Nat.leb_gt; lia).
  by rewrite !andb_false_r.
Qed.

Lemma starts_plain_inv (t : string) :
  starts_plain t = true →
  ∃ c r, t = String c r ∧ isspace c = false ∧ (Ascii.nat_of_ascii c < 128)%nat.
Proof.
  destruct t as [|c r]; [done|]. simpl. intros [Hs Hc]%andb_true_iff.
  exists c, r. split; [done|]. split; [by apply negb_true_iff|by apply Nat.ltb_lt].
Qed.

(** No whitespace character reaches into a text that starts with a
    character of ASCII that is none. *)
Lemma space_width_before_plain (x : string) c rest :
  isspace c = false → (Ascii.nat_of_ascii c < 128)%nat →
  (space_width (x +:+ String c rest) ≤ String.length x)%nat.
Proof.
  intros Hs Hc. destruct x as [|a1 [|a2 [|a3 x]]]; rewrite ?append_cons;
    change (EmptyString +:+ String c rest) with (String c rest); unfold space_width.
  - rewrite Hs. destruct rest as [|c2 [|c3 rest]]; [done|..];
      rewrite isspace2_plain_l by done; [done|]. by rewrite isspace3_plain_1.
  - destruct (isspace a1); [simpl; lia|]. rewrite isspace2_plain_r by done.
    destruct rest as [|c3 rest]; [simpl; lia|]. rewrite isspace3_plain_2 by done.
    simpl; lia.
  - destruct (isspace a1); [simpl; lia|]. destruct (isspace2 a1 a2); [simpl; lia|].
    rewrite isspace3_plain_3 by done. simpl; lia.
  - destruct (isspace a1); [simpl; lia|]. destruct (isspace2 a1 a2); [simpl; lia|].
    destruct (isspace3 a1 a2 a3); simpl; lia.
Qed.

Lemma space_width_rev_before_plain (x : string) c rest :
  isspace c = false → (Ascii.nat_of_ascii c < 128)%nat →
  (space_width_rev (x +:+ String c rest) ≤ String.length x)%nat.
Proof.
  intros Hs Hc. destruct x as [|a1 [|a2 [|a3 x]]]; rewrite ?append_cons;
    change (EmptyString +:+ String c rest) with (String c rest); unfold space_width_rev.
  - rewrite Hs. destruct rest as [|c2 [|c3 rest]]; [done|..];
      rewrite isspace2_plain_r by done; [done|]. by rewrite isspace3_plain_3.
  - destruct (isspace a1); [simpl; lia|]. rewrite isspace2_plain_l by done.
    destruct rest as [|c3 rest]; [simpl; lia|]. rewrite isspace3_plain_2 by done.
    simpl; lia.
  - destruct (isspace a1); [simpl; lia|]. destruct (isspace2 a2 a1); [simpl; lia|].
    rewrite isspace3_plain_1 by done. simpl; lia.
  - destruct (isspace a1); [simpl; lia|]. destruct (isspace2 a2 a1); [simpl; lia|].
    destruct (isspace3 a3 a2 a1); simpl; lia.
Qed.

(** [strip] keeps a text that starts and ends plain, wherever it stands. *)
Lemma strip_keeps (a t b : string) :
  starts_plain t = true → starts_plain (String.rev t) = true →
  ∃ a' b', strip (a +:+ t +:+ b) = a' +:+ t +:+ b'.
Proof.
  intros (c & r & Ht & Hs & Hc)%starts_plain_inv (c' & r' & Hrev & Hs' & Hc')%starts_plain_inv.
  destruct (strip_go_keeps space_width (t +:+ b)) with (a := a) (skip := O)
    as [a' Ha']; [|simpl; lia|].
  { intros x. rewrite Ht, append_cons. by apply space_width_before_plain. }
  destruct (strip_go_keeps space_width_rev (String.rev t +:+ String.rev a'))
    with (a := String.rev b) (skip := O) as [b' Hb']; [|simpl; lia|].
  { intros x. rewrite Hrev, append_cons. by apply space_width_rev_before_plain. }
  exists a', (String.rev b'). unfold strip, lstrip, rstrip. rewrite Ha'.
  rewrite !rev_append, append_assoc, Hb'.
  by rewrite !rev_append, !rev_involutive, append_assoc.
Qed.

(** Replacing three line feeds by two: what comes before a text that
    starts with no line feed does not reach into it. *)
Lemma replace_go_before (old new T : string) :
  (∀ x, String.prefix old (x +:+ T) = true → x ≠ EmptyString →
        (String.length old ≤ String.length x)%nat) →
  ∀ a skip, (skip ≤ String.length a)%nat →
    ∃ a', replace_go old new skip (a +:+ T) = a' +:+ replace_go old new O T.
Proof.
  intros Hold. induction a as [|c a IH]; intros skip Hskip.
  - simpl in Hskip. assert (skip = O) as -> by lia. by exists EmptyString.
  - rewrite append_cons. cbn [replace_go]. simpl in Hskip. destruct skip as [|k].
    + destruct (String.prefix old (String c (a +:+ T))) eqn:Hp.
      * rewrite <- append_cons in Hp. apply Hold in Hp; [|done]. simpl in Hp.
        destruct (IH (Nat.pred (String.length old))) as [a' Ha']; [lia|].
        exists (new +:+ a'). by rewrite Ha', append_assoc.
      * destruct (IH O) as [a' Ha']; [lia|]. exists (String c a'). by rewrite Ha'.
    + apply IH. lia.
Qed.

Lemma prefix_three_nl (s : string) :
  String.prefix (nl +:+ nl +:+ nl) s = true
  ↔ ∃ r, s = String NL (String NL (String NL r)).
Proof. apply prefix_spec. Qed.

Lemma replace_go_through (t b : string) :
  contains t (nl +:+ nl +:+ nl) = false →
  (∀ x, t ≠ x +:+ nl) →
  replace_go (nl +:+ nl +:+ nl) (nl +:+ nl) O (t +:+ b)
  = t +:+ replace_go (nl +:+ nl +:+ nl) (nl +:+ nl) O b.
Proof.
  induction t as [|c t IH]; intros Hc Hlast; [done|].
  rewrite append_cons. cbn [replace_go].
  assert (Hp : String.prefix (nl +:+ nl +:+ nl) (String c (t +:+ b)) = false).
  { destruct (String.prefix _ _) eqn:Hp; [|done]. exfalso.
    apply prefix_three_nl in Hp as [r Hr]. injection Hr as -> Hr.
    destruct t as [|c2 [|c3 t]].
    - by apply (Hlast EmptyString).
    - rewrite append_cons in Hr. injection Hr as -> _.
      by apply (Hlast (String NL EmptyString)).
    - rewrite !append_cons in Hr. injection Hr as -> -> _.
      cbn [contains] in Hc. apply orb_false_iff in Hc as [Hc _].
      change (String.prefix (String NL (String NL (String NL EmptyString)))
                (String NL (String NL (String NL t))) = false) in Hc.
      vm_compute in Hc. by destruct t. }
  rewrite Hp, (append_cons c t). f_equal. destruct t as [|c2 t]; [done|]. apply IH.
  - cbn [contains] in Hc. by apply orb_false_iff in Hc as [_ Hc].
  - intros x Hx. apply (Hlast (String c x)). by rewrite Hx, append_cons.
Qed.

Lemma starts_plain_not_nl (t : string) :
  starts_plain t = true → ∃ c r, t = String c r ∧ c ≠ NL.
Proof.
  intros (c & r & -> & Hs & _)%starts_plain_inv. exists c, r. split; [done|].
  by intros ->.
Qed.

Lemma ends_plain_not_nl (t : string) :
  starts_plain (String.rev t) = true → ∀ x, t ≠ x +:+ nl.
Proof.
  intros (c & r & Hrev & Hc)%starts_plain_not_nl x ->.
  rewrite rev_append in Hrev. simpl in Hrev. by injection Hrev as <- _.
Qed.

(** One round of the loop keeps such a text, wherever it stands. *)
Lemma replace_keeps (a t b : string) :
  kept_verbatim t →
  ∃ a' b', replace (a +:+ t +:+ b) (nl +:+ nl +:+ nl) (nl +:+ nl) = a' +:+ t +:+ b'.
Proof.
  intros (Hstart & Hend & Hno). unfold replace.
  destruct (starts_plain_not_nl t Hstart) as (c & r & Ht & Hc).
  destruct (replace_go_before (nl +:+ nl +:+ nl) (nl +:+ nl) (t +:+ b))
    with (a := a) (skip := O) as [a' Ha']; [|simpl; lia|].
  { intros x [r' Hr']%prefix_three_nl Hx. rewrite Ht in Hr'.
    destruct x as [|x1 [|x2 [|x3 x]]]; [done|..]; rewrite ?append_cons in Hr';
      change (EmptyString +:+ String c r +:+ b) with (String c (r +:+ b)) in Hr';
      rewrite ?append_cons in Hr'.
    - by injection Hr' as _ -> _.
    - by injection Hr' as _ _ -> _.
    - simpl. lia. }
  exists a', (replace_go (nl +:+ nl +:+ nl) (nl +:+ nl) O b).
  rewrite Ha'. f_equal. apply replace_go_through; [done|by apply ends_plain_not_nl].
Qed.

Lemma collapse_go_keeps (t : string) :
  kept_verbatim t →
  ∀ fuel a b, ∃ a' b', collapse_go fuel (a +:+ t +:+ b) = a' +:+ t +:+ b'.
Proof.
  intros Ht. induction fuel as [|k IH]; intros a b; [by exists a, b|].
  cbn [collapse_go]. destruct (contains _ _); [|by exists a, b].
  destruct (replace_keeps a t b Ht) as (a' & b' & ->). apply IH.
Qed.

Lemma contains_middle (a t b : string) : contains (a +:+ t +:+ b) t = true.
Proof.
  apply contains_app_r, contains_app_l. destruct t; simpl; [done|].
  destruct (ascii_dec a0 a0); [|done]. by rewrite prefix_refl.
Qed.

Lemma join_elem (sep : string) (parts : list string) t :
  t ∈ parts → ∃ a b, join sep parts = a +:+ t +:+ b.
Proof.
  induction parts as [|p ps IH]; [by intros ?%elem_of_nil|].
  destruct ps as [|q ps].
  - intros ->%list_elem_of_singleton. exists EmptyString, EmptyString.
    simpl. by rewrite append_nil_r.
  - rewrite join_cons by done. intros [->|Hin]%elem_of_cons.
    + by exists EmptyString, (sep +:+ join sep (q :: ps)).
    + destruct (IH Hin) as (a & b & ->). exists (p +:+ sep +:+ a), b.
      by rewrite !append_assoc.
Qed.

(** The text of the residual file holds every part that is such a text. *)
Lemma finish_shrunk_contains (parts : list string) t :
  t ∈ parts → kept_verbatim t → contains (finish_shrunk parts) t = true.
Proof.
  intros (a & b & Hjoin)%(join_elem nl) Ht. unfold finish_shrunk, collapse_blank_lines.
  rewrite Hjoin.
  destruct (collapse_go_keeps t Ht (String.length (a +:+ t +:+ b)) a b) as (a1 & b1 & ->).
  destruct Ht as (Hstart & Hend & _).
  destruct (strip_keeps a1 t b1 Hstart Hend) as (a2 & b2 & ->).
  destruct (String.eqb _ _) eqn:Heq.
  - apply String.eqb_eq in Heq. apply (f_equal String.length) in Heq.
    rewrite !length_append in Heq. destruct t; [done|]. simpl in Heq. lia.
  - apply contains_app_l, contains_middle.
Qed.

(** ** The partition *)

Lemma remaining_decls_none (split : gset string) (defs : list decl) :
  (∀ d, d ∈ defs → decl_name d ∈ split) → remaining_decls split defs = [].
Proof.
  unfold remaining_decls. induction defs as [|d defs IH]; intros Hall; [done|].
  rewrite filter_cons_False by (intros Hn; apply Hn, Hall; by left).
  apply IH. intros d' Hd'. apply Hall. by right.
Qed.

Lemma elem_of_remaining_decls (split : gset string) (defs : list decl) d :
  d ∈ remaining_decls split defs ↔ (decl_name d ∉ split) ∧ d ∈ defs.
Proof.
  unfold remaining_decls. apply (list_elem_of_filter (λ d, decl_name d ∉ split)).
Qed.

Lemma default_keeps_nothing (classes_ functions_ : list decl) :
  remaining_of None classes_ functions_
    (decl_name <$> classes_) (decl_name <$> functions_) = ([], []).
Proof.
  unfold remaining_of. simpl.
  rewrite !remaining_decls_none; [done|..];
    intros d Hd; apply elem_of_list_to_set; by apply list_elem_of_fmap_2.
Qed.

Lemma elem_of_foldl_union {A} (f : A → list string) (l : list A)
    (acc : gset string) n :
  n ∈ foldl (λ acc m, acc ∪ list_to_set (f m)) acc l
  ↔ n ∈ acc ∨ ∃ m, m ∈ l ∧ n ∈ f m.
Proof.
  revert acc. induction l as [|m l IH]; intros acc; simpl.
  - split; [by left|]. intros [?|(m & Hm & _)]; [done|]. by apply elem_of_nil in Hm.
  - rewrite IH, elem_of_union, elem_of_list_to_set. split.
    + intros [[?|?]|(m' & ? & ?)]; [by left| |]; right.
      * exists m. split; [by left|done].
      * exists m'. split; [by right|done].
    + intros [?|(m' & [->|?]%elem_of_cons & ?)]; [by left; left|by left; right|].
      right. by exists m'.
Qed.

Lemma elem_of_config_split_classes ms n :
  n ∈ config_split_classes ms ↔ ∃ m, m ∈ ms ∧ n ∈ classes (snd m).
Proof.
  unfold config_split_classes.
  rewrite (elem_of_foldl_union (λ m, classes (snd m))). set_solver.
Qed.

Lemma elem_of_config_split_functions ms n :
  n ∈ config_split_functions ms ↔ ∃ m, m ∈ ms ∧ n ∈ functions (snd m).
Proof.
  unfold config_split_functions.
  rewrite (elem_of_foldl_union (λ m, functions (snd m))). set_solver.
Qed.

Lemma elem_of_with_end_names (defs : list decl) n :
  n ∈ fst <$> with_end defs
  ↔ ∃ d, d ∈ defs ∧ decl_name d = n ∧ decl_end d ≠ None.
Proof.
  unfold with_end. rewrite list_elem_of_fmap. split.
  - intros (p & -> & (d & Hd & Hp)%list_elem_of_omap).
    exists d. split; [done|]. destruct (decl_end d) eqn:He; simpl in Hp; [|done].
    by injection Hp as <-.
  - intros (d & Hd & <- & He). destruct (decl_end d) as [e|] eqn:Hend; [|done].
    exists (decl_name d, (decl_start d, e)). split; [done|].
    apply list_elem_of_omap. exists d. by rewrite Hend.
Qed.

Lemma find_def_is_Some (defs : list decl) n :
  is_Some (find_def defs n)
  ↔ ∃ d, d ∈ defs ∧ decl_name d = n ∧ decl_end d ≠ None.
Proof.
  unfold find_def. split.
  - intros [p Hp].
    destruct (list_find _ defs) as [[i d]|] eqn:Hfind; simpl in Hp; [|done].
    apply list_find_Some in Hfind as (Hi & [Hn He] & _).
    exists d. split; [by eapply list_elem_of_lookup_2|done].
  - intros (d & Hd & Hn & He).
    destruct (list_find_elem_of (λ d, decl_name d = n ∧ decl_end d ≠ None) defs d)
      as [[i d'] Hfind]; [done..|].
    rewrite Hfind. simpl.
    apply list_find_Some in Hfind as (_ & [_ He'] & _).
    destruct (decl_end d'); [by eexists|done].
Qed.

Lemma elem_of_group_picks (defs : list decl) names listed n :
  n ∈ fst <$> group_picks defs names listed
  ↔ n ∈ listed ∧ n ∈ names ∧ is_Some (find_def defs n).
Proof.
  unfold group_picks. rewrite list_elem_of_fmap. split.
  - intros (p & -> & (n' & Hn' & Hp)%list_elem_of_omap).
    destruct (decide (n' ∈ names)); [|done].
    destruct (find_def defs n') as [se|] eqn:Hfind; simpl in Hp; [|done].
    injection Hp as <-. simpl. by rewrite Hfind.
  - intros (Hlisted & Hnames & [se Hfind]).
    exists (n, se). split; [done|]. apply list_elem_of_omap. exists n.
    split; [done|]. rewrite decide_True by done. by rewrite Hfind.
Qed.

Lemma elem_of_decl_names (defs : list decl) n :
  n ∈ decl_name <$> defs ↔ ∃ d, d ∈ defs ∧ decl_name d = n.
Proof. rewrite list_elem_of_fmap. naive_solver. Qed.

(** The members of the residual file are the declarations that stay and
    have an end line. *)
Lemma elem_of_residual_members config (classes_ functions_ : list decl)
    class_names function_names n :
  n ∈ residual_members config classes_ functions_ class_names function_names
  ↔ ∃ d, decl_name d = n ∧ decl_end d ≠ None
         ∧ (d ∈ (remaining_of config classes_ functions_ class_names function_names).1
            ∨ d ∈ (remaining_of config classes_ functions_
                     class_names function_names).2).
Proof.
  unfold residual_members.
  destruct (remaining_of _ _ _ _ _) as [rc rf]. simpl.
  rewrite fmap_app, elem_of_app, !elem_of_with_end_names. naive_solver.
Qed.

(** The text of the members is what the residual file is made of. *)
Lemma remaining_parts_with_end lines (remaining : list decl) :
  remaining_parts lines remaining
  = flat_map (λ p, [extract_code lines (fst (snd p)) (snd (snd p)); EmptyString])
      (with_end remaining).
Proof.
  unfold remaining_parts, with_end.
  induction remaining as [|d rest IH]; [done|]. simpl.
  destruct (decl_end d); simpl; by rewrite IH.
Qed.

Lemma elem_of_remaining_parts lines (remaining : list decl) d e :
  d ∈ remaining → decl_end d = Some e →
  extract_code lines (decl_start d) e ∈ remaining_parts lines remaining.
Proof.
  intros Hd He. unfold remaining_parts. apply list_elem_of_In, in_flat_map.
  exists d. split; [by apply list_elem_of_In|]. rewrite He. by left.
Qed.

Lemma elem_of_option_list {A} (mx : option A) (x : A) :
  x ∈ option_list mx ↔ mx = Some x.
Proof.
  destruct mx as [y|]; simpl.
  - rewrite list_elem_of_singleton. naive_solver.
  - split; [by intros ?%elem_of_nil|done].
Qed.

Lemma elem_of_class_units lines imports class_used (classes_ : list decl) u :
  u ∈ omap (class_unit lines imports class_used) classes_ →
  ∃ d, d ∈ classes_ ∧ decl_end d ≠ None
       ∧ unit_name u = decl_name d ∧ unit_members u = [decl_name d].
Proof.
  intros (d & Hd & Hu)%list_elem_of_omap. exists d. split; [done|].
  unfold class_unit in Hu. destruct (decl_end d); [|done]. by injection Hu as <-.
Qed.

Lemma class_unit_exists lines imports class_used (classes_ : list decl) d :
  d ∈ classes_ → decl_end d ≠ None →
  ∃ u, u ∈ omap (class_unit lines imports class_used) classes_
       ∧ unit_name u = decl_name d ∧ unit_members u = [decl_name d].
Proof.
  intros Hd He. destruct (decl_end d) as [e|] eqn:Hend; [|done].
  eexists. split; [apply list_elem_of_omap; exists d; split; [done|]|].
  - unfold class_unit. by rewrite Hend.
  - done.
Qed.

Lemma functions_unit_Some lines imports func_used (functions_ : list decl) u :
  functions_unit lines imports func_used functions_ = Some u →
  unit_name u = "functions" ∧ unit_members u = fst <$> with_end functions_.
Proof. unfold functions_unit. destruct functions_; [done|]. by intros [= <-]. Qed.

Lemma functions_unit_exists lines imports func_used (functions_ : list decl) d :
  d ∈ functions_ → is_Some (functions_unit lines imports func_used functions_).
Proof.
  unfold functions_unit. destruct functions_; [by intros ?%elem_of_nil|by eexists].
Qed.

Section ResidualFile.

Variable ast_parse : string → option Module_.

(** C8. In default mode nothing stays in the residual file.
    When the source has a module docstring, the residual file is, line by
    line: the docstring - its value put between triple double quotes, which
    is the text of the source only when the source wrote it that way - an
    empty line, the import block of the source with an empty line after it
    when there are imports, one import line per class and one for the
    functions when there are any; no declaration text and no explanatory
    comment block.  So the docstring is its only content exactly when the
    source has no import and no declaration.  When the source has no
    function, the partition units are the class units alone: no functions
    unit is emitted. *)
Theorem default_residual_content code lines imports
    (classes_ functions_ : list decl) doc :
  _extract_module_docstring ast_parse code = Some doc →
  let class_names := decl_name <$> classes_ in
  let function_names := decl_name <$> functions_ in
  let residual :=
    create_shrunk_original ast_parse code lines imports classes_ functions_ None
      class_names function_names in
  residual
  = join nl
      ([doc; EmptyString]
       ++ (match imports with [] => [] | _ => imports ++ [EmptyString] end)
       ++ ((λ c, "from ." +:+ c +:+ " import " +:+ c) <$> class_names)
       ++ (match function_names with
           | [] => []
           | _ => ["from .functions import " +:+ join ", " function_names]
           end))
    +:+ nl
  ∧ (∃ value, doc = triple_dq +:+ value +:+ triple_dq)
  ∧ (imports = [] → classes_ = [] → functions_ = [] → residual = doc +:+ nl +:+ nl)
  ∧ (functions_ = [] →
     ∀ class_used func_used,
       partition_units lines imports classes_ functions_ None
         class_names function_names class_used func_used
       = omap (class_unit lines imports class_used) classes_)
  ∧ (∀ class_used u,
       u ∈ omap (class_unit lines imports class_used) classes_ →
       ∃ d, d ∈ classes_ ∧ decl_end d ≠ None
            ∧ unit_name u = decl_name d ∧ unit_members u = [decl_name d]).
Proof.
  intros Hdoc class_names function_names residual.
  assert (Hres : residual
    = join nl (minimal_parts ast_parse code imports None class_names function_names)
      +:+ nl).
  { unfold residual, create_shrunk_original, class_names, function_names.
    by rewrite default_keeps_nothing. }
  unfold minimal_parts in Hres. rewrite Hdoc in Hres.
  split; [exact Hres|]. split; [|split; [|split]].
  - clear Hres. unfold _extract_module_docstring in Hdoc.
    repeat case_match; try done. injection Hdoc as <-. eexists. reflexivity.
  - intros -> Hc Hf. rewrite Hres. unfold class_names, function_names.
    rewrite Hc, Hf. simpl. by rewrite append_assoc.
  - intros -> class_used func_used. unfold partition_units, functions_unit. simpl.
    by rewrite app_nil_r.
  - intros class_used u. apply elem_of_class_units.
Qed.

End ResidualFile.

(** The names beside the texts.  When every declaration has an end line, a
    name is among the members of a unit or of the residual file exactly
    when it is the name of a top-level class or function; and no name is a
    member of two units of different names - in config mode when every
    name is listed by the groups of one unit at most, in default mode when
    no class has the name of a function. *)
Lemma members_complete_no_duplicates lines imports
    (classes_ functions_ : list decl) config class_used func_used :
  let class_names := decl_name <$> classes_ in
  let function_names := decl_name <$> functions_ in
  (∀ d, d ∈ classes_ ++ functions_ → decl_end d ≠ None) →
  match config with
  | Some ms => one_group_per_name ms
  | None => ∀ n, n ∈ class_names → n ∉ function_names
  end →
  let units :=
    partition_units lines imports classes_ functions_ config
      class_names function_names class_used func_used in
  (∀ n, (∃ u, u ∈ units ∧ n ∈ unit_members u)
        ∨ n ∈ residual_members config classes_ functions_ class_names function_names
        ↔ n ∈ class_names ++ function_names)
  ∧ (∀ u1 u2 n, u1 ∈ units → u2 ∈ units →
       n ∈ unit_members u1 → n ∈ unit_members u2 → unit_name u1 = unit_name u2).
Proof.
  intros class_names function_names Hend Hmode units.
  assert (Hendc : ∀ d, d ∈ classes_ → decl_end d ≠ None)
    by (intros; apply Hend, elem_of_app; by left).
  assert (Hendf : ∀ d, d ∈ functions_ → decl_end d ≠ None)
    by (intros; apply Hend, elem_of_app; by right).
  destruct config as [ms|]; unfold units, partition_units.
  - (* config mode *)
    split.
    + intros n. rewrite elem_of_app. unfold class_names, function_names.
      rewrite !elem_of_decl_names. split.
      * intros [(u & Hu & Hn)|Hres].
        -- apply list_elem_of_fmap in Hu as (m & -> & Hm). simpl in Hn.
           apply elem_of_app in Hn as [Hn|Hn];
             apply elem_of_group_picks in Hn as (_ & Hn & _);
             apply elem_of_decl_names in Hn; auto.
        -- apply elem_of_residual_members in Hres as (d & <- & _ & Hd).
           unfold remaining_of in Hd. simpl in Hd.
           destruct Hd as [Hd|Hd]; apply elem_of_remaining_decls in Hd as [_ Hd];
             [left|right]; by exists d.
      * intros [(d & Hd & <-)|(d & Hd & <-)].
        -- destruct (decide (decl_name d ∈ config_split_classes ms)) as [Hs|Hs].
           ++ left. apply elem_of_config_split_classes in Hs as (m & Hm & Hl).
              eexists. split; [apply list_elem_of_fmap_2, Hm|]. simpl.
              apply elem_of_app. left. apply elem_of_group_picks.
              split; [done|]. split; [by apply list_elem_of_fmap_2|].
              apply find_def_is_Some. exists d. auto.
           ++ right. apply elem_of_residual_members. exists d.
              split; [done|]. split; [auto|]. left. unfold remaining_of. simpl.
              by apply elem_of_remaining_decls.
        -- destruct (decide (decl_name d ∈ config_split_functions ms)) as [Hs|Hs].
           ++ left. apply elem_of_config_split_functions in Hs as (m & Hm & Hl).
              eexists. split; [apply list_elem_of_fmap_2, Hm|]. simpl.
              apply elem_of_app. right. apply elem_of_group_picks.
              split; [done|]. split; [by apply list_elem_of_fmap_2|].
              apply find_def_is_Some. exists d. auto.
           ++ right. apply elem_of_residual_members. exists d.
              split; [done|]. split; [auto|]. right. unfold remaining_of. simpl.
              by apply elem_of_remaining_decls.
    + intros u1 u2 n Hu1 Hu2 Hn1 Hn2.
      apply list_elem_of_fmap in Hu1 as (m1 & -> & Hm1).
      apply list_elem_of_fmap in Hu2 as (m2 & -> & Hm2). simpl in *.
      apply (Hmode m1 m2 n); [done..| |].
      * apply elem_of_app.
        apply elem_of_app in Hn1 as [Hn|Hn];
          apply elem_of_group_picks in Hn as (Hn & _); auto.
      * apply elem_of_app.
        apply elem_of_app in Hn2 as [Hn|Hn];
          apply elem_of_group_picks in Hn as (Hn & _); auto.
  - (* default mode *)
    assert (Hresidual : residual_members None classes_ functions_
                          class_names function_names = []).
    { unfold residual_members, class_names, function_names.
      by rewrite default_keeps_nothing. }
    split.
    + intros n. rewrite Hresidual, elem_of_app. unfold class_names, function_names.
      rewrite !elem_of_decl_names. split.
      * intros [(u & Hu & Hn)|Hn]; [|by apply elem_of_nil in Hn].
        apply elem_of_app in Hu as [Hu|Hu].
        -- apply elem_of_class_units in Hu as (d & Hd & _ & _ & Hm).
           rewrite Hm in Hn. apply list_elem_of_singleton in Hn as ->.
           left. by exists d.
        -- apply elem_of_option_list in Hu.
           apply functions_unit_Some in Hu as [_ Hm]. rewrite Hm in Hn.
           apply elem_of_with_end_names in Hn as (d & Hd & Hname & _).
           right. by exists d.
      * intros [(d & Hd & <-)|(d & Hd & <-)]; left.
        -- destruct (class_unit_exists lines imports class_used classes_ d)
             as (u & Hu & _ & Hm); [auto..|].
           exists u. split; [apply elem_of_app; by left|].
           rewrite Hm. by apply list_elem_of_singleton.
        -- destruct (functions_unit_exists lines imports func_used functions_ d Hd)
             as [u Hu].
           exists u. split; [apply elem_of_app; right; by apply elem_of_option_list|].
           apply functions_unit_Some in Hu as [_ ->].
           apply elem_of_with_end_names. exists d. auto.
    + assert (Hclass : ∀ u n,
        u ∈ omap (class_unit lines imports class_used) classes_ →
        n ∈ unit_members u → n = unit_name u ∧ n ∈ class_names).
      { intros u n Hu Hn. apply elem_of_class_units in Hu as (d & Hd & _ & Hname & Hm).
        rewrite Hm in Hn. apply list_elem_of_singleton in Hn as ->.
        split; [done|]. by apply list_elem_of_fmap_2. }
      assert (Hfun : ∀ u n,
        u ∈ option_list (functions_unit lines imports func_used functions_) →
        n ∈ unit_members u → unit_name u = "functions" ∧ n ∈ function_names).
      { intros u n Hu Hn. apply elem_of_option_list in Hu.
        apply functions_unit_Some in Hu as [Hname Hm]. split; [done|].
        rewrite Hm in Hn. apply elem_of_with_end_names in Hn as (d & Hd & <- & _).
        by apply list_elem_of_fmap_2. }
      intros u1 u2 n Hu1 Hu2 Hn1 Hn2.
      apply elem_of_app in Hu1 as [Hu1|Hu1]; apply elem_of_app in Hu2 as [Hu2|Hu2].
      * destruct (Hclass _ _ Hu1 Hn1) as [<- _].
        by destruct (Hclass _ _ Hu2 Hn2) as [<- _].
      * destruct (Hclass _ _ Hu1 Hn1) as [_ Hc].
        destruct (Hfun _ _ Hu2 Hn2) as [_ Hf]. by destruct (Hmode n).
      * destruct (Hclass _ _ Hu2 Hn2) as [_ Hc].
        destruct (Hfun _ _ Hu1 Hn1) as [_ Hf]. by destruct (Hmode n).
      * destruct (Hfun _ _ Hu1 Hn1) as [-> _].
        by destruct (Hfun _ _ Hu2 Hn2) as [-> _].
Qed.

(** ** The text of the units *)

(** The slice that [extract_code] takes is the lines of the span. *)
Lemma py_slice_source_lines (lines : list string) (s e : Z) :
  1 ≤ s → 0 ≤ e → py_slice lines (s - 1) e = source_lines lines s e.
Proof.
  intros Hs He. unfold py_slice, source_lines, slice_bound. cbv zeta.
  assert ((s - 1 <? 0) = false) as -> by lia.
  assert ((e <? 0) = false) as -> by lia.
  destruct (decide (Z.of_nat (length lines) ≤ s - 1)) as [Hout|Hin].
  - rewrite (Z.min_r (s - 1)) by lia. rewrite (drop_ge lines (Z.to_nat (s - 1))) by lia.
    rewrite (drop_ge lines (Z.to_nat (Z.of_nat (length lines)))) by lia.
    by rewrite !take_nil.
  - rewrite (Z.min_l (s - 1)) by lia.
    destruct (decide (e ≤ Z.of_nat (length lines))) as [Hle|Hgt].
    + rewrite (Z.min_l e) by lia. do 2 f_equal. lia.
    + rewrite (Z.min_r e) by lia.
      rewrite (take_ge (drop _ _) (Z.to_nat (e - s + 1))) by (rewrite length_drop; lia).
      by rewrite take_ge by (rewrite length_drop; lia).
Qed.

Lemma extract_code_text (lines : list string) (d : decl) e :
  span_ok d → decl_end d = Some e →
  extract_code lines (decl_start d) e = declaration_text lines d.
Proof.
  intros Hspan He. destruct (Hspan e He) as [H1 H2].
  unfold extract_code, declaration_text. rewrite He.
  by rewrite py_slice_source_lines by lia.
Qed.

Lemma concat_cons (x : string) (xs : list string) :
  String.concat EmptyString (x :: xs) = x +:+ String.concat EmptyString xs.
Proof. destruct xs; simpl; [by rewrite append_nil_r|done]. Qed.

Lemma concat_app (xs ys : list string) :
  String.concat EmptyString (xs ++ ys)
  = String.concat EmptyString xs +:+ String.concat EmptyString ys.
Proof.
  induction xs as [|x xs IH]; [done|].
  change ((x :: xs) ++ ys) with (x :: (xs ++ ys)).
  by rewrite !concat_cons, IH, append_assoc.
Qed.

Lemma declaration_block_app lines (ds1 ds2 : list decl) :
  declaration_block lines (ds1 ++ ds2)
  = declaration_block lines ds1 +:+ declaration_block lines ds2.
Proof. unfold declaration_block. by rewrite fmap_app, concat_app. Qed.

Lemma line_block_app (l1 l2 : list string) :
  line_block (l1 ++ l2) = line_block l1 +:+ line_block l2.
Proof. unfold line_block. by rewrite fmap_app, concat_app. Qed.

Lemma span_decl_eq (d : decl) e :
  decl_end d = Some e → span_decl (decl_name d, (decl_start d, e)) = d.
Proof. destruct d as [[n s] e']. simpl. by intros ->. Qed.

Lemma find_def_decl (defs : list decl) n se :
  find_def defs n = Some se → span_decl (n, se) ∈ defs.
Proof.
  unfold find_def. intros Hfind.
  destruct (list_find _ defs) as [[i d]|] eqn:Hlist; simpl in Hfind; [|done].
  apply list_find_Some in Hlist as (Hi & [Hn He] & _).
  destruct (decl_end d) as [e|] eqn:Hend; [|done]. injection Hfind as <-.
  rewrite <- Hn, (span_decl_eq d e Hend). by eapply list_elem_of_lookup_2.
Qed.

Lemma elem_of_group_picks_decl (defs : list decl) names listed p :
  p ∈ group_picks defs names listed → span_decl p ∈ defs ∧ p.1 ∈ listed.
Proof.
  unfold group_picks. intros (n & Hn & Hp)%list_elem_of_omap.
  destruct (decide (n ∈ names)); [|done].
  destruct (find_def defs n) as [se|] eqn:Hfind; simpl in Hp; [|done].
  injection Hp as <-. split; [by apply find_def_decl|done].
Qed.

Lemma elem_of_with_end_decl (defs : list decl) p :
  p ∈ with_end defs → span_decl p ∈ defs.
Proof.
  unfold with_end. intros (d & Hd & Hp)%list_elem_of_omap.
  destruct (decl_end d) as [e|] eqn:Hend; simpl in Hp; [|done].
  injection Hp as <-. by rewrite (span_decl_eq d e Hend).
Qed.

Lemma with_end_cons (d : decl) (defs : list decl) :
  with_end (d :: defs)
  = match decl_end d with
    | Some e => (decl_name d, (decl_start d, e)) :: with_end defs
    | None => with_end defs
    end.
Proof. unfold with_end. simpl. by destruct (decl_end d). Qed.

Lemma with_end_all (defs : list decl) :
  (∀ d, d ∈ defs → decl_end d ≠ None) → span_decl <$> with_end defs = defs.
Proof.
  induction defs as [|d defs IH]; intros Hend; [done|]. rewrite with_end_cons.
  destruct (decl_end d) as [e|] eqn:He; [|by destruct (Hend d); [left|]].
  rewrite fmap_cons, (span_decl_eq d e He), IH; [done|].
  intros d' Hd'. apply Hend. by right.
Qed.

Lemma picks_code_block lines (picks : list (string * (Z * Z))) :
  (∀ p, p ∈ picks → span_ok (span_decl p)) →
  picks_code lines picks = declaration_block lines (span_decl <$> picks).
Proof.
  unfold picks_code, declaration_block. intros Hspan. f_equal.
  rewrite <- list_fmap_compose. apply Forall_fmap_ext_1, Forall_forall.
  intros p Hp. simpl. by rewrite <- (extract_code_text lines (span_decl p) p.2.2 (Hspan p Hp)).
Qed.

Lemma decl_name_span_decl (picks : list (string * (Z * Z))) :
  decl_name <$> (span_decl <$> picks) = fst <$> picks.
Proof. rewrite <- list_fmap_compose. by apply Forall_fmap_ext_1, Forall_forall. Qed.

(** The import lines of a unit are lines, each a relative import. *)
Lemma unit_import_lines (names : list string) :
  String.concat EmptyString ((λ uc, "from ." +:+ uc +:+ " import " +:+ uc +:+ nl) <$> names)
  = line_block ((λ uc, "from ." +:+ uc +:+ " import " +:+ uc) <$> names)
  ∧ Forall (λ l, startswith l "from ." = true)
      ((λ uc, "from ." +:+ uc +:+ " import " +:+ uc) <$> names).
Proof.
  split.
  - unfold line_block. rewrite <- list_fmap_compose. f_equal.
    apply Forall_fmap_ext_1, Forall_forall. intros uc _. simpl.
    by rewrite !append_assoc.
  - apply Forall_fmap, Forall_forall. intros uc _. apply prefix_append.
Qed.

Lemma class_import_lines_block (b : list string * list string) :
  ∃ synthesized,
    Forall (λ l, startswith l "from ." = true) synthesized
    ∧ class_import_lines b = line_block synthesized.
Proof.
  destruct (unit_import_lines b.1) as [Heq Hall].
  exists (((λ uc, "from ." +:+ uc +:+ " import " +:+ uc) <$> b.1)
          ++ match b.2 with
             | [] => []
             | _ => ["from .functions import " +:+ join ", " b.2]
             end).
  split.
  - apply Forall_app. split; [done|]. destruct b.2; [done|].
    apply Forall_singleton. apply (prefix_append "from ." _).
  - unfold class_import_lines. rewrite line_block_app, Heq. f_equal.
    destruct b.2; [done|]. unfold line_block. simpl. by rewrite !append_assoc.
Qed.

(** What the unit of a group is written from. *)
Lemma group_unit_written lines imports (classes_ functions_ : list decl)
    class_names function_names (m : string * module_items) :
  Forall span_ok (classes_ ++ functions_) →
  let u := group_unit lines imports classes_ functions_ class_names function_names m in
  let ds := span_decl <$> (group_picks classes_ class_names (classes m.2)
                           ++ group_picks functions_ function_names (functions m.2)) in
  written_from lines imports (unit_content u) ds
  ∧ decl_name <$> ds = unit_members u
  ∧ ∀ d, d ∈ ds →
      d ∈ classes_ ++ functions_
      ∧ (decl_name d ∈ classes m.2 ∨ decl_name d ∈ functions m.2).
Proof.
  intros Hspan u ds. rewrite Forall_forall in Hspan.
  assert (Hpicks : ∀ p,
    p ∈ group_picks classes_ class_names (classes m.2)
        ++ group_picks functions_ function_names (functions m.2) →
    span_decl p ∈ classes_ ++ functions_
    ∧ (p.1 ∈ classes m.2 ∨ p.1 ∈ functions m.2)).
  { intros p [Hp|Hp]%elem_of_app; apply elem_of_group_picks_decl in Hp as [Hin Hl];
      (split; [apply elem_of_app|]); auto. }
  split; [|split].
  - unfold u, group_unit, ds. cbn [unit_content].
    rewrite !picks_code_block.
    + rewrite <- declaration_block_app, <- fmap_app. constructor.
    + intros p Hp. apply Hspan, Hpicks, elem_of_app. by right.
    + intros p Hp. apply Hspan, Hpicks, elem_of_app. by left.
  - unfold ds, u, group_unit. cbn [unit_members].
    by rewrite decl_name_span_decl, fmap_app.
  - intros d (p & -> & Hp)%list_elem_of_fmap. by apply Hpicks.
Qed.

Lemma omap_cons_Some {A B} (f : A → option B) x l y :
  f x = Some y → omap f (x :: l) = y :: omap f l.
Proof. intros Hf. simpl. by rewrite Hf. Qed.

(** What the units of the classes are written from. *)
Lemma class_units_written lines imports class_used (classes_ : list decl) :
  Forall span_ok classes_ →
  (∀ d, d ∈ classes_ → decl_end d ≠ None) →
  Forall2 (λ u ds, written_from lines imports (unit_content u) ds
                   ∧ decl_name <$> ds = unit_members u
                   ∧ ∀ d, d ∈ ds → d ∈ classes_)
    (omap (class_unit lines imports class_used) classes_)
    ((λ d, [d]) <$> classes_).
Proof.
  induction classes_ as [|d classes_ IH]; intros Hspan Hend; [constructor|].
  apply Forall_cons in Hspan as [Hd Hspan].
  destruct (decl_end d) as [e|] eqn:He; [|by destruct (Hend d); [left|]].
  rewrite (omap_cons_Some _ d classes_
             {| unit_name := decl_name d;
                unit_members := [decl_name d];
                unit_content :=
                  join nl imports +:+ nl
                  +:+ class_import_lines (default ([], []) (class_used !! decl_name d))
                  +:+ nl +:+ extract_code lines (decl_start d) e |})
    by (unfold class_unit; by rewrite He).
  rewrite fmap_cons. constructor.
  - split; [|split; [done|]].
    + cbn [unit_content].
      destruct (class_import_lines_block (default ([], []) (class_used !! decl_name d)))
        as (synthesized & Hall & ->).
      rewrite (extract_code_text lines d e Hd He). by constructor.
    + intros d' ->%list_elem_of_singleton. by left.
  - eapply Forall2_impl.
    + apply IH; [done|]. intros d' Hd'. apply Hend. by right.
    + intros u ds (Hw & Hn & Hin). split; [done|]. split; [done|].
      intros d' Hd'. right. by apply Hin.
Qed.

(** What the shared unit of the functions is written from. *)
Lemma functions_unit_written lines imports func_used (functions_ : list decl) u :
  Forall span_ok functions_ →
  (∀ d, d ∈ functions_ → decl_end d ≠ None) →
  functions_unit lines imports func_used functions_ = Some u →
  written_from lines imports (unit_content u) functions_
  ∧ decl_name <$> functions_ = unit_members u.
Proof.
  intros Hspan Hend Hu. rewrite Forall_forall in Hspan.
  pose proof (with_end_all functions_ Hend) as Hall.
  assert (Hcode : picks_code lines (with_end functions_)
                  = declaration_block lines functions_).
  { rewrite picks_code_block, Hall; [done|].
    intros p Hp. by apply Hspan, elem_of_with_end_decl. }
  assert (Hu' : u = {| unit_name := "functions";
                       unit_members := fst <$> with_end functions_;
                       unit_content :=
                         join nl imports +:+ nl
                         +:+ String.concat EmptyString
                               ((λ uc, "from ." +:+ uc +:+ " import " +:+ uc +:+ nl)
                                  <$> elements func_used)
                         +:+ nl +:+ picks_code lines (with_end functions_) |}).
  { unfold functions_unit in Hu. destruct functions_; [done|]. by injection Hu as <-. }
  rewrite Hu'. cbn [unit_content unit_members]. split.
  - rewrite Hcode. destruct (unit_import_lines (elements func_used)) as [-> Hfrom].
    by constructor.
  - by rewrite <- decl_name_span_decl, Hall.
Qed.

(** What the units of a run are written from, in both modes. *)
Lemma partition_units_written lines imports (classes_ functions_ : list decl)
    config class_names function_names class_used func_used :
  Forall span_ok (classes_ ++ functions_) →
  (config = None → ∀ d, d ∈ classes_ ++ functions_ → decl_end d ≠ None) →
  ∃ placed,
    Forall2 (λ u ds,
               written_from lines imports (unit_content u) ds
               ∧ decl_name <$> ds = unit_members u
               ∧ ∀ d, d ∈ ds →
                   d ∈ classes_ ++ functions_
                   ∧ match config with
                     | Some ms => config_names ms (decl_name d)
                     | None => True
                     end)
      (partition_units lines imports classes_ functions_ config
         class_names function_names class_used func_used)
      placed.
Proof.
  intros Hspan Hend. unfold partition_units. destruct config as [ms|].
  - exists ((λ m, span_decl <$> (group_picks classes_ class_names (classes m.2)
                                 ++ group_picks functions_ function_names
                                      (functions m.2))) <$> ms).
    apply Forall2_fmap, Forall_Forall2_diag, Forall_forall. intros m Hm.
    destruct (group_unit_written lines imports classes_ functions_
                class_names function_names m Hspan) as (Hw & Hn & Hin).
    split; [done|]. split; [done|]. intros d Hd. destruct (Hin d Hd) as [? Hl].
    split; [done|]. by exists m.
  - specialize (Hend eq_refl). apply Forall_app in Hspan as [Hsc Hsf].
    exists (((λ d, [d]) <$> classes_)
            ++ match functions_ with [] => [] | _ => [functions_] end).
    apply Forall2_app.
    + eapply Forall2_impl.
      * apply class_units_written; [done|].
        intros d Hd. apply Hend, elem_of_app. by left.
      * intros u ds (Hw & Hn & Hin). split; [done|]. split; [done|]. intros d Hd.
        split; [|done]. apply elem_of_app. left. by apply Hin.
    + destruct (functions_unit lines imports func_used functions_) as [u|] eqn:Hu.
      * destruct (functions_unit_written lines imports func_used functions_ u)
          as [Hw Hn]; [done| |done|].
        { intros d Hd. apply Hend, elem_of_app. by right. }
        destruct functions_ as [|f functions_]; [done|]. simpl.
        constructor; [|constructor]. split; [done|]. split; [done|].
        intros d Hd. split; [|done]. apply elem_of_app. by right.
      * unfold functions_unit in Hu. destruct functions_; [constructor|done].
Qed.

Lemma NoDup_fmap_elem_inj {A B} (f : A → B) (l : list A) x y :
  NoDup (f <$> l) → x ∈ l → y ∈ l → f x = f y → x = y.
Proof.
  induction l as [|z l IH]; [by intros _ ?%elem_of_nil|].
  rewrite fmap_cons. intros [Hz Hnd]%NoDup_cons [->|Hx]%elem_of_cons [->|Hy]%elem_of_cons Hf.
  - done.
  - destruct Hz. rewrite Hf. by apply list_elem_of_fmap_2.
  - destruct Hz. rewrite <- Hf. by apply list_elem_of_fmap_2.
  - by apply IH.
Qed.

Lemma Forall2_exists_r {A B} (R : A → B → Prop) (l : list A) (k : list B) y :
  Forall2 R l k → y ∈ k → ∃ x, x ∈ l ∧ R x y.
Proof.
  induction 1 as [|x y' l k HR _ IH]; [by intros ?%elem_of_nil|].
  intros [->|Hy]%elem_of_cons.
  - exists x. split; [by left|done].
  - destruct (IH Hy) as (x' & Hx' & HR'). exists x'. split; [by right|done].
Qed.

Lemma Forall2_exists_l {A B} (R : A → B → Prop) (l : list A) (k : list B) x :
  Forall2 R l k → x ∈ l → ∃ y, y ∈ k ∧ R x y.
Proof.
  induction 1 as [|x' y l k HR _ IH]; [by intros ?%elem_of_nil|].
  intros [->|Hx]%elem_of_cons.
  - exists y. split; [by left|done].
  - destruct (IH Hx) as (y' & Hy' & HR'). exists y'. split; [by right|done].
Qed.

(** ** The dependency analyzer *)

(** Induction on syntax trees, with the hypothesis for every child. *)
Lemma node_ind' (P : node → Prop) :
  (∀ id ctx, P (Name id ctx)) →
  (∀ value, P (Constant value)) →
  (∀ value, P value → P (Expr value)) →
  (∀ names, P (Import names)) →
  (∀ module names level, P (ImportFrom module names level)) →
  (∀ name lineno end_lineno ds ch,
     Forall (λ d, P (snd d)) ds → Forall P ch →
     P (ClassDef name lineno end_lineno ds ch)) →
  (∀ name lineno end_lineno ds ch,
     Forall (λ d, P (snd d)) ds → Forall P ch →
     P (FunctionDef name lineno end_lineno ds ch)) →
  (∀ name lineno end_lineno ds ch,
     Forall (λ d, P (snd d)) ds → Forall P ch →
     P (AsyncFunctionDef name lineno end_lineno ds ch)) →
  (∀ ch, Forall P ch → P (Other ch)) →
  ∀ n, P n.
Proof.
  intros HName HConstant HExpr HImport HImportFrom HClass HFunction HAsync HOther.
  fix IH 1. intros [id ctx|value|value|names|module names level
                    |name lineno end_lineno ds ch
                    |name lineno end_lineno ds ch
                    |name lineno end_lineno ds ch
                    |ch].
  - apply HName.
  - apply HConstant.
  - apply HExpr, IH.
  - apply HImport.
  - apply HImportFrom.
  - apply HClass.
    + induction ds as [|d ds IHds]; constructor; [apply IH|exact IHds].
    + induction ch as [|c ch IHch]; constructor; [apply IH|exact IHch].
  - apply HFunction.
    + induction ds as [|d ds IHds]; constructor; [apply IH|exact IHds].
    + induction ch as [|c ch IHch]; constructor; [apply IH|exact IHch].
  - apply HAsync.
    + induction ds as [|d ds IHds]; constructor; [apply IH|exact IHds].
    + induction ch as [|c ch IHch]; constructor; [apply IH|exact IHch].
  - apply HOther.
    induction ch as [|c ch IHch]; constructor; [apply IH|exact IHch].
Qed.

Lemma elem_of_union_list_map {A} (f : A → gset string) (l : list A) x :
  x ∈ ⋃ (List.map f l) ↔ ∃ y, y ∈ l ∧ x ∈ f y.
Proof.
  induction l as [|y l IH]; simpl.
  - split; [by intros ?%elem_of_empty|]. by intros (y & ?%elem_of_nil & _).
  - rewrite elem_of_union, IH. split.
    + intros [?|(y' & ? & ?)]; [exists y|exists y']; split; try done; by constructor.
    + intros (y' & [->|?]%elem_of_cons & ?); [by left|right; by exists y'].
Qed.

(** The collector finds exactly the names that are read below a node. *)
Lemma used_names_reads x n : x ∈ used_names n ↔ reads x n.
Proof.
  split.
  - revert n. apply (node_ind' (λ n, x ∈ used_names n → reads x n)).
    + intros id [] Hx; simpl in Hx; try by apply elem_of_empty in Hx.
      apply elem_of_singleton in Hx as ->. constructor.
    + intros value Hx. by apply elem_of_empty in Hx.
    + intros value IH Hx. constructor. by apply IH.
    + intros names Hx. by apply elem_of_empty in Hx.
    + intros module names level Hx. by apply elem_of_empty in Hx.
    + intros name lineno end_lineno ds ch Hds Hch Hx. simpl in Hx.
      rewrite elem_of_union, !elem_of_union_list_map in Hx.
      destruct Hx as [(d & Hd & Hx)|(c & Hc & Hx)].
      * eapply reads_ClassDef_decorator; [done|].
        rewrite Forall_forall in Hds. by apply Hds.
      * eapply reads_ClassDef_child; [done|].
        rewrite Forall_forall in Hch. by apply Hch.
    + intros name lineno end_lineno ds ch Hds Hch Hx. simpl in Hx.
      rewrite elem_of_union, !elem_of_union_list_map in Hx.
      destruct Hx as [(d & Hd & Hx)|(c & Hc & Hx)].
      * eapply reads_FunctionDef_decorator; [done|].
        rewrite Forall_forall in Hds. by apply Hds.
      * eapply reads_FunctionDef_child; [done|].
        rewrite Forall_forall in Hch. by apply Hch.
    + intros name lineno end_lineno ds ch Hds Hch Hx. simpl in Hx.
      rewrite elem_of_union, !elem_of_union_list_map in Hx.
      destruct Hx as [(d & Hd & Hx)|(c & Hc & Hx)].
      * eapply reads_AsyncFunctionDef_decorator; [done|].
        rewrite Forall_forall in Hds. by apply Hds.
      * eapply reads_AsyncFunctionDef_child; [done|].
        rewrite Forall_forall in Hch. by apply Hch.
    + intros ch Hch Hx. simpl in Hx. rewrite elem_of_union_list_map in Hx.
      destruct Hx as (c & Hc & Hx). eapply reads_Other; [done|].
      rewrite Forall_forall in Hch. by apply Hch.
  - induction 1 as [|v _ IH
                    |name lineno end_lineno ds ch d Hd _ IH
                    |name lineno end_lineno ds ch c Hc _ IH
                    |name lineno end_lineno ds ch d Hd _ IH
                    |name lineno end_lineno ds ch c Hc _ IH
                    |name lineno end_lineno ds ch d Hd _ IH
                    |name lineno end_lineno ds ch c Hc _ IH
                    |ch c Hc _ IH]; simpl.
    + by apply elem_of_singleton.
    + done.
    + apply elem_of_union. left. apply elem_of_union_list_map. by exists d.
    + apply elem_of_union. right. apply elem_of_union_list_map. by exists c.
    + apply elem_of_union. left. apply elem_of_union_list_map. by exists d.
    + apply elem_of_union. right. apply elem_of_union_list_map. by exists c.
    + apply elem_of_union. left. apply elem_of_union_list_map. by exists d.
    + apply elem_of_union. right. apply elem_of_union_list_map. by exists c.
    + apply elem_of_union_list_map. by exists c.
Qed.

(** The buckets of a class hold the class names and the function names
    that the class reads, each once. *)
Lemma class_buckets_spec class_names function_names name stmt :
  let b := class_buckets class_names function_names name (used_names stmt) in
  (∀ n, n ∈ fst b ↔ n ∈ class_names ∧ n ≠ name ∧ reads n stmt)
  ∧ (∀ n, n ∈ snd b ↔ n ∈ function_names ∧ reads n stmt)
  ∧ NoDup (fst b) ∧ NoDup (snd b).
Proof.
  unfold class_buckets. simpl. split; [|split; [|split]].
  - intros n. rewrite list_elem_of_filter, elem_of_elements, used_names_reads.
    naive_solver.
  - intros n. rewrite list_elem_of_filter, elem_of_elements, used_names_reads.
    naive_solver.
  - apply NoDup_filter, NoDup_elements.
  - apply NoDup_filter, NoDup_elements.
Qed.

Lemma class_used_of_foldl tree class_names function_names :
  class_used_of tree class_names function_names
  = foldl (class_used_step class_names function_names) ∅ tree.
Proof. reflexivity. Qed.

Lemma class_used_later class_names function_names post acc A :
  A ∉ decl_name <$> omap class_decl post →
  foldl (class_used_step class_names function_names) acc post !! A = acc !! A.
Proof.
  revert acc. induction post as [|s post IH]; intros acc Hno; [done|]. simpl.
  assert (Hpost : A ∉ decl_name <$> omap class_decl post).
  { intros Hin. apply Hno. simpl. destruct (class_decl s); [by right|done]. }
  rewrite IH by done.
  destruct s; try done. simpl.
  apply lookup_insert_ne. intros ->. apply Hno. simpl. by left.
Qed.

(** With one class per name, [class_used] holds under the name of a
    class the buckets of that class. *)
Lemma class_used_lookup tree class_names function_names A lineno end_lineno ds ch :
  ClassDef A lineno end_lineno ds ch ∈ tree →
  NoDup (decl_name <$> omap class_decl tree) →
  class_used_of tree class_names function_names !! A
  = Some (class_buckets class_names function_names A
            (used_names (ClassDef A lineno end_lineno ds ch))).
Proof.
  intros (pre & post & ->)%list_elem_of_split Hnodup.
  rewrite class_used_of_foldl, foldl_app. simpl.
  rewrite omap_app, fmap_app in Hnodup. simpl in Hnodup.
  apply NoDup_app in Hnodup as (_ & _ & Hnodup).
  apply NoDup_cons in Hnodup as [Hno _].
  rewrite class_used_later by done. apply lookup_insert_eq.
Qed.

Section ClassUnits.

Variable ast_parse : string → option Module_.

Lemma p_units_make_plan code_path config code lines tree :
  p_units (make_plan ast_parse code_path config code lines tree)
  = let class_names := decl_name <$> omap class_decl tree in
    let function_names := decl_name <$> omap function_decl tree in
    partition_units lines (get_imports tree)
      (omap class_decl tree) (omap function_decl tree) config
      class_names function_names
      (class_used_of tree class_names function_names)
      (func_used_classes_of tree class_names).
Proof. reflexivity. Qed.

(** C3. In default mode, when no two top-level classes have the same
    name: for every class [A] with an end line a unit named [A] is emitted,
    and its text is the import block of the source, then one line
    [from .C import C] for every name [C] of a list [ucs], then - when the
    list [ufs] is not empty - one line [from .functions import ...] that
    lists [ufs], then an empty line and the text of the class.  [ucs] holds
    exactly the names of the other top-level classes that the class reads,
    and [ufs] exactly the names of the top-level functions it reads, each
    once: so a class that reads the class [B] and the function [f] imports
    [B] from the unit of [B] and [f] from the shared unit of the functions,
    and no unit imports what its class does not read.  Unless the class is
    called [functions], this is the only unit of its name. *)
Theorem class_unit_imports_its_buckets code_path code lines tree A lineno e ds ch :
  let stmt := ClassDef A lineno (Some e) ds ch in
  let d : decl := (A, start_line lineno ds, Some e) in
  let class_names := decl_name <$> (find_top_level_defs tree).1 in
  let function_names := decl_name <$> (find_top_level_defs tree).2 in
  let units := p_units (make_plan ast_parse code_path None code lines tree) in
  stmt ∈ tree →
  NoDup class_names →
  span_ok d →
  ∃ u ucs ufs,
    u ∈ units
    ∧ unit_name u = A
    ∧ unit_content u
      = join nl (get_imports tree) +:+ nl
        +:+ String.concat EmptyString
              ((λ uc, "from ." +:+ uc +:+ " import " +:+ uc +:+ nl) <$> ucs)
        +:+ (match ufs with
             | [] => EmptyString
             | _ => "from .functions import " +:+ join ", " ufs +:+ nl
             end)
        +:+ nl +:+ declaration_text lines d
    ∧ (∀ n, n ∈ ucs ↔ n ∈ class_names ∧ n ≠ A ∧ reads n stmt)
    ∧ (∀ n, n ∈ ufs ↔ n ∈ function_names ∧ reads n stmt)
    ∧ NoDup ucs ∧ NoDup ufs
    ∧ (A ≠ "functions" → ∀ u', u' ∈ units → unit_name u' = A → u' = u).
Proof.
  intros stmt d class_names function_names units Hin Hnodup Hspan.
  pose proof (class_buckets_spec class_names function_names A stmt)
    as (Hucs & Hufs & Hnd1 & Hnd2).
  set (b := class_buckets class_names function_names A (used_names stmt)) in *.
  set (class_used := class_used_of tree class_names function_names).
  assert (Hlook : class_used !! A = Some b)
    by exact (class_used_lookup tree class_names function_names
                A lineno (Some e) ds ch Hin Hnodup).
  assert (Hd : d ∈ omap class_decl tree)
    by (apply list_elem_of_omap; by exists stmt).
  set (u := {| unit_name := A; unit_members := [A];
               unit_content :=
                 join nl (get_imports tree) +:+ nl +:+ class_import_lines b
                 +:+ nl +:+ extract_code lines (start_line lineno ds) e |}).
  assert (Hunit : class_unit lines (get_imports tree) class_used d = Some u).
  { unfold class_unit, d. cbn [decl_name decl_start decl_end fst snd].
    by rewrite Hlook. }
  exists u, (fst b), (snd b).
  split; [|split; [done|split; [|split; [done|split; [done|split; [done|split;
    [done|]]]]]]].
  - unfold units. rewrite p_units_make_plan. cbv zeta. unfold partition_units.
    apply elem_of_app. left. apply list_elem_of_omap. by exists d.
  - unfold u. cbn [unit_content]. unfold class_import_lines.
    rewrite <- (extract_code_text lines d e Hspan eq_refl). by rewrite !append_assoc.
  - intros HA u' Hu' Hname. unfold units in Hu'.
    rewrite p_units_make_plan in Hu'. cbv zeta in Hu'. unfold partition_units in Hu'.
    apply elem_of_app in Hu' as [Hu'|Hu'].
    + apply list_elem_of_omap in Hu' as (d' & Hd' & Hu').
      assert (decl_name d' = A) as Hd'A.
      { unfold class_unit in Hu'. destruct (decl_end d'); [|done].
        injection Hu' as <-. exact Hname. }
      assert (d' = d) as ->
        by (apply (NoDup_fmap_elem_inj decl_name (omap class_decl tree)); done).
      assert (Hu'' : class_unit lines (get_imports tree) class_used d = Some u')
        by exact Hu'.
      rewrite Hunit in Hu''. by injection Hu'' as <-.
    + apply elem_of_option_list in Hu'. apply functions_unit_Some in Hu' as [Hf _].
      destruct HA. by rewrite <- Hname, Hf.
Qed.

End ClassUnits.

(** ** The text of the units and of the residual file *)

Section UnitTexts.

Variable ast_parse : string → option Module_.

Lemma p_residual_make_plan code_path config code lines tree :
  p_residual (make_plan ast_parse code_path config code lines tree)
  = create_shrunk_original ast_parse code lines (get_imports tree)
      (omap class_decl tree) (omap function_decl tree) config
      (decl_name <$> omap class_decl tree) (decl_name <$> omap function_decl tree).
Proof. reflexivity. Qed.

(** A declaration that stays is a part of the residual file, and its text
    is in the text of the file when the normalization keeps it. *)
Lemma kept_declaration_in_residual code lines imports (classes_ functions_ : list decl)
    config class_names function_names d e :
  let remaining := remaining_of config classes_ functions_ class_names function_names in
  let residual :=
    create_shrunk_original ast_parse code lines imports classes_ functions_ config
      class_names function_names in
  d ∈ remaining.1 ∨ d ∈ remaining.2 →
  decl_end d = Some e → span_ok d →
  (∃ parts, residual = finish_shrunk parts ∧ declaration_text lines d ∈ parts)
  ∧ (kept_verbatim (declaration_text lines d) →
     contains residual (declaration_text lines d) = true).
Proof.
  intros remaining residual Hstay He Hspan.
  assert (Hparts : ∃ parts, residual = finish_shrunk parts
                            ∧ declaration_text lines d ∈ parts).
  { unfold residual, create_shrunk_original. fold remaining.
    destruct remaining as [rc rf]. simpl in Hstay.
    assert (Hin : declaration_text lines d
                  ∈ shrunk_parts lines imports classes_ functions_ rc rf).
    { rewrite <- (extract_code_text lines d e Hspan He).
      unfold shrunk_parts. rewrite !elem_of_app.
      destruct Hstay as [Hrc|Hrf]; right;
        [left|right; left]; by eapply elem_of_remaining_parts. }
    destruct rc as [|c rc]; [destruct rf as [|f rf]|]; try by eexists.
    destruct Hstay as [Hin'|Hin']; by apply elem_of_nil in Hin'. }
  split; [done|]. intros Hkept. destruct Hparts as (parts & -> & Hin).
  by apply finish_shrunk_contains.
Qed.

(** C2. In config mode, for a declaration with an end line that no group
    names.  It is split out into no unit: every unit file is the import
    block of the source followed by the texts of declarations that the
    config names, and of nothing else.  And it is retained: its text - the
    lines of the source from its first to its end line - is one of the parts
    that the residual file is made of, and it stands in the text of the
    residual file as it is when it starts and ends with a character of ASCII
    that is no whitespace and holds no two empty lines in a row, so that
    the shortening of runs of empty lines and the stripping cannot touch
    it. *)
Theorem unmentioned_declaration_is_retained code_path code lines tree ms d e :
  let classes_ := (find_top_level_defs tree).1 in
  let functions_ := (find_top_level_defs tree).2 in
  let p := make_plan ast_parse code_path (Some ms) code lines tree in
  d ∈ classes_ ++ functions_ →
  decl_end d = Some e →
  Forall span_ok (classes_ ++ functions_) →
  ¬ config_names ms (decl_name d) →
  (∃ placed,
     Forall2 (λ u ds, written_from lines (get_imports tree) (unit_content u) ds)
       (p_units p) placed
     ∧ ∀ ds d', ds ∈ placed → d' ∈ ds →
         d' ∈ classes_ ++ functions_
         ∧ config_names ms (decl_name d')
         ∧ decl_name d' ≠ decl_name d)
  ∧ (∃ parts, p_residual p = finish_shrunk parts ∧ declaration_text lines d ∈ parts)
  ∧ (kept_verbatim (declaration_text lines d) →
     contains (p_residual p) (declaration_text lines d) = true).
Proof.
  intros classes_ functions_ p Hd He Hspan Hno. split.
  - unfold p. rewrite p_units_make_plan. cbv zeta.
    destruct (partition_units_written lines (get_imports tree) classes_ functions_
                (Some ms) (decl_name <$> classes_) (decl_name <$> functions_)
                (class_used_of tree (decl_name <$> classes_) (decl_name <$> functions_))
                (func_used_classes_of tree (decl_name <$> classes_)) Hspan)
      as [placed HF]; [done|].
    exists placed. split.
    + eapply Forall2_impl; [exact HF|]. by intros u ds (Hw & _).
    + intros ds d' Hds Hd'.
      destruct (Forall2_exists_r _ _ _ ds HF Hds) as (u & _ & _ & _ & Hin).
      destruct (Hin d' Hd') as [Hdecl Hnamed]. split; [done|]. split; [done|].
      intros Heq. apply Hno. by rewrite <- Heq.
  - unfold p. rewrite p_residual_make_plan.
    apply (kept_declaration_in_residual code lines (get_imports tree)
             classes_ functions_ (Some ms) (decl_name <$> classes_)
             (decl_name <$> functions_) d e); [|done|].
    + unfold remaining_of. simpl.
      apply elem_of_app in Hd as [Hd|Hd]; [left|right];
        apply elem_of_remaining_decls; (split; [|done]).
      * rewrite elem_of_config_split_classes. intros (m & Hm & Hn).
        apply Hno. exists m. auto.
      * rewrite elem_of_config_split_functions. intros (m & Hm & Hn).
        apply Hno. exists m. auto.
    + rewrite Forall_forall in Hspan. by apply Hspan.
Qed.

(** C1. When every declaration has an end line - in config mode when
    every name is listed by the groups of one unit at most, in default mode
    when no class has the name of a function.  Every unit file is written
    from the declarations placed into it: it is the import block of the
    source, the import lines made for the unit, and the texts of these
    declarations, each the lines of the source from its first to its end
    line.  The declarations that are placed into no unit are kept: the text
    of each is one of the parts the residual file is made of, and stands in
    it unchanged when the normalization cannot touch it.  The declarations
    placed and kept are declarations of the source; a name is the name of
    one of them exactly when it is the name of a top-level class or
    function; and no name is placed into two units of different names. *)
Theorem partition_complete_no_duplicates code_path code lines tree config :
  let classes_ := (find_top_level_defs tree).1 in
  let functions_ := (find_top_level_defs tree).2 in
  let p := make_plan ast_parse code_path config code lines tree in
  (∀ d, d ∈ classes_ ++ functions_ → decl_end d ≠ None) →
  Forall span_ok (classes_ ++ functions_) →
  match config with
  | Some ms => one_group_per_name ms
  | None => ∀ n, n ∈ decl_name <$> classes_ → n ∉ decl_name <$> functions_
  end →
  ∃ (placed : list (list decl)) (kept : list decl),
    Forall2 (λ u ds, written_from lines (get_imports tree) (unit_content u) ds)
      (p_units p) placed
    ∧ (∀ d, d ∈ kept →
         (∃ parts, p_residual p = finish_shrunk parts
                   ∧ declaration_text lines d ∈ parts)
         ∧ (kept_verbatim (declaration_text lines d) →
            contains (p_residual p) (declaration_text lines d) = true))
    ∧ (∀ d, (∃ ds, ds ∈ placed ∧ d ∈ ds) ∨ d ∈ kept → d ∈ classes_ ++ functions_)
    ∧ (∀ n, (∃ ds, ds ∈ placed ∧ n ∈ decl_name <$> ds) ∨ n ∈ decl_name <$> kept
            ↔ n ∈ decl_name <$> (classes_ ++ functions_))
    ∧ (∀ i j u1 u2 ds1 ds2 n,
         p_units p !! i = Some u1 → placed !! i = Some ds1 →
         p_units p !! j = Some u2 → placed !! j = Some ds2 →
         n ∈ decl_name <$> ds1 → n ∈ decl_name <$> ds2 →
         unit_name u1 = unit_name u2).
Proof.
  intros classes_ functions_ p Hend Hspan Hmode.
  set (class_names := decl_name <$> classes_) in *.
  set (function_names := decl_name <$> functions_) in *.
  set (class_used := class_used_of tree class_names function_names).
  set (func_used := func_used_classes_of tree class_names).
  set (units := partition_units lines (get_imports tree) classes_ functions_ config
                  class_names function_names class_used func_used).
  assert (Hunits : p_units p = units) by apply p_units_make_plan.
  assert (Hresidual : p_residual p
    = create_shrunk_original ast_parse code lines (get_imports tree) classes_ functions_
        config class_names function_names) by apply p_residual_make_plan.
  rewrite Hunits, Hresidual. clear Hunits Hresidual.
  destruct (partition_units_written lines (get_imports tree) classes_ functions_
              config class_names function_names class_used func_used Hspan)
    as [placed HF]; [done|]. fold units in HF.
  destruct (members_complete_no_duplicates lines (get_imports tree) classes_ functions_
              config class_used func_used Hend Hmode) as [Hnames Honce].
  fold class_names function_names units in Hnames, Honce.
  pose (remaining := remaining_of config classes_ functions_ class_names function_names).
  set (kept := span_decl <$> (with_end remaining.1 ++ with_end remaining.2)).
  assert (Hkept_names : decl_name <$> kept
    = residual_members config classes_ functions_ class_names function_names).
  { unfold kept, residual_members. fold remaining. destruct remaining as [rc rf].
    apply decl_name_span_decl. }
  assert (Hkept : ∀ d, d ∈ kept →
    (d ∈ remaining.1 ∨ d ∈ remaining.2) ∧ d ∈ classes_ ++ functions_).
  { intros d (q & -> & Hq)%list_elem_of_fmap.
    assert (Hstay : span_decl q ∈ remaining.1 ∨ span_decl q ∈ remaining.2).
    { apply elem_of_app in Hq as [Hq|Hq]; [left|right]; by apply elem_of_with_end_decl. }
    split; [done|]. apply elem_of_app. unfold remaining, remaining_of in Hstay.
    destruct (split_names config class_names function_names) as [sc sf].
    simpl in Hstay.
    destruct Hstay as [Hin|Hin]; apply elem_of_remaining_decls in Hin as [_ Hin]; auto. }
  assert (Hplaced_names : ∀ n,
    (∃ ds, ds ∈ placed ∧ n ∈ decl_name <$> ds)
    ↔ ∃ u, u ∈ units ∧ n ∈ unit_members u).
  { intros n. split.
    - intros (ds & Hds & Hn).
      destruct (Forall2_exists_r _ _ _ ds HF Hds) as (u & Hu & _ & Hm & _).
      exists u. by rewrite <- Hm.
    - intros (u & Hu & Hn).
      destruct (Forall2_exists_l _ _ _ u HF Hu) as (ds & Hds & _ & Hm & _).
      exists ds. by rewrite Hm. }
  exists placed, kept. split; [|split; [|split; [|split]]].
  - eapply Forall2_impl; [exact HF|]. by intros u ds (Hw & _).
  - intros d Hd. destruct (Hkept d Hd) as [Hstay Hdecl].
    apply list_elem_of_fmap in Hd as (q & Hq & _).
    apply (kept_declaration_in_residual code lines (get_imports tree)
             classes_ functions_ config class_names function_names d q.2.2);
      [done|by rewrite Hq|].
    rewrite Forall_forall in Hspan. by apply Hspan.
  - intros d [(ds & Hds & Hd)|Hd]; [|by apply Hkept].
    destruct (Forall2_exists_r _ _ _ ds HF Hds) as (u & _ & _ & _ & Hin).
    by apply Hin.
  - intros n. rewrite Hplaced_names, Hkept_names, fmap_app. apply Hnames.
  - intros i j u1 u2 ds1 ds2 n Hu1 Hds1 Hu2 Hds2 Hn1 Hn2.
    destruct (Forall2_lookup_lr _ _ _ _ _ _ HF Hu1 Hds1) as (_ & Hm1 & _).
    destruct (Forall2_lookup_lr _ _ _ _ _ _ HF Hu2 Hds2) as (_ & Hm2 & _).
    apply (Honce u1 u2 n); [by eapply list_elem_of_lookup_2..| |].
    + by rewrite <- Hm1.
    + by rewrite <- Hm2.
Qed.

End UnitTexts.

(** ** Coroutine functions *)








Section Coroutines.

Variable ast_parse : string → option Module_.

End Coroutines.

(** * The claims on concrete inputs *)

(** C10. The registry cleanup of the import stage deletes every entry whose
    name starts with the base name of the package, whoever registered it and
    when; every other entry it leaves as it is.  Seen from the whole stage:
    once the sandbox copy exists, no entry with the prefix is left at the
    end.  So a run for the package [m] deregisters the module [mmap] that was
    registered before and has nothing to do with the package, and keeps
    [sys]. *)
Theorem cleanup_removes_every_prefixed_module :
  (∀ base_name (m : gmap string string) name,
     startswith name base_name = true →
     cleanup_sys_modules base_name m !! name = None)
  ∧ (∀ base_name (m : gmap string string) name,
       startswith name base_name = false →
       cleanup_sys_modules base_name m !! name = m !! name)
  ∧ (∀ spec_from_file_location exec_module mkdtemp split_folder base_name w name,
       is_Some (_create_test_version_with_fixed_imports split_folder (mkdtemp w)
                  base_name (with_dirs (λ ds, {[mkdtemp w]} ∪ ds) w)) →
       startswith name base_name = true →
       sys_modules (snd (_validate_imports spec_from_file_location exec_module
                           mkdtemp split_folder base_name w)) !! name = None)
  ∧ (let w := Demo.package_world
                {[ "sys" := "builtin"; "mmap" := "/usr/lib/python3/mmap.so" ]} in
     let w' := snd (Demo._validate_imports "out/m" "m" w) in
     sys_modules w !! "mmap" = Some "/usr/lib/python3/mmap.so"
     ∧ sys_modules w' !! "mmap" = None
     ∧ sys_modules w' !! "sys" = Some "builtin").
Proof.
  split; [apply cleanup_sys_modules_prefixed|].
  split; [apply cleanup_sys_modules_other|].
  split; [intros; by apply stage_registry_without_prefix|].
  vm_compute. done.
Qed.

(** C5. The structural stage on an original with the classes [A] and [B]
    and a package that holds [A] and a class [C]: the missing [B] is an
    error, and the extra [C] is in the names found, yet no warning is
    recorded - the stage warns only when it found more names than the
    original has. *)
Theorem extra_class_without_warning :
  let r := fst (Demo._validate_functionality "in/m.py" "out/m" "m" Demo.stale_world) in
  original_classes r = ["A"; "B"]
  ∧ split_classes r = ["C"; "A"]
  ∧ missing_classes r = ["B"]
  ∧ f_errors r = ["Missing classes in split files: B"]
  ∧ f_warnings r = [].
Proof. vm_compute. done. Qed.

(** The parse failure of C7 on a source that is no Python, without a
    config. *)
Lemma syntax_error_writes_nothing_witness :
  let w := Demo.source_world "in/m.py" Demo.broken_src in
  let r := Demo.write_split_files "in/m.py" "out" None w in
  fs w !! "in/m.py" = Some Demo.broken_src
  ∧ Demo.ast_parse Demo.broken_src = None
  ∧ fs (snd r) = fs w
  ∧ dirs (snd r) = dirs w
  ∧ fst r = Returned None
  ∧ stdout (snd r) = [cross_mark +:+ " Syntax error in in/m.py: invalid syntax"].
Proof.
  intros w r.
  assert (Hread : fs w !! "in/m.py" = Some Demo.broken_src) by (vm_compute; reflexivity).
  assert (Hsyntax : Demo.ast_parse Demo.broken_src = None) by (vm_compute; reflexivity).
  destruct (syntax_error_writes_nothing Demo.ast_parse Demo.syntax_error_message
              Demo.spec_from_file_location Demo.exec_module Demo.mkdtemp Demo.summary_of
              Demo.json_load Demo.black "in/m.py" "out" None w Demo.broken_src
              Hread Hsyntax) as ((Hfs & Hdirs & _) & Hparse & _).
  destruct Hparse as [Hret Hout]; [by left|].
  split; [exact Hread|]. split; [exact Hsyntax|]. split; [exact Hfs|].
  split; [exact Hdirs|]. split; [exact Hret|]. exact Hout.
Defined.

(** Against C7 as it was stated: the source does not parse, the config
    file holds [null], and the run returns without a single message. *)
Lemma null_config_hides_the_syntax_error :
  let w := Demo.null_config_world in
  let r := Demo.write_split_files "in/m.py" "out" (Some "in/groups.json") w in
  fs w !! "in/m.py" = Some Demo.broken_src
  ∧ Demo.ast_parse Demo.broken_src = None
  ∧ fst r = Returned None
  ∧ stdout (snd r) = [].
Proof. vm_compute. done. Qed.




(** Against C6 as it was stated, on both counts.  A comment that mentions
    [from ..core] is no import that reaches above the package, and it is
    rewritten.  And an absolute import is left as it is and can make the
    stage fail: the initializer that imports a module which is not installed
    is copied unchanged into the sandbox, loading it raises, and the stage
    ends with the failure of [__init__.py]. *)
Lemma comment_is_rewritten_and_initializer_fails :
  ¬ (∀ line, fix_line line ≠ line → parent_relative_import line = true)
  ∧ (let w := Demo.lost_world in
     let r := Demo._validate_imports "out/m" "m" w in
     fs w !! "out/m/__init__.py" = Some ("import nowhere" +:+ nl)
     ∧ absolute_import "import nowhere" = true
     ∧ fix_line "import nowhere" = "import nowhere"
     ∧ fix_content ("import nowhere" +:+ nl) = "import nowhere" +:+ nl
     ∧ ∃ results,
         fst r = Some results
         ∧ all_imports_successful results = false
         ∧ failed_imports results = ["__init__.py"]
         ∧ import_errors results
           = ["Failed to import main package: No module named 'nowhere'"]).
Proof.
  split.
  - intros Honly. specialize (Honly "# from ..core import Base").
    assert (Hno : parent_relative_import "# from ..core import Base" = false)
      by (vm_compute; reflexivity).
    rewrite Hno in Honly. discriminate Honly.
    apply fix_line_changes. vm_compute. reflexivity.
  - vm_compute. repeat split. eexists. repeat split.
Qed.

(** The partition of C1 on the source with the classes [B] and [A] and the
    function [f], in default mode. *)
Lemma partition_complete_no_duplicates_witness :
  let lines := splitlines Demo.uses_src in
  let classes_ := (find_top_level_defs Demo.uses_tree).1 in
  let functions_ := (find_top_level_defs Demo.uses_tree).2 in
  let p := Demo.make_plan "in/m.py" None Demo.uses_src lines Demo.uses_tree in
  (∀ d, d ∈ classes_ ++ functions_ → decl_end d ≠ None)
  ∧ Forall span_ok (classes_ ++ functions_)
  ∧ (∀ n, n ∈ decl_name <$> classes_ → n ∉ decl_name <$> functions_)
  ∧ ∃ (placed : list (list decl)) (kept : list decl),
      Forall2 (λ u ds, written_from lines (get_imports Demo.uses_tree) (unit_content u) ds)
        (p_units p) placed
      ∧ (∀ d, d ∈ kept →
           (∃ parts, p_residual p = finish_shrunk parts
                     ∧ declaration_text lines d ∈ parts)
           ∧ (kept_verbatim (declaration_text lines d) →
              contains (p_residual p) (declaration_text lines d) = true))
      ∧ (∀ d, (∃ ds, ds ∈ placed ∧ d ∈ ds) ∨ d ∈ kept → d ∈ classes_ ++ functions_)
      ∧ (∀ n, (∃ ds, ds ∈ placed ∧ n ∈ decl_name <$> ds) ∨ n ∈ decl_name <$> kept
              ↔ n ∈ decl_name <$> (classes_ ++ functions_))
      ∧ (∀ i j u1 u2 ds1 ds2 n,
           p_units p !! i = Some u1 → placed !! i = Some ds1 →
           p_units p !! j = Some u2 → placed !! j = Some ds2 →
           n ∈ decl_name <$> ds1 → n ∈ decl_name <$> ds2 →
           unit_name u1 = unit_name u2).
Proof.
  intros lines classes_ functions_ p.
  assert (Hend : ∀ d, d ∈ classes_ ++ functions_ → decl_end d ≠ None).
  { intros d Hd. unfold classes_, functions_ in Hd. simpl in Hd.
    repeat (apply elem_of_cons in Hd as [->|Hd]; [discriminate|]).
    by apply elem_of_nil in Hd. }
  assert (Hspan : Forall span_ok (classes_ ++ functions_)).
  { unfold classes_, functions_. simpl.
    repeat (apply Forall_cons; split; [intros end_ [= <-]; split; by vm_compute|]).
    constructor. }
  assert (Hmode : ∀ n, n ∈ decl_name <$> classes_ → n ∉ decl_name <$> functions_).
  { intros n Hn Hf. unfold classes_, functions_ in Hn, Hf. simpl in Hn, Hf.
    apply list_elem_of_singleton in Hf as ->.
    repeat (apply elem_of_cons in Hn as [Hn|Hn]; [discriminate Hn|]).
    by apply elem_of_nil in Hn. }
  split; [exact Hend|]. split; [exact Hspan|]. split; [exact Hmode|].
  exact (partition_complete_no_duplicates Demo.ast_parse "in/m.py" Demo.uses_src
           lines Demo.uses_tree None Hend Hspan Hmode).
Defined.

(** Against C1 as it was stated: in default mode a class and a function of
    the same name put that name into two units of different names. *)
Lemma same_name_in_two_units :
  let p := Demo.make_plan "in/m.py" None Demo.same_name_src
             (splitlines Demo.same_name_src) Demo.same_name_tree in
  ∃ u1 u2,
    p_units p = [u1; u2]
    ∧ unit_name u1 = "A" ∧ unit_members u1 = ["A"]
    ∧ unit_name u2 = "functions" ∧ unit_members u2 = ["A"]
    ∧ unit_name u1 ≠ unit_name u2.
Proof. vm_compute. eexists _, _. repeat split. discriminate. Qed.

(** The class of C2 that the config does not name: its text is kept as it
    is. *)
Lemma unmentioned_declaration_is_retained_witness :
  let lines := splitlines Demo.two_classes_src in
  let d : decl := ("C", 3, Some 4) in
  let classes_ := (find_top_level_defs Demo.two_classes_tree).1 in
  let functions_ := (find_top_level_defs Demo.two_classes_tree).2 in
  let p := Demo.make_plan "in/m.py" (Some Demo.core_A) Demo.two_classes_src
             lines Demo.two_classes_tree in
  d ∈ classes_ ++ functions_
  ∧ Forall span_ok (classes_ ++ functions_)
  ∧ ¬ config_names Demo.core_A "C"
  ∧ declaration_text lines d = join nl ["class C:"; "    pass"]
  ∧ kept_verbatim (declaration_text lines d)
  ∧ (∃ placed,
       Forall2 (λ u ds, written_from lines (get_imports Demo.two_classes_tree)
                          (unit_content u) ds)
         (p_units p) placed
       ∧ ∀ ds d', ds ∈ placed → d' ∈ ds →
           d' ∈ classes_ ++ functions_
           ∧ config_names Demo.core_A (decl_name d')
           ∧ decl_name d' ≠ "C")
  ∧ contains (p_residual p) (declaration_text lines d) = true.
Proof.
  intros lines d classes_ functions_ p.
  assert (Hd : d ∈ classes_ ++ functions_)
    by apply list_elem_of_further, list_elem_of_here.
  assert (Hspan : Forall span_ok (classes_ ++ functions_)).
  { unfold classes_, functions_. simpl.
    repeat (apply Forall_cons; split; [intros end_ [= <-]; split; by vm_compute|]).
    constructor. }
  assert (Hno : ¬ config_names Demo.core_A "C").
  { intros (m & Hm & Hn). apply list_elem_of_singleton in Hm as ->. simpl in Hn.
    destruct Hn as [Hn|Hn]; [|by apply elem_of_nil in Hn].
    apply list_elem_of_singleton in Hn. discriminate Hn. }
  assert (Hkept : kept_verbatim (declaration_text lines d))
    by (repeat split; vm_compute; reflexivity).
  destruct (unmentioned_declaration_is_retained Demo.ast_parse "in/m.py"
              Demo.two_classes_src lines Demo.two_classes_tree Demo.core_A d 4
              Hd eq_refl Hspan Hno) as (Hunits & _ & Hin).
  split; [exact Hd|]. split; [exact Hspan|]. split; [exact Hno|].
  split; [vm_compute; reflexivity|]. split; [exact Hkept|].
  split; [exact Hunits|]. exact (Hin Hkept).
Defined.

(** Against C2 as it was stated: the class that no group names is kept,
    its text is in the residual file. *)
Lemma unmentioned_class_is_in_residual :
  let lines := splitlines Demo.two_classes_src in
  let p := Demo.make_plan "in/m.py" (Some Demo.core_A) Demo.two_classes_src
             lines Demo.two_classes_tree in
  ¬ config_names Demo.core_A "C"
  ∧ extract_code lines 3 4 = join nl ["class C:"; "    pass"]
  ∧ p_residual p = join nl ["class C:"; "    pass"] +:+ nl
  ∧ contains (p_residual p) (extract_code lines 3 4) = true.
Proof.
  intros lines p. split.
  - intros (m & Hm & Hn). apply list_elem_of_singleton in Hm as ->. simpl in Hn.
    destruct Hn as [Hn|Hn]; [|by apply elem_of_nil in Hn].
    apply list_elem_of_singleton in Hn. discriminate Hn.
  - vm_compute. done.
Qed.

(** The class of C3 that reads a class and a function. *)
Lemma class_unit_imports_its_buckets_witness :
  let stmt := ClassDef "A" 5 (Some 6) []
                [Name "B" Load; Other [Name "x" Store; Other [Name "f" Load]]] in
  let lines := splitlines Demo.uses_src in
  let units := p_units (Demo.make_plan "in/m.py" None Demo.uses_src lines Demo.uses_tree) in
  stmt ∈ Demo.uses_tree
  ∧ NoDup (decl_name <$> (find_top_level_defs Demo.uses_tree).1)
  ∧ span_ok ("A", 5, Some 6)
  ∧ ∃ u,
      u ∈ units
      ∧ unit_name u = "A"
      ∧ unit_content u
        = join nl ["";
                   "from .B import B";
                   "from .functions import f";
                   "";
                   "class A(B):";
                   "    x = f()"]
      ∧ (∀ u', u' ∈ units → unit_name u' = "A" → u' = u).
Proof.
  intros stmt lines units.
  assert (Hin : stmt ∈ Demo.uses_tree)
    by (do 2 apply list_elem_of_further; apply list_elem_of_here).
  assert (Hnodup : NoDup (decl_name <$> (find_top_level_defs Demo.uses_tree).1)).
  { simpl. apply NoDup_cons. split.
    - intros Hb. apply list_elem_of_singleton in Hb. discriminate Hb.
    - apply NoDup_singleton. }
  assert (Hspan : span_ok ("A", 5, Some 6)).
  { intros end_ [= <-]. split; by vm_compute. }
  split; [exact Hin|]. split; [exact Hnodup|]. split; [exact Hspan|].
  destruct (class_unit_imports_its_buckets Demo.ast_parse "in/m.py" Demo.uses_src
              lines Demo.uses_tree "A" 5 6 []
              [Name "B" Load; Other [Name "x" Store; Other [Name "f" Load]]]
              Hin Hnodup Hspan)
    as (u & ucs & ufs & Hu & Hname & Htext & Hucs & Hufs & Hnd1 & Hnd2 & Honly).
  exists u. split; [exact Hu|]. split; [exact Hname|]. split.
  - unfold units in Hu.
    vm_compute in Hu.
    repeat (apply elem_of_cons in Hu as [Hu|Hu];
            [rewrite Hu in Hname |- *; try discriminate Hname; vm_compute; reflexivity|]).
    by apply elem_of_nil in Hu.
  - apply Honly. discriminate.
Defined.

(** Against C3 as it was stated: the source has two classes called [A],
    the first with the base [B].  The buckets are kept under the name of
    the class, so those of the second [A] replace those of the first, and
    no unit called [A] imports [B]: the text of the first [A] is emitted
    without the import of the class it reads. *)
Lemma earlier_class_of_a_name_loses_its_imports :
  let stmt := ClassDef "A" 3 (Some 4) [] [Name "B" Load; Demo.Pass] in
  let p := Demo.make_plan "in/m.py" None Demo.twice_src
             (splitlines Demo.twice_src) Demo.twice_tree in
  stmt ∈ Demo.twice_tree
  ∧ reads "B" stmt
  ∧ "B" ∈ decl_name <$> (find_top_level_defs Demo.twice_tree).1
  ∧ (∃ u, u ∈ p_units p ∧ unit_name u = "A"
          ∧ unit_content u = join nl [""; ""; "class A(B):"; "    pass"])
  ∧ (∀ u, u ∈ p_units p → unit_name u = "A" →
          contains (unit_content u) "from .B import B" = false).
Proof.
  intros stmt p. split; [apply list_elem_of_further, list_elem_of_here|].
  split; [eapply reads_ClassDef_child; [apply list_elem_of_here|constructor]|].
  split; [apply list_elem_of_here|]. split.
  - eexists. split; [apply list_elem_of_further, list_elem_of_here|].
    split; vm_compute; reflexivity.
  - intros u Hu Hname. vm_compute in Hu.
    repeat (apply elem_of_cons in Hu as [->|Hu]; [try discriminate Hname; vm_compute; reflexivity|]).
    by apply elem_of_nil in Hu.
Qed.

(** The residual file of C8 for a source with a docstring and one class. *)
Lemma default_residual_content_witness :
  let doc := triple_dq +:+ "Doc" +:+ triple_dq in
  let lines := splitlines Demo.doc_class_src in
  let classes_ : list decl := [("A", 2, Some 3)] in
  let residual :=
    create_shrunk_original Demo.ast_parse Demo.doc_class_src lines [] classes_ []
      None ["A"] [] in
  _extract_module_docstring Demo.ast_parse Demo.doc_class_src = Some doc
  ∧ residual = join nl ([doc; EmptyString] ++ [] ++ ["from .A import A"] ++ []) +:+ nl
  ∧ (∃ value, doc = triple_dq +:+ value +:+ triple_dq)
  ∧ ((@nil string) = [] → classes_ = [] → (@nil decl) = [] →
     residual = doc +:+ nl +:+ nl)
  ∧ ((@nil decl) = [] →
     ∀ class_used func_used,
       partition_units lines [] classes_ [] None ["A"] [] class_used func_used
       = omap (class_unit lines [] class_used) classes_)
  ∧ (∀ class_used u,
       u ∈ omap (class_unit lines [] class_used) classes_ →
       ∃ d, d ∈ classes_ ∧ decl_end d ≠ None
            ∧ unit_name u = decl_name d ∧ unit_members u = [decl_name d]).
Proof.
  intros doc lines classes_ residual.
  assert (Hdoc : _extract_module_docstring Demo.ast_parse Demo.doc_class_src = Some doc)
    by (vm_compute; reflexivity).
  split; [exact Hdoc|].
  exact (default_residual_content Demo.ast_parse Demo.doc_class_src lines []
           classes_ [] doc Hdoc).
Defined.

(** Against C8 as it was stated: with a docstring and one class the
    residual file holds an import line besides the docstring. *)
Lemma residual_is_more_than_docstring :
  let doc := triple_dq +:+ "Doc" +:+ triple_dq in
  let p := Demo.make_plan "in/m.py" None Demo.doc_class_src
             (splitlines Demo.doc_class_src) Demo.doc_class_tree in
  _extract_module_docstring Demo.ast_parse Demo.doc_class_src = Some doc
  ∧ p_residual p = join nl [doc; EmptyString; "from .A import A"] +:+ nl
  ∧ strip (p_residual p) ≠ doc.
Proof. vm_compute. repeat split. discriminate. Qed.



(** * Further properties *)

(** ** Line ranges *)

Lemma join_app_nonempty sep (l1 l2 : list string) :
  l1 ≠ [] → l2 ≠ [] →
  join sep (l1 ++ l2) = join sep l1 +:+ sep +:+ join sep l2.
Proof.
  intros H1 H2. induction l1 as [|p l1 IH]; [done|].
  destruct l1 as [|q l1].
  - change ([p] ++ l2) with (p :: l2). by rewrite join_cons.
  - rewrite <- app_comm_cons, join_cons by done.
    rewrite IH by done. rewrite (join_cons sep p (q :: l1)) by done.
    by rewrite !append_assoc.
Qed.

Lemma py_slice_in_range {A} (l : list A) a b :
  0 ≤ a → 0 ≤ b →
  py_slice l a b
  = take (Z.to_nat (Z.min b (Z.of_nat (length l)) - Z.min a (Z.of_nat (length l))))
      (drop (Z.to_nat (Z.min a (Z.of_nat (length l)))) l).
Proof.
  intros Ha Hb. unfold py_slice, slice_bound.
  destruct (Z.ltb_spec a 0), (Z.ltb_spec b 0); try lia. reflexivity.
Qed.

(** X1. Two line ranges that follow one another tile the range they
    cover: the text of the lines [a..c] is the text of [a..b], a line feed
    and the text of [b+1..c]. *)
Theorem extract_code_adjacent (lines : list string) a b c :
  1 ≤ a → a ≤ b → b < c → c ≤ Z.of_nat (length lines) →
  extract_code lines a c
  = extract_code lines a b +:+ nl +:+ extract_code lines (b + 1) c.
Proof.
  intros Ha Hab Hbc Hc. unfold extract_code.
  rewrite !py_slice_in_range by lia.
  rewrite !Z.min_l by lia.
  replace (b + 1 - 1) with b by lia.
  replace (Z.to_nat b) with (Z.to_nat (a - 1) + Z.to_nat (b - (a - 1)))%nat by lia.
  rewrite <- drop_drop.
  replace (Z.to_nat (c - (a - 1)))
    with (Z.to_nat (b - (a - 1)) + Z.to_nat (c - b))%nat by lia.
  rewrite <- take_take_drop.
  apply join_app_nonempty.
  - intros Hnil. apply (f_equal length) in Hnil.
    rewrite length_take, length_drop in Hnil. simpl in Hnil. lia.
  - intros Hnil. apply (f_equal length) in Hnil.
    rewrite length_take, !length_drop in Hnil. simpl in Hnil. lia.
Qed.

Lemma extract_code_adjacent_witness :
  extract_code ["a"; "b"; "c"] 1 3
  = extract_code ["a"; "b"; "c"] 1 2 +:+ nl +:+ extract_code ["a"; "b"; "c"] (2 + 1) 3.
Proof. apply extract_code_adjacent; simpl; lia. Defined.

(** X2. A range that runs past the last line is cut at the last line, and
    nothing is raised: from a start line on, the text is that of all the
    lines that are left, which is the empty text when the start is past the
    last line; and a range whose end is before its start is empty. *)
Theorem extract_code_clamps (lines : list string) start end_ :
  1 ≤ start →
  (Z.of_nat (length lines) ≤ end_ →
   extract_code lines start end_ = join nl (drop (Z.to_nat (start - 1)) lines))
  ∧ (Z.of_nat (length lines) < start → start ≤ end_ →
     extract_code lines start end_ = EmptyString)
  ∧ (0 ≤ end_ → end_ < start → extract_code lines start end_ = EmptyString).
Proof.
  intros Hstart. unfold extract_code. split; [|split].
  - intros Hend. rewrite py_slice_in_range by lia.
    rewrite (Z.min_r end_) by lia.
    destruct (Z.le_gt_cases (start - 1) (Z.of_nat (length lines))) as [Hle|Hgt].
    + rewrite Z.min_l by lia. rewrite take_ge; [done|]. rewrite length_drop. lia.
    + rewrite Z.min_r by lia. rewrite Z.sub_diag, take_0.
      rewrite drop_ge by lia. done.
  - intros Hpast Hle. rewrite py_slice_in_range by lia.
    rewrite !Z.min_r by lia. by rewrite Z.sub_diag, take_0.
  - intros Hend Hlt. unfold py_slice, slice_bound.
    destruct (Z.ltb_spec (start - 1) 0), (Z.ltb_spec end_ 0); try lia.
    replace (Z.to_nat _) with O by lia. by rewrite take_0.
Qed.

Lemma extract_code_clamps_witness :
  (Z.of_nat (length ["a"; "b"]) ≤ 9 →
   extract_code ["a"; "b"] 2 9 = join nl (drop (Z.to_nat (2 - 1)) ["a"; "b"]))
  ∧ (Z.of_nat (length ["a"; "b"]) < 2 → 2 ≤ 9 →
     extract_code ["a"; "b"] 2 9 = EmptyString)
  ∧ (0 ≤ 9 → 9 < 2 → extract_code ["a"; "b"] 2 9 = EmptyString).
Proof. apply extract_code_clamps. lia. Defined.

(** ** Occupied lines and top-level code *)

Lemma elem_of_line_range i a b : i ∈ line_range a b ↔ a ≤ i ≤ b.
Proof. unfold line_range. rewrite elem_of_seqZ. lia. Qed.

Lemma elem_of_get_occupied_lines (defs : list decl) i :
  i ∈ get_occupied_lines defs
  ↔ ∃ d e, d ∈ defs ∧ decl_end d = Some e ∧ decl_start d ≤ i ≤ e.
Proof.
  unfold get_occupied_lines.
  assert (Hgen : ∀ acc : gset Z,
    i ∈ foldl (λ occupied d,
                 match decl_end d with
                 | Some end_ => occupied ∪ list_to_set (line_range (decl_start d) end_)
                 | None => occupied
                 end) acc defs
    ↔ i ∈ acc ∨ ∃ d e, d ∈ defs ∧ decl_end d = Some e ∧ decl_start d ≤ i ≤ e).
  { induction defs as [|d defs IH]; intros acc; simpl.
    - split; [by left|]. intros [H|(d & e & H & _)]; [done|]. by apply elem_of_nil in H.
    - rewrite IH. split.
      + intros [Hacc|(d' & e & Hd' & He & Hi)].
        * destruct (decl_end d) as [e|] eqn:He; [|by left].
          apply elem_of_union in Hacc as [Hacc|Hnew]; [by left|].
          apply elem_of_list_to_set, elem_of_line_range in Hnew.
          right. exists d, e. split; [by left|done].
        * right. exists d', e. split; [by right|done].
      + intros [Hacc|(d' & e & Hd' & He & Hi)].
        * left. destruct (decl_end d); [|done]. apply elem_of_union. by left.
        * apply elem_of_cons in Hd' as [->|Hd'].
          -- left. rewrite He. apply elem_of_union. right.
             by apply elem_of_list_to_set, elem_of_line_range.
          -- right. by exists d', e. }
  rewrite Hgen. split; [|by right]. intros [H|H]; [|done]. by apply elem_of_empty in H.
Qed.

Lemma elem_of_class_decls (tree : Module_) d :
  d ∈ omap class_decl tree
  ↔ ∃ name lineno end_lineno ds ch,
      ClassDef name lineno end_lineno ds ch ∈ tree
      ∧ d = (name, start_line lineno ds, end_lineno).
Proof.
  rewrite list_elem_of_omap. split.
  - intros (s & Hs & Hd). destruct s; try discriminate Hd.
    simpl in Hd. injection Hd as <-. by eexists _, _, _, _, _.
  - intros (name & lineno & e & ds & ch & Hs & ->). by eexists.
Qed.

Lemma elem_of_function_decls (tree : Module_) d :
  d ∈ omap function_decl tree
  ↔ ∃ name lineno end_lineno ds ch,
      FunctionDef name lineno end_lineno ds ch ∈ tree
      ∧ d = (name, start_line lineno ds, end_lineno).
Proof.
  rewrite list_elem_of_omap. split.
  - intros (s & Hs & Hd). destruct s; try discriminate Hd.
    simpl in Hd. injection Hd as <-. by eexists _, _, _, _, _.
  - intros (name & lineno & e & ds & ch & Hs & ->). by eexists.
Qed.

(** X3. The lines that count as occupied are those of the top-level
    classes and plain functions that have an end line, each from its first
    line - the line of its first decorator when that is above the [class]
    or [def] line - to its end line; nothing else is occupied, a coroutine
    function for one. *)
Theorem occupied_lines_are_declaration_spans (tree : Module_) i :
  let defs := (find_top_level_defs tree).1 ++ (find_top_level_defs tree).2 in
  i ∈ get_occupied_lines defs
  ↔ ∃ name lineno e ds ch,
      (ClassDef name lineno (Some e) ds ch ∈ tree
       ∨ FunctionDef name lineno (Some e) ds ch ∈ tree)
      ∧ start_line lineno ds ≤ i ≤ e.
Proof.
  simpl. rewrite elem_of_get_occupied_lines. split.
  - intros (d & e & Hd & He & Hi). apply elem_of_app in Hd as [Hd|Hd].
    + apply elem_of_class_decls in Hd as (name & lineno & e' & ds & ch & Hs & ->).
      simpl in He. subst e'. exists name, lineno, e, ds, ch. split; [by left|done].
    + apply elem_of_function_decls in Hd as (name & lineno & e' & ds & ch & Hs & ->).
      simpl in He. subst e'. exists name, lineno, e, ds, ch. split; [by right|done].
  - intros (name & lineno & e & ds & ch & [Hs|Hs] & Hi).
    + exists (name, start_line lineno ds, Some e), e. split; [|done].
      apply elem_of_app. left. apply elem_of_class_decls. by eexists _, _, _, _, _.
    + exists (name, start_line lineno ds, Some e), e. split; [|done].
      apply elem_of_app. right. apply elem_of_function_decls. by eexists _, _, _, _, _.
Qed.

Lemma free_lines_from_nil i (lines : list string) (occupied : gset Z) :
  free_lines_from i lines occupied = []
  ↔ ∀ k, i ≤ k < i + Z.of_nat (length lines) → k ∈ occupied.
Proof.
  revert i. induction lines as [|l lines IH]; intros i; simpl.
  - split; [|done]. intros _ k Hk. lia.
  - destruct (decide (i ∈ occupied)) as [Hin|Hout].
    + rewrite IH. split.
      * intros Hall k Hk. destruct (decide (k = i)) as [->|Hne]; [done|].
        apply Hall. lia.
      * intros Hall k Hk. apply Hall. lia.
    + split; [done|]. intros Hall. exfalso. apply Hout, Hall. lia.
Qed.


Section MainUnit.

Variable ast_parse : string → option Module_.

Lemma p_main_make_plan code_path config code lines tree :
  p_main (make_plan ast_parse code_path config code lines tree)
  = let class_names := decl_name <$> omap class_decl tree in
    let function_names := decl_name <$> omap function_decl tree in
    main_unit (get_imports tree)
      (free_lines lines
         (get_occupied_lines (omap class_decl tree ++ omap function_decl tree)))
      (filter (λ n, n ∈ class_names) (elements (top_used_of tree)))
      (filter (λ n, n ∈ function_names) (elements (top_used_of tree))).
Proof. reflexivity. Qed.

(** X4. The main unit is left out exactly when every line of the source
    is occupied by a declaration; one line outside the declarations is
    enough for a [main.py] - an import, a comment or an empty line between
    two classes as well as a statement. *)
Theorem main_unit_omitted_iff_all_occupied code_path config code lines tree :
  let defs := (find_top_level_defs tree).1 ++ (find_top_level_defs tree).2 in
  p_main (make_plan ast_parse code_path config code lines tree) = None
  ↔ ∀ i, 1 ≤ i ≤ Z.of_nat (length lines) → i ∈ get_occupied_lines defs.
Proof.
  cbv zeta. rewrite p_main_make_plan. cbv zeta.
  unfold main_unit, free_lines, find_top_level_defs. cbn [fst snd].
  set (occupied := get_occupied_lines _).
  pose proof (free_lines_from_nil 1 lines occupied) as Hnil.
  destruct (free_lines_from 1 lines occupied) as [|l rest].
  - split; [|done]. intros _ i Hi. apply Hnil; [done|lia].
  - split; [done|]. intros Hall. exfalso.
    assert (l :: rest = []) as Habs; [|discriminate Habs].
    apply Hnil. intros k Hk. apply Hall. lia.
Qed.

End MainUnit.

(** ** What the functions unit and the main unit import *)

Lemma elem_of_func_used_classes_of (tree : Module_) (class_names : list string) n :
  n ∈ func_used_classes_of tree class_names
  ↔ n ∈ class_names ∧ ∃ stmt, stmt ∈ tree ∧ is_function stmt = true ∧ reads n stmt.
Proof.
  unfold func_used_classes_of.
  assert (Hgen : ∀ acc : gset string,
    n ∈ foldl (λ acc stmt,
                 if is_function stmt
                 then acc ∪ list_to_set
                              (filter (λ n, n ∈ class_names) (elements (used_names stmt)))
                 else acc) acc tree
    ↔ n ∈ acc
      ∨ (n ∈ class_names ∧ ∃ stmt, stmt ∈ tree ∧ is_function stmt = true ∧ reads n stmt)).
  { induction tree as [|s tree IH]; intros acc; simpl.
    - split; [by left|]. intros [H|(_ & s & H & _)]; [done|]. by apply elem_of_nil in H.
    - rewrite IH. split.
      + intros [Hacc|(Hn & s' & Hs' & Hf & Hr)].
        * destruct (is_function s) eqn:Hf; [|by left].
          apply elem_of_union in Hacc as [Hacc|Hnew]; [by left|].
          apply elem_of_list_to_set, list_elem_of_filter in Hnew as [Hn Hr].
          apply elem_of_elements, used_names_reads in Hr.
          right. split; [done|]. exists s. split; [by left|done].
        * right. split; [done|]. exists s'. split; [by right|done].
      + intros [Hacc|(Hn & s' & Hs' & Hf & Hr)].
        * left. destruct (is_function s); [|done]. apply elem_of_union. by left.
        * apply elem_of_cons in Hs' as [->|Hs'].
          -- left. rewrite Hf. apply elem_of_union. right.
             apply elem_of_list_to_set, list_elem_of_filter. split; [done|].
             by apply elem_of_elements, used_names_reads.
          -- right. split; [done|]. by exists s'. }
  rewrite Hgen. split; [|by right]. intros [H|H]; [|done]. by apply elem_of_empty in H.
Qed.


Section UnitImports.

Variable ast_parse : string → option Module_.

(** X5. In default mode, when the source has a plain top-level function,
    a unit [functions] is emitted with the functions that have an end line
    as members; its text is the import block, one line [from .C import C]
    for every class [C] of the source that some top-level plain function
    reads, each class once, an empty line, and the text of each function
    followed by two line feeds. *)
Theorem functions_unit_imports_classes_read code_path code lines tree :
  let class_names := decl_name <$> (find_top_level_defs tree).1 in
  let functions_ := (find_top_level_defs tree).2 in
  functions_ ≠ [] →
  ∃ u ucs,
    u ∈ p_units (make_plan ast_parse code_path None code lines tree)
    ∧ unit_name u = "functions"
    ∧ unit_members u = fst <$> with_end functions_
    ∧ unit_content u
      = join nl (get_imports tree) +:+ nl
        +:+ String.concat EmptyString
              ((λ uc, "from ." +:+ uc +:+ " import " +:+ uc +:+ nl) <$> ucs)
        +:+ nl
        +:+ String.concat EmptyString
              ((λ p, extract_code lines p.2.1 p.2.2 +:+ nl +:+ nl) <$> with_end functions_)
    ∧ NoDup ucs
    ∧ ∀ n, n ∈ ucs
           ↔ n ∈ class_names
             ∧ ∃ name lineno end_lineno ds ch,
                 FunctionDef name lineno end_lineno ds ch ∈ tree
                 ∧ reads n (FunctionDef name lineno end_lineno ds ch).
Proof.
  cbv zeta. unfold find_top_level_defs. cbn [fst snd]. intros Hfns.
  rewrite p_units_make_plan. cbv zeta. unfold partition_units, functions_unit.
  destruct (omap function_decl tree) as [|d fns] eqn:Hdecls; [done|].
  eexists _, (elements (func_used_classes_of tree (decl_name <$> omap class_decl tree))).
  split; [apply elem_of_app; right; apply list_elem_of_here|].
  split; [reflexivity|]. split; [reflexivity|]. split; [reflexivity|].
  split; [apply NoDup_elements|].
  intros n. rewrite elem_of_elements, elem_of_func_used_classes_of.
  split; intros [Hn Hr]; (split; [done|]).
  - destruct Hr as (s & Hs & Hf & Hr). destruct s; try discriminate Hf.
    by eexists _, _, _, _, _.
  - destruct Hr as (name & lineno & e & ds & ch & Hs & Hr). by eexists.
Qed.


End UnitImports.

Lemma functions_unit_imports_classes_read_witness :
  ∃ u ucs,
    u ∈ p_units (Demo.make_plan "in/m.py" None Demo.uses_src
                   (splitlines Demo.uses_src) Demo.uses_tree)
    ∧ unit_name u = "functions"
    ∧ unit_members u = fst <$> with_end (find_top_level_defs Demo.uses_tree).2
    ∧ unit_content u
      = join nl (get_imports Demo.uses_tree) +:+ nl
        +:+ String.concat EmptyString
              ((λ uc, "from ." +:+ uc +:+ " import " +:+ uc +:+ nl) <$> ucs)
        +:+ nl
        +:+ String.concat EmptyString
              ((λ p, extract_code (splitlines Demo.uses_src) p.2.1 p.2.2 +:+ nl +:+ nl)
                 <$> with_end (find_top_level_defs Demo.uses_tree).2)
    ∧ NoDup ucs
    ∧ ∀ n, n ∈ ucs
           ↔ n ∈ decl_name <$> (find_top_level_defs Demo.uses_tree).1
             ∧ ∃ name lineno end_lineno ds ch,
                 FunctionDef name lineno end_lineno ds ch ∈ Demo.uses_tree
                 ∧ reads n (FunctionDef name lineno end_lineno ds ch).
Proof.
  apply (functions_unit_imports_classes_read Demo.ast_parse "in/m.py" Demo.uses_src
           (splitlines Demo.uses_src) Demo.uses_tree).
  simpl. discriminate.
Defined.

(** ** The text of the residual file *)

Lemma finish_shrunk_trimmed (parts : list string) :
  finish_shrunk parts = EmptyString
  ∨ ∃ body, finish_shrunk parts = body +:+ nl
            ∧ body ≠ EmptyString
            ∧ lstrip body = body ∧ rstrip body = body
            ∧ contains (finish_shrunk parts) (nl +:+ nl +:+ nl) = false.
Proof.
  unfold finish_shrunk. cbv zeta.
  set (result := collapse_blank_lines (join nl parts)).
  destruct (String.eqb (strip result) EmptyString) eqn:Hempty; [by left|].
  right. exists (strip result). split; [done|].
  split; [by apply String.eqb_neq in Hempty|].
  split; [apply strip_no_leading_space|].
  split; [apply strip_no_trailing_space|].
  destruct (contains (strip result +:+ nl) (nl +:+ nl +:+ nl)) eqn:Hc; [|done].
  apply contains_three_after_nl in Hc as [Hc|[x Hx]].
  - rewrite contains_strip in Hc; [done|]. apply collapse_blank_lines_done.
  - pose proof (strip_no_trailing_space result) as Hr. rewrite Hx in Hr at 2.
    rewrite <- append_assoc in Hr. by apply rstrip_last in Hr.
Qed.

Section ResidualText.

Variable ast_parse : string → option Module_.

(** X7. When nothing stays in the residual file - in config mode when
    every class is listed as a class and every function as a function by
    some group, in default mode always - the residual file is: the
    docstring of the source, or a generated docstring of four lines when
    it has none, an empty line, the import block with an empty line after
    it when there are imports, and the re-exports: one star import per
    group of the config, whether the group lists anything or not, in
    config mode, one import per class and one for the functions in default
    mode. *)
Theorem residual_when_everything_is_split code lines imports
    (classes_ functions_ : list decl) config :
  let class_names := decl_name <$> classes_ in
  let function_names := decl_name <$> functions_ in
  match config with
  | Some ms =>
      (∀ d, d ∈ classes_ → ∃ m, m ∈ ms ∧ decl_name d ∈ classes (snd m))
      ∧ (∀ d, d ∈ functions_ → ∃ m, m ∈ ms ∧ decl_name d ∈ functions (snd m))
  | None => True
  end →
  create_shrunk_original ast_parse code lines imports classes_ functions_ config
    class_names function_names
  = join nl
      ((match _extract_module_docstring ast_parse code with
        | Some original_docstring => [original_docstring; EmptyString]
        | None =>
            [triple_dq;
             "Main module - classes have been split into separate files.";
             "Import from the individual modules or use the __init__.py for convenience.";
             triple_dq;
             EmptyString]
        end)
       ++ (match imports with [] => [] | _ => imports ++ [EmptyString] end)
       ++ (match config with
           | Some ms => (λ m, "from ." +:+ fst m +:+ " import *") <$> ms
           | None =>
               ((λ c, "from ." +:+ c +:+ " import " +:+ c) <$> class_names)
               ++ (match function_names with
                   | [] => []
                   | _ => ["from .functions import " +:+ join ", " function_names]
                   end)
           end))
    +:+ nl.
Proof.
  cbv zeta. intros Hall. unfold create_shrunk_original.
  assert (Hnone : remaining_of config classes_ functions_
                    (decl_name <$> classes_) (decl_name <$> functions_) = ([], [])).
  { destruct config as [ms|]; [|apply default_keeps_nothing].
    destruct Hall as [Hcs Hfs]. unfold remaining_of. simpl.
    rewrite !remaining_decls_none; [done|..].
    - intros d Hd. apply elem_of_config_split_functions. by apply Hfs.
    - intros d Hd. apply elem_of_config_split_classes. by apply Hcs. }
  rewrite Hnone. reflexivity.
Qed.

(** X8. When some declaration stays in the residual file, the text of
    the file is empty, or it is trimmed: it neither starts nor ends with
    whitespace apart from the one line feed that closes it, and it never
    has three line feeds in a row - two empty lines one after the other. *)
Theorem residual_text_is_trimmed code lines imports
    (classes_ functions_ : list decl) config class_names function_names :
  remaining_of config classes_ functions_ class_names function_names ≠ ([], []) →
  let residual :=
    create_shrunk_original ast_parse code lines imports classes_ functions_ config
      class_names function_names in
  residual = EmptyString
  ∨ ∃ body, residual = body +:+ nl
            ∧ body ≠ EmptyString
            ∧ lstrip body = body ∧ rstrip body = body
            ∧ contains residual (nl +:+ nl +:+ nl) = false.
Proof.
  intros Hsome. cbv zeta. unfold create_shrunk_original.
  destruct (remaining_of config classes_ functions_ class_names function_names)
    as [remaining_classes remaining_functions].
  destruct remaining_classes as [|c cs].
  - destruct remaining_functions as [|f fs]; [done|]. apply finish_shrunk_trimmed.
  - apply finish_shrunk_trimmed.
Qed.

End ResidualText.

Lemma residual_when_everything_is_split_witness :
  create_shrunk_original Demo.ast_parse Demo.two_classes_src
    (splitlines Demo.two_classes_src) [] [("A", 1, Some 2)] []
    (Some Demo.core_A) ["A"] []
  = join nl
      ([triple_dq;
        "Main module - classes have been split into separate files.";
        "Import from the individual modules or use the __init__.py for convenience.";
        triple_dq;
        EmptyString]
       ++ [] ++ ["from .core import *"])
    +:+ nl.
Proof.
  apply (residual_when_everything_is_split Demo.ast_parse Demo.two_classes_src
           (splitlines Demo.two_classes_src) [] [("A", 1, Some 2)] []
           (Some Demo.core_A)).
  split.
  - intros d Hd. apply list_elem_of_singleton in Hd as ->.
    exists ("core", {| classes := ["A"]; functions := [] |}).
    split; apply list_elem_of_here.
  - intros d Hd. by apply elem_of_nil in Hd.
Defined.

Lemma residual_text_is_trimmed_witness :
  let residual :=
    create_shrunk_original Demo.ast_parse Demo.two_classes_src
      (splitlines Demo.two_classes_src) []
      [("A", 1, Some 2); ("C", 3, Some 4)] [] (Some Demo.core_A) ["A"; "C"] [] in
  residual = EmptyString
  ∨ ∃ body, residual = body +:+ nl
            ∧ body ≠ EmptyString
            ∧ lstrip body = body ∧ rstrip body = body
            ∧ contains residual (nl +:+ nl +:+ nl) = false.
Proof.
  apply (residual_text_is_trimmed Demo.ast_parse Demo.two_classes_src
           (splitlines Demo.two_classes_src) []
           [("A", 1, Some 2); ("C", 3, Some 4)] [] (Some Demo.core_A) ["A"; "C"] []).
  vm_compute. discriminate.
Defined.

(** ** The syntax stage *)

Section SyntaxStage.

Variable ast_parse : string → option Module_.
Variable syntax_error_message : string → string.

(** Whether the file [file_name] of a folder is there and parses. *)
Local Abbreviation parses_in w folder file_name :=
  (bool_decide (is_Some (fs w !! Path.join folder file_name ≫= ast_parse))).

Lemma check_files_sorted w folder (names : list string) (r : syntax_results) :
  let r' := foldl (check_file ast_parse syntax_error_message w folder) r names in
  files_checked r' = files_checked r ++ filter (λ f, is_py f = true) names
  ∧ valid_files r'
    = valid_files r
      ++ filter (λ f, is_py f = true ∧ parses_in w folder f = true) names
  ∧ invalid_files r'
    = invalid_files r
      ++ filter (λ f, is_py f = true ∧ parses_in w folder f = false) names
  ∧ length (syntax_errors r')
    = (length (syntax_errors r)
       + length (filter (λ f, is_py f = true ∧ parses_in w folder f = false) names))%nat
  ∧ all_valid r'
    = all_valid r
      && bool_decide
           (filter (λ f, is_py f = true ∧ parses_in w folder f = false) names = []).
Proof.
  cbv zeta. revert r. induction names as [|f names IH]; intros r.
  - simpl. rewrite !app_nil_r, andb_true_r. repeat split; lia.
  - cbn [foldl]. destruct (IH (check_file ast_parse syntax_error_message w folder r f))
      as (Hc & Hv & Hi & He & Ha).
    rewrite Hc, Hv, Hi, He, Ha. clear IH Hc Hv Hi He Ha.
    unfold check_file. destruct (is_py f) eqn:Hpy.
    + destruct (fs w !! Path.join folder f) as [code|] eqn:Hread; simpl.
      * destruct (ast_parse code) as [tree|] eqn:Hparse; simpl.
        -- rewrite (filter_cons_True (λ f, is_py f = true)) by done.
           rewrite (filter_cons_True (λ f, is_py f = true ∧ _ = true))
             by (by rewrite Hpy, Hread; simpl; rewrite Hparse).
           rewrite (filter_cons_False (λ f, is_py f = true ∧ _ = false))
             by (rewrite Hread; simpl; rewrite Hparse; by intros [_ ?]).
           by rewrite <- !app_assoc.
        -- rewrite (filter_cons_True (λ f, is_py f = true)) by done.
           rewrite (filter_cons_False (λ f, is_py f = true ∧ _ = true))
             by (rewrite Hread; simpl; rewrite Hparse; by intros [_ ?]).
           rewrite (filter_cons_True (λ f, is_py f = true ∧ _ = false))
             by (by rewrite Hpy, Hread; simpl; rewrite Hparse).
           rewrite <- !app_assoc, length_app. simpl.
           rewrite andb_false_r. repeat split; lia.
      * rewrite (filter_cons_True (λ f, is_py f = true)) by done.
        rewrite (filter_cons_False (λ f, is_py f = true ∧ _ = true))
          by (rewrite Hread; by intros [_ ?]).
        rewrite (filter_cons_True (λ f, is_py f = true ∧ _ = false))
          by (by rewrite Hpy, Hread).
        rewrite <- !app_assoc, length_app. simpl.
        rewrite andb_false_r. repeat split; lia.
    + rewrite (filter_cons_False (λ f, is_py f = true)) by (by rewrite Hpy).
      rewrite (filter_cons_False (λ f, is_py f = true ∧ _ = true))
        by (rewrite Hpy; by intros [? _]).
      rewrite (filter_cons_False (λ f, is_py f = true ∧ _ = false))
        by (rewrite Hpy; by intros [? _]).
      done.
Qed.

(** X9. The syntax stage looks at the files of the folder whose name
    ends in [.py] and at no other: the files it checked are these, in the
    order of the listing; the valid files are those among them that parse,
    the invalid files the others, with one error each; and the stage says
    that all are valid exactly when it recorded no error. *)
Theorem syntax_stage_sorts_the_files w split_folder :
  let r := _validate_syntax ast_parse syntax_error_message w split_folder in
  (all_valid r = true ↔ syntax_errors r = [])
  ∧ ∀ names, listdir w split_folder = Some names →
      files_checked r = filter (λ f, is_py f = true) names
      ∧ valid_files r
        = filter (λ f, is_py f = true ∧ parses_in w split_folder f = true) names
      ∧ invalid_files r
        = filter (λ f, is_py f = true ∧ parses_in w split_folder f = false) names
      ∧ length (syntax_errors r) = length (invalid_files r)
      ∧ (all_valid r = true ↔ invalid_files r = []).
Proof.
  cbv zeta. unfold _validate_syntax.
  destruct (listdir w split_folder) as [names|]; [|by split].
  destruct (check_files_sorted w split_folder names
              {| all_valid := true; files_checked := []; syntax_errors := [];
                 valid_files := []; invalid_files := [] |})
    as (Hc & Hv & Hi & He & Ha). simpl in *.
  assert (Hiff : ∀ l : list string, bool_decide (l = []) = true ↔ l = []).
  { intros l. apply bool_decide_eq_true. }
  split.
  - rewrite Ha, Hiff. rewrite <- !length_zero_iff_nil, He. done.
  - intros ? [= <-]. rewrite Hc, Hv, Hi, He, Ha, Hiff. done.
Qed.

End SyntaxStage.

(** ** The validation report *)

Section Verdict.

Variable summary_of : bool → nat → nat → string.

(** X11. Only a missing class makes the structural stage count: when
    every import succeeded and every class of the original is found in the
    package, the validation succeeds and its report has no error - also
    when functions of the original are missing, which the structural stage
    itself records as an error and as functions that do not match. *)
Theorem missing_function_alone_passes syntax imports
    original_class_list original_function_list
    (found_classes found_functions : gset string) warnings0 :
  all_imports_successful imports = true →
  list_to_set original_class_list ⊆ found_classes →
  let functionality :=
    compare_names original_class_list original_function_list
      found_classes found_functions warnings0 in
  let report := combine_results syntax imports functionality summary_of in
  success report = true
  ∧ errors report = []
  ∧ ((list_to_set original_function_list : gset string) ⊈ found_functions →
     functions_match functionality = false
     ∧ f_errors functionality
       = ["Missing functions in split files: "
            +:+ join ", " (elements (list_to_set original_function_list ∖ found_functions))]).
Proof.
  intros Himports Hclasses. cbv zeta.
  assert (Hnone : (list_to_set original_class_list : gset string) ∖ found_classes = ∅)
    by set_solver.
  unfold combine_results, compare_names. cbv zeta. cbn [classes_match functions_match f_errors].
  rewrite Himports.
  rewrite (bool_decide_eq_true_2 _ Hnone).
  cbn [success errors app length Nat.eqb negb].
  split; [done|]. split; [done|].
  intros Hmissing.
  assert (Hsome : (list_to_set original_function_list : gset string) ∖ found_functions ≠ ∅).
  { intros Hempty. apply Hmissing. intros x Hx.
    destruct (decide (x ∈ found_functions)) as [Hin|Hout]; [done|].
    assert (Hx' : x ∈ (list_to_set original_function_list : gset string) ∖ found_functions)
      by (by apply elem_of_difference).
    rewrite Hempty in Hx'. by apply elem_of_empty in Hx'. }
  rewrite (bool_decide_eq_false_2 _ Hsome).
  rewrite (decide_True (P := _ ∖ found_classes = ∅)) by done.
  rewrite (decide_False (P := _ ∖ found_functions = ∅)) by done.
  done.
Qed.

End Verdict.

Section ValidationReport.

Variable ast_parse : string → option Module_.
Variable syntax_error_message : string → string.
Variable spec_from_file_location : string → string → bool.
Variable exec_module : string → string → world → world * load_result.
Variable mkdtemp : world → string.
Variable summary_of : bool → nat → nat → string.

Local Abbreviation run_validation :=
  (validate_split_files ast_parse syntax_error_message spec_from_file_location
     exec_module mkdtemp summary_of).

Lemma syntax_stage_fails w split_folder :
  listdir w split_folder = None
  ∨ (∃ names f, listdir w split_folder = Some names ∧ f ∈ names ∧ is_py f = true
                ∧ fs w !! Path.join split_folder f ≫= ast_parse = None) →
  let r := _validate_syntax ast_parse syntax_error_message w split_folder in
  all_valid r = false ∧ syntax_errors r ≠ [].
Proof.
  cbv zeta. unfold _validate_syntax. intros [Hnone|(names & f & Hnames & Hf & Hpy & Hbad)].
  - by rewrite Hnone.
  - rewrite Hnames.
    destruct (check_files_sorted ast_parse syntax_error_message w split_folder names
                {| all_valid := true; files_checked := []; syntax_errors := [];
                   valid_files := []; invalid_files := [] |})
      as (_ & _ & _ & He & Ha). simpl in *.
    assert (Hin : f ∈ filter (λ f, is_py f = true
                     ∧ bool_decide (is_Some (fs w !! Path.join split_folder f ≫= ast_parse))
                       = false) names).
    { apply list_elem_of_filter. split; [|done]. split; [done|].
      rewrite Hbad. apply bool_decide_eq_false. by intros [? ?]. }
    split.
    + rewrite Ha. apply bool_decide_eq_false. intros Hnil.
      rewrite Hnil in Hin. by apply elem_of_nil in Hin.
    + intros Hnil. rewrite Hnil in He. simpl in He.
      destruct (filter _ names); [by apply elem_of_nil in Hin|discriminate He].
Qed.

(** X10. A syntax error in an emitted file ends the validation after the
    first stage: when the folder of the package cannot be listed, or one of
    its [.py] files does not parse, the import stage and the structural
    stage are not run - nothing in the file system, the search path or the
    registry is touched - and the report has no success, the errors of the
    syntax stage as its errors, no warning, and an empty summary. *)
Theorem syntax_failure_stops_validation output_dir base_name original_file_path w :
  let split_folder := Path.join output_dir base_name in
  listdir w split_folder = None
  ∨ (∃ names f, listdir w split_folder = Some names ∧ f ∈ names ∧ is_py f = true
                ∧ fs w !! Path.join split_folder f ≫= ast_parse = None) →
  ∃ report,
    run_validation output_dir base_name original_file_path w = (Some report, w)
    ∧ success report = false
    ∧ errors report
      = syntax_errors (_validate_syntax ast_parse syntax_error_message w split_folder)
    ∧ errors report ≠ []
    ∧ warnings report = []
    ∧ import_tests report = None
    ∧ functionality_tests report = None
    ∧ summary report = EmptyString.
Proof.
  cbv zeta. intros Hbad.
  destruct (syntax_stage_fails w _ Hbad) as [Hvalid Herrors].
  unfold validate_split_files. cbv zeta. rewrite Hvalid. cbn [negb].
  eexists. split; [reflexivity|].
  cbn [success errors warnings import_tests functionality_tests summary].
  by repeat split.
Qed.

(** X12. What the report gives as warnings are the warnings of the
    import stage, and only when an import failed: the warnings of the
    structural stage never get into the report, and those of the import
    stage do not when every import succeeded. *)
Theorem report_warnings_come_from_failed_imports
    output_dir base_name original_file_path w report :
  fst (validate_split_files ast_parse syntax_error_message spec_from_file_location
         exec_module mkdtemp summary_of output_dir base_name original_file_path w)
  = Some report →
  warnings report = []
  ∨ ∃ imports, import_tests report = Some imports
               ∧ all_imports_successful imports = false
               ∧ warnings report = import_warnings imports.
Proof.
  unfold validate_split_files. cbv zeta.
  destruct (all_valid _); cbn [negb fst]; [|by intros [= <-]; left].
  destruct (_validate_imports _ _ _ _ _ _) as [[imports|] w1]; [|done].
  destruct (_validate_functionality _ _ _ _ _ _) as [functionality w2].
  cbn [fst]. intros [= <-]. unfold combine_results.
  cbn [warnings import_tests].
  destruct (all_imports_successful imports) eqn:Hok; [by left|].
  right. by exists imports.
Qed.

End ValidationReport.

Lemma syntax_failure_stops_validation_witness :
  let w :=
    {| fs := {[ "out/m/A.py" := Demo.broken_src ]}; dirs := {[ "out"; "out/m" ]};
       sys_path := []; sys_modules := ∅; stdout := [] |} in
  ∃ report,
    validate_split_files Demo.ast_parse Demo.syntax_error_message
      Demo.spec_from_file_location Demo.exec_module Demo.mkdtemp Demo.summary_of
      "out" "m" "in/m.py" w = (Some report, w)
    ∧ success report = false
    ∧ errors report
      = syntax_errors (_validate_syntax Demo.ast_parse Demo.syntax_error_message w
                         (Path.join "out" "m"))
    ∧ errors report ≠ []
    ∧ warnings report = []
    ∧ import_tests report = None
    ∧ functionality_tests report = None
    ∧ summary report = EmptyString.
Proof.
  intros w.
  apply (syntax_failure_stops_validation Demo.ast_parse Demo.syntax_error_message
           Demo.spec_from_file_location Demo.exec_module Demo.mkdtemp Demo.summary_of
           "out" "m" "in/m.py" w).
  right. exists ["A.py"], "A.py".
  split; [vm_compute; reflexivity|]. split; [apply list_elem_of_here|].
  split; vm_compute; reflexivity.
Defined.

Lemma missing_function_alone_passes_witness :
  let imports :=
    {| all_imports_successful := true; successful_imports := ["__init__.py"; "A.py"];
       failed_imports := []; import_errors := []; import_warnings := [] |} in
  let syntax :=
    {| all_valid := true; files_checked := ["__init__.py"; "A.py"]; syntax_errors := [];
       valid_files := ["__init__.py"; "A.py"]; invalid_files := [] |} in
  let functionality := compare_names ["A"] ["f"] {[ "A" ]} ∅ [] in
  let report := combine_results syntax imports functionality Demo.summary_of in
  success report = true
  ∧ errors report = []
  ∧ ((list_to_set ["f"] : gset string) ⊈ ∅ →
     functions_match functionality = false
     ∧ f_errors functionality
       = ["Missing functions in split files: "
            +:+ join ", " (elements (list_to_set ["f"] ∖ (∅ : gset string)))]).
Proof.
  intros imports syntax.
  apply (missing_function_alone_passes Demo.summary_of syntax imports ["A"] ["f"]
           {[ "A" ]} ∅ []).
  - reflexivity.
  - set_solver.
Defined.

Lemma report_warnings_come_from_failed_imports_witness :
  ∃ report,
    fst (validate_split_files Demo.ast_parse Demo.syntax_error_message
           Demo.spec_from_file_location Demo.exec_module Demo.mkdtemp Demo.summary_of
           "out" "m" "in/m.py" Demo.stale_world) = Some report
    ∧ (warnings report = []
       ∨ ∃ imports, import_tests report = Some imports
                    ∧ all_imports_successful imports = false
                    ∧ warnings report = import_warnings imports).
Proof.
  eexists. split; [vm_compute; reflexivity|].
  eapply (report_warnings_come_from_failed_imports Demo.ast_parse
            Demo.syntax_error_message Demo.spec_from_file_location Demo.exec_module
            Demo.mkdtemp Demo.summary_of "out" "m" "in/m.py" Demo.stale_world).
  vm_compute. reflexivity.
Defined.

(** ** The structural stage *)

Lemma elem_of_import_from acc module (names : list alias) n :
  let acc' :=
    foldl (λ acc a,
             if String.eqb (alias_name a) "*" then acc
             else match module with
                  | Some m =>
                      if negb (String.eqb m EmptyString) && contains m "functions"
                      then (fst acc, snd acc ∪ {[alias_name a]})
                      else (fst acc ∪ {[alias_name a]}, snd acc)
                  | None => (fst acc ∪ {[alias_name a]}, snd acc)
                  end) (acc : gset string * gset string) names in
  (n ∈ acc'.1 ↔ n ∈ acc.1
                ∨ (n ∈ alias_name <$> names ∧ n ≠ "*" ∧ to_functions module = false))
  ∧ (n ∈ acc'.2 ↔ n ∈ acc.2
                  ∨ (n ∈ alias_name <$> names ∧ n ≠ "*" ∧ to_functions module = true)).
Proof.
  cbv zeta. revert acc. induction names as [|a names IH]; intros acc.
  - simpl. split; (split; [by left|]); (intros [H|(H & _)]; [done|]);
      by apply elem_of_nil in H.
  - cbn [foldl]. destruct (IH (if String.eqb (alias_name a) "*" then acc
              else match module with
                   | Some m =>
                       if negb (String.eqb m EmptyString) && contains m "functions"
                       then (fst acc, snd acc ∪ {[alias_name a]})
                       else (fst acc ∪ {[alias_name a]}, snd acc)
                   | None => (fst acc ∪ {[alias_name a]}, snd acc)
                   end)) as [IH1 IH2].
    rewrite IH1, IH2. clear IH IH1 IH2. rewrite fmap_cons.
    destruct (String.eqb (alias_name a) "*") eqn:Hstar.
    + apply String.eqb_eq in Hstar.
      split; (split; [intros [H|(H & Hne & Hm)]; [by left|right; split; [by right|done]]|]);
        (intros [H|(H & Hne & Hm)]; [by left|]);
        (apply elem_of_cons in H as [->|H]; [by rewrite Hstar in Hne|by right]).
    + apply String.eqb_neq in Hstar.
      assert (Hcase : (if to_functions module
                       then (fst acc, snd acc ∪ {[alias_name a]})
                       else (fst acc ∪ {[alias_name a]}, snd acc))
                      = match module with
                        | Some m =>
                            if negb (String.eqb m EmptyString) && contains m "functions"
                            then (fst acc, snd acc ∪ {[alias_name a]})
                            else (fst acc ∪ {[alias_name a]}, snd acc)
                        | None => (fst acc ∪ {[alias_name a]}, snd acc)
                        end).
      { by destruct module. }
      rewrite <- Hcase. clear Hcase.
      destruct (to_functions module) eqn:Hto; cbn [fst snd].
      * split.
        -- split; (intros [H|(H & Hne & Hm)]; [by left|done]).
        -- rewrite elem_of_union, elem_of_singleton. split.
           ++ intros [[H| ->]|(H & Hne & Hm)]; [by left|right..].
              ** split; [by left|done].
              ** split; [by right|done].
           ++ intros [H|(H & Hne & Hm)]; [by left; left|].
              apply elem_of_cons in H as [->|H]; [by left; right|].
              right. by split.
      * split.
        -- rewrite elem_of_union, elem_of_singleton. split.
           ++ intros [[H| ->]|(H & Hne & Hm)]; [by left|right..].
              ** split; [by left|done].
              ** split; [by right|done].
           ++ intros [H|(H & Hne & Hm)]; [by left; left|].
              apply elem_of_cons in H as [->|H]; [by left; right|].
              right. by split.
        -- split; (intros [H|(H & Hne & Hm)]; [by left|done]).
Qed.

Lemma elem_of_add_exports (acc : gset string * gset string) (s : node) n :
  (n ∈ (add_exports acc s).1 ↔ n ∈ acc.1 ∨ exports_as_class n s)
  ∧ (n ∈ (add_exports acc s).2 ↔ n ∈ acc.2 ∨ exports_as_function n s).
Proof.
  destruct s; try (simpl; split; (split; [by left|by intros [?|?]])).
  - simpl. rewrite elem_of_union, elem_of_list_to_set.
    split; [done|]. split; [by left|by intros [?|?]].
  - apply elem_of_import_from.
Qed.

Lemma elem_of_fold_exports (acc : gset string * gset string) (l : list node) n :
  (n ∈ (foldl add_exports acc l).1 ↔ n ∈ acc.1 ∨ ∃ s, s ∈ l ∧ exports_as_class n s)
  ∧ (n ∈ (foldl add_exports acc l).2
     ↔ n ∈ acc.2 ∨ ∃ s, s ∈ l ∧ exports_as_function n s).
Proof.
  revert acc. induction l as [|s l IH]; intros acc.
  - simpl. split; (split; [by left|]); (intros [H|(s & H & _)]; [done|]);
      by apply elem_of_nil in H.
  - cbn [foldl]. destruct (IH (add_exports acc s)) as [IH1 IH2].
    destruct (elem_of_add_exports acc s n) as [H1 H2].
    rewrite IH1, IH2, H1, H2. clear IH IH1 IH2 H1 H2.
    split; split.
    + intros [[H|H]|(s' & Hs' & H)]; [by left|right..].
      * exists s. split; [by left|done].
      * exists s'. split; [by right|done].
    + intros [H|(s' & Hs' & H)]; [by left; left|].
      apply elem_of_cons in Hs' as [->|Hs']; [by left; right|]. right. by exists s'.
    + intros [[H|H]|(s' & Hs' & H)]; [by left|right..].
      * exists s. split; [by left|done].
      * exists s'. split; [by right|done].
    + intros [H|(s' & Hs' & H)]; [by left; left|].
      apply elem_of_cons in Hs' as [->|Hs']; [by left; right|]. right. by exists s'.
Qed.

(** X13. What the structural stage reads off the package initializer:
    every import node anywhere in it counts.  A name imported with
    [from M import ...] is taken as a function when [M] contains
    [functions], as a class otherwise, and [*] is skipped; every module
    named by a plain [import] is taken as a class. *)
Theorem initializer_exports (init_tree : Module_) n :
  (n ∈ (init_exports init_tree).1
   ↔ ∃ s, s ∈ flat_map walk init_tree ∧ exports_as_class n s)
  ∧ (n ∈ (init_exports init_tree).2
     ↔ ∃ s, s ∈ flat_map walk init_tree ∧ exports_as_function n s).
Proof.
  unfold init_exports.
  destruct (elem_of_fold_exports (∅, ∅) (flat_map walk init_tree) n) as [H1 H2].
  rewrite H1, H2. cbn [fst snd].
  split; (split; [intros [H|H]; [by apply elem_of_empty in H|done]|by right]).
Qed.

Section StructuralStage.

Variable ast_parse : string → option Module_.
Variable syntax_error_message : string → string.

Lemma parse_script_fs filepath w :
  fs (snd (parse_script ast_parse syntax_error_message filepath w)) = fs w.
Proof.
  unfold parse_script. destruct (fs w !! filepath) as [code|]; [|done].
  by destruct (ast_parse code).
Qed.

Lemma scan_file_spec split_folder base_name
    (st : gset string * gset string * world) f n :
  let st' := scan_file ast_parse syntax_error_message split_folder base_name st f in
  fs st'.2 = fs st.2
  ∧ (n ∈ st'.1.1 ↔ n ∈ st.1.1 ∨ declared_by ast_parse fst st.2 split_folder base_name f n)
  ∧ (n ∈ st'.1.2 ↔ n ∈ st.1.2 ∨ declared_by ast_parse snd st.2 split_folder base_name f n).
Proof.
  cbv zeta. destruct st as [[cs fns] w]. unfold scan_file, declared_by. cbn [fst snd].
  destruct (is_py f) eqn:Hpy; cbn [andb];
    [|split; [done|]; split; (split; [by left|by intros [?|[? _]]])].
  destruct (bool_decide (f ∈ ["__init__.py"; base_name +:+ ".py"; "main.py"])) eqn:Hskip;
    cbn [negb].
  { apply bool_decide_eq_true in Hskip.
    split; [done|]. split; (split; [by left|by intros [?|(_ & ? & _)]]). }
  apply bool_decide_eq_false in Hskip.
  unfold parse_script.
  destruct (fs w !! Path.join split_folder f) as [code|];
    [|split; [done|]; split; (split; [by left|by intros [?|(_ & _ & ? & ? & ? & _)]])].
  destruct (ast_parse code) as [tree|] eqn:Hparse.
  - unfold find_top_level_defs. cbn [fst snd].
    split; [done|].
    split; rewrite elem_of_union, elem_of_list_to_set.
    + split.
      * intros [H|H]; [by left|]. right. split; [done|]. split; [done|].
        by exists code, tree.
      * intros [H|(_ & _ & code' & tree' & Hc & Ht & H)]; [by left|right].
        injection Hc as <-. rewrite Hparse in Ht. by injection Ht as <-.
    + split.
      * intros [H|H]; [by left|]. right. split; [done|]. split; [done|].
        by exists code, tree.
      * intros [H|(_ & _ & code' & tree' & Hc & Ht & H)]; [by left|right].
        injection Hc as <-. rewrite Hparse in Ht. by injection Ht as <-.
  - cbn [fst snd print fs]. split; [done|].
    split; (split; [by left|]); (intros [?|(_ & _ & code' & tree' & Hc & Ht & _)]; [done|]);
      injection Hc as <-; by rewrite Hparse in Ht.
Qed.

Lemma declared_by_fs pick w1 w2 split_folder base_name f n :
  fs w1 = fs w2 →
  declared_by ast_parse pick w1 split_folder base_name f n →
  declared_by ast_parse pick w2 split_folder base_name f n.
Proof. unfold declared_by. by intros ->. Qed.

Lemma scan_files_spec split_folder base_name (names : list string)
    (st : gset string * gset string * world) n :
  let st' :=
    foldl (scan_file ast_parse syntax_error_message split_folder base_name) st names in
  fs st'.2 = fs st.2
  ∧ (n ∈ st'.1.1
     ↔ n ∈ st.1.1
       ∨ ∃ f, f ∈ names ∧ declared_by ast_parse fst st.2 split_folder base_name f n)
  ∧ (n ∈ st'.1.2
     ↔ n ∈ st.1.2
       ∨ ∃ f, f ∈ names ∧ declared_by ast_parse snd st.2 split_folder base_name f n).
Proof.
  cbv zeta. revert st. induction names as [|f names IH]; intros st.
  - simpl. split; [done|].
    split; (split; [by left|]); (intros [?|(f & H & _)]; [done|]);
      by apply elem_of_nil in H.
  - cbn [foldl].
    destruct (IH (scan_file ast_parse syntax_error_message split_folder base_name st f))
      as (Hfs & Hc & Hf).
    destruct (scan_file_spec split_folder base_name st f n) as (Hfs1 & Hc1 & Hf1).
    cbv zeta in Hfs1, Hc1, Hf1.
    rewrite Hfs, Hc, Hf, Hc1, Hf1. clear IH Hfs Hc Hf Hc1 Hf1.
    split; [done|]. split; split.
    + intros [[H|H]|(f' & Hf' & H)]; [by left|right..].
      * exists f. split; [by left|done].
      * exists f'. split; [by right|]. by apply (declared_by_fs _ _ _ _ _ _ _ Hfs1).
    + intros [H|(f' & Hf' & H)]; [by left; left|].
      apply elem_of_cons in Hf' as [->|Hf']; [by left; right|]. right. exists f'.
      split; [done|]. by apply (declared_by_fs _ _ _ _ _ _ _ (eq_sym Hfs1)).
    + intros [[H|H]|(f' & Hf' & H)]; [by left|right..].
      * exists f. split; [by left|done].
      * exists f'. split; [by right|]. by apply (declared_by_fs _ _ _ _ _ _ _ Hfs1).
    + intros [H|(f' & Hf' & H)]; [by left; left|].
      apply elem_of_cons in Hf' as [->|Hf']; [by left; right|]. right. exists f'.
      split; [done|]. by apply (declared_by_fs _ _ _ _ _ _ _ (eq_sym Hfs1)).
Qed.

(** X14. The names the structural stage finds in the package are those
    the initializer imports and those declared at the top of the scanned
    files: the [.py] files of the folder that parse, without the
    initializer, [main.py] and the residual file - a declaration kept in the
    residual file is found only when the initializer imports it.  A name of
    the original is missing exactly when it is not found, and the classes
    (the functions) match exactly when none is missing. *)
Theorem structural_stage_finds original_file_path split_folder base_name w
    code tree names :
  fs w !! original_file_path = Some code →
  ast_parse code = Some tree →
  listdir w split_folder = Some names →
  let r := fst (_validate_functionality ast_parse syntax_error_message
                  original_file_path split_folder base_name w) in
  let from_init :=
    match fs w !! Path.join split_folder "__init__.py" ≫= ast_parse with
    | Some init_tree => init_exports init_tree
    | None => (∅, ∅)
    end in
  (∀ n, n ∈ split_classes r
        ↔ n ∈ from_init.1
          ∨ ∃ f, f ∈ names ∧ declared_by ast_parse fst w split_folder base_name f n)
  ∧ (∀ n, n ∈ split_functions r
          ↔ n ∈ from_init.2
            ∨ ∃ f, f ∈ names ∧ declared_by ast_parse snd w split_folder base_name f n)
  ∧ (∀ n, n ∈ missing_classes r
          ↔ n ∈ decl_name <$> (find_top_level_defs tree).1 ∧ n ∉ split_classes r)
  ∧ (∀ n, n ∈ missing_functions r
          ↔ n ∈ decl_name <$> (find_top_level_defs tree).2 ∧ n ∉ split_functions r)
  ∧ (classes_match r = true ↔ missing_classes r = [])
  ∧ (functions_match r = true ↔ missing_functions r = []).
Proof.
  intros Hread Hparse Hnames. cbv zeta.
  unfold _validate_functionality, parse_script. rewrite Hread, Hparse.
  unfold find_top_level_defs. cbn [fst snd]. rewrite Hnames.
  set (from_init :=
         match fs w !! Path.join split_folder "__init__.py" ≫= ast_parse with
         | Some init_tree => init_exports init_tree
         | None => (∅, ∅)
         end).
  set (pair_init :=
         match fs w !! Path.join split_folder "__init__.py" with
         | Some init_content_ =>
             match ast_parse init_content_ with
             | Some init_tree => (init_exports init_tree, [])
             | None => ((∅, ∅), ["Could not parse __init__.py: "
                                   +:+ syntax_error_message init_content_])
             end
         | None => ((∅, ∅), [])
         end).
  assert (Hinit : pair_init.1 = from_init).
  { unfold pair_init, from_init.
    destruct (fs w !! Path.join split_folder "__init__.py") as [c|]; [|done]. simpl.
    by destruct (ast_parse c). }
  destruct pair_init as [from_init' warnings0]. cbn [fst] in Hinit. subst from_init'.
  pose proof (λ n, scan_files_spec split_folder base_name names
                     (from_init.1, from_init.2, w) n) as Hscan.
  cbv zeta in Hscan. cbn [fst snd] in Hscan.
  destruct (foldl _ (from_init.1, from_init.2, w) names) as [[found_classes found_functions] w2].
  cbn [fst snd] in *. unfold compare_names. cbv zeta.
  cbn [split_classes split_functions missing_classes missing_functions
       classes_match functions_match].
  split; [|split; [|split; [|split; [|split]]]].
  - intros n. rewrite elem_of_elements. apply Hscan.
  - intros n. rewrite elem_of_elements. apply Hscan.
  - intros n. by rewrite !elem_of_elements, elem_of_difference, elem_of_list_to_set.
  - intros n. by rewrite !elem_of_elements, elem_of_difference, elem_of_list_to_set.
  - rewrite bool_decide_eq_true. split; [intros ->; apply elements_empty|].
    intros Hnil. apply leibniz_equiv. by apply elements_empty_iff.
  - rewrite bool_decide_eq_true. split; [intros ->; apply elements_empty|].
    intros Hnil. apply leibniz_equiv. by apply elements_empty_iff.
Qed.

End StructuralStage.

Lemma structural_stage_finds_witness :
  let w := Demo.stale_world in
  let r := fst (_validate_functionality Demo.ast_parse Demo.syntax_error_message
                  "in/m.py" "out/m" "m" w) in
  let from_init :=
    match fs w !! Path.join "out/m" "__init__.py" ≫= Demo.ast_parse with
    | Some init_tree => init_exports init_tree
    | None => (∅, ∅)
    end in
  (∀ n, n ∈ split_classes r
        ↔ n ∈ from_init.1
          ∨ ∃ f, f ∈ default [] (listdir w "out/m")
                 ∧ declared_by Demo.ast_parse fst w "out/m" "m" f n)
  ∧ (∀ n, n ∈ split_functions r
          ↔ n ∈ from_init.2
            ∨ ∃ f, f ∈ default [] (listdir w "out/m")
                   ∧ declared_by Demo.ast_parse snd w "out/m" "m" f n)
  ∧ (∀ n, n ∈ missing_classes r
          ↔ n ∈ decl_name <$> (find_top_level_defs Demo.a_b_tree).1 ∧ n ∉ split_classes r)
  ∧ (∀ n, n ∈ missing_functions r
          ↔ n ∈ decl_name <$> (find_top_level_defs Demo.a_b_tree).2
            ∧ n ∉ split_functions r)
  ∧ (classes_match r = true ↔ missing_classes r = [])
  ∧ (functions_match r = true ↔ missing_functions r = []).
Proof.
  intros w r from_init.
  apply (structural_stage_finds Demo.ast_parse Demo.syntax_error_message
           "in/m.py" "out/m" "m" w Demo.a_b_src Demo.a_b_tree
           (default [] (listdir w "out/m"))).
  - vm_compute. reflexivity.
  - vm_compute. reflexivity.
  - vm_compute. reflexivity.
Defined.

(** ** The write phase *)

Lemma endswith_app (x p : string) : endswith (x +:+ p) p = true.
Proof. unfold endswith. rewrite rev_append. apply prefix_append. Qed.

Lemma path_join_suffix (a b : string) : ∃ x, Path.join a b = x +:+ b.
Proof.
  unfold Path.join. destruct (startswith b _); [by exists EmptyString|].
  destruct (_ || _); [by exists a|].
  exists (a +:+ String Path.SEP EmptyString). by rewrite append_assoc.
Qed.

Lemma py_path_endswith folder name :
  endswith (Path.join folder (name +:+ ".py")) ".py" = true.
Proof.
  destruct (path_join_suffix folder (name +:+ ".py")) as [x ->].
  rewrite <- append_assoc. apply endswith_app.
Qed.

Lemma backup_path_is_no_py (code_path : string) :
  endswith (code_path +:+ ".backup") ".py" = false.
Proof.
  unfold endswith. rewrite rev_append.
  change (String.rev ".backup") with "pukcab.".
  change (String.rev ".py") with "yp.".
  rewrite append_cons. by apply prefix_head_ne.
Qed.

Section WritePhase.

Variable black : option black_package.

(** The registry after [import black]. *)
Local Abbreviation with_black registry :=
  (match black with
   | Some b => registry ∪ black_modules b
   | None => registry
   end).

Lemma format_code_lookup path w p :
  fs (format_code black path w) !! p
  = if decide (p = path) then format_text black <$> fs w !! path else fs w !! p.
Proof.
  unfold format_code, format_text. destruct black as [b|]; simpl.
  - destruct (fs w !! path) as [text|] eqn:Hread; simpl.
    + destruct (format_file_in_place b text) as [formatted|msg]; simpl.
      * destruct (decide (p = path)) as [->|Hne];
          [by rewrite lookup_insert_eq|by rewrite lookup_insert_ne].
      * destruct (decide (p = path)) as [->|Hne]; [by rewrite Hread|done].
    + destruct (decide (p = path)) as [->|Hne]; [by rewrite Hread|done].
  - destruct (decide (p = path)) as [->|Hne]; [by destruct (fs w !! path)|done].
Qed.

Lemma format_code_frame path w :
  dirs (format_code black path w) = dirs w
  ∧ sys_path (format_code black path w) = sys_path w
  ∧ sys_modules (format_code black path w) = with_black (sys_modules w).
Proof.
  unfold format_code. destruct black as [b|]; simpl; [|done].
  destruct (fs w !! path) as [text|]; simpl; [|done].
  by destruct (format_file_in_place b text).
Qed.

Lemma with_black_idemp (registry : gmap string string) :
  with_black (with_black registry) = with_black registry.
Proof.
  destruct black as [b|]; [|done].
  by rewrite <- (assoc_L (∪)), (idemp_L (∪)).
Qed.

Lemma emit_lookup folder w (u : unit_file) path :
  fs (emit black folder w u) !! path
  = if decide (path = Path.join folder (unit_name u +:+ ".py"))
    then Some (format_text black (unit_content u))
    else fs w !! path.
Proof.
  unfold emit. rewrite format_code_lookup. unfold write_file. simpl.
  destruct (decide _) as [->|Hne].
  - by rewrite lookup_insert_eq.
  - by rewrite lookup_insert_ne.
Qed.

Lemma emit_frame folder w (u : unit_file) :
  dirs (emit black folder w u) = dirs w
  ∧ sys_path (emit black folder w u) = sys_path w
  ∧ sys_modules (emit black folder w u) = with_black (sys_modules w).
Proof.
  unfold emit.
  exact (format_code_frame (Path.join folder (unit_name u +:+ ".py"))
           (write_file (Path.join folder (unit_name u +:+ ".py")) (unit_content u) w)).
Qed.

Lemma emit_all_frame folder (us : list unit_file) w :
  dirs (foldl (emit black folder) w us) = dirs w
  ∧ sys_path (foldl (emit black folder) w us) = sys_path w
  ∧ with_black (sys_modules (foldl (emit black folder) w us))
    = with_black (sys_modules w).
Proof.
  revert w. induction us as [|u us IH]; intros w; [done|].
  cbn [foldl]. destruct (IH (emit black folder w u)) as (-> & -> & ->).
  destruct (emit_frame folder w u) as (-> & -> & ->).
  by rewrite with_black_idemp.
Qed.

Lemma emit_keeps_other_files folder w (u : unit_file) path :
  endswith path ".py" = false →
  fs (emit black folder w u) !! path = fs w !! path.
Proof.
  intros Hpath. rewrite emit_lookup. destruct (decide _) as [->|]; [|done].
  by rewrite py_path_endswith in Hpath.
Qed.

Lemma emit_all_keeps_other_files folder (us : list unit_file) w path :
  endswith path ".py" = false →
  fs (foldl (emit black folder) w us) !! path = fs w !! path.
Proof.
  intros Hpath. revert w. induction us as [|u us IH]; intros w; [done|].
  cbn [foldl]. rewrite IH. by apply emit_keeps_other_files.
Qed.

(** Without the formatter every file that is written gets the same
    message. *)
Lemma emit_all_missing_black folder (us : list unit_file) w :
  black = None →
  stdout (foldl (emit black folder) w us)
  = stdout w
    ++ replicate (length us)
         (warning_sign +:+ " Black not found. Skipping code formatting.").
Proof.
  intros Hblack. revert w. induction us as [|u us IH]; intros w.
  - simpl. by rewrite app_nil_r.
  - cbn [foldl]. rewrite IH. unfold emit, format_code. rewrite Hblack. simpl.
    by rewrite <- app_assoc.
Qed.

(** X15. The write phase changes files whose name ends in [.py] and the
    backup, and no other file; it makes the folder of the package and
    leaves the search path alone.  The module registry gets the modules
    that importing the formatter registers, where they are not registered
    yet, and is left alone when the formatter is not installed; then the
    phase prints its remark on the missing formatter once for every file
    it writes: the residual file, the partition units, the main unit when
    there is one, the initializer and the interface file. *)
Theorem write_phase_touches_only_py_files code_path output_dir (p : plan) w :
  let w' := write_plan black code_path output_dir p w in
  (∀ path, fs w' !! path ≠ fs w !! path →
           path = code_path +:+ ".backup" ∨ endswith path ".py" = true)
  ∧ dirs w' = {[Path.join output_dir (p_base p)]} ∪ dirs w
  ∧ sys_path w' = sys_path w
  ∧ sys_modules w'
    = match black with
      | Some b => sys_modules w ∪ black_modules b
      | None => sys_modules w
      end
  ∧ (black = None →
     stdout w'
     = stdout w
       ++ replicate (3 + length (p_units p) + length (option_list (p_main p)))
            (warning_sign +:+ " Black not found. Skipping code formatting.")).
Proof.
  cbv zeta. unfold write_plan. cbv zeta.
  set (w1 := if exists_ w (code_path +:+ ".backup") then w
             else match fs w !! code_path with
                  | Some original => write_file (code_path +:+ ".backup") original w
                  | None => w
                  end).
  assert (Hw1 : (∀ path, path ≠ code_path +:+ ".backup" → fs w1 !! path = fs w !! path)
                ∧ dirs w1 = dirs w ∧ sys_path w1 = sys_path w
                ∧ sys_modules w1 = sys_modules w ∧ stdout w1 = stdout w).
  { unfold w1. destruct (exists_ w _); [done|].
    destruct (fs w !! code_path); [|done]. simpl.
    split; [|done]. intros path Hne. by rewrite lookup_insert_ne. }
  destruct Hw1 as (Hfs1 & Hdirs1 & Hpath1 & Hmods1 & Hout1).
  split; [|split; [|split; [|split]]].
  - intros path Hchanged.
    destruct (decide (path = code_path +:+ ".backup")) as [|Hne]; [by left|right].
    destruct (endswith path ".py") eqn:Hpy; [done|]. exfalso. apply Hchanged.
    rewrite emit_keeps_other_files by done.
    rewrite emit_keeps_other_files by done.
    rewrite emit_all_keeps_other_files by done.
    rewrite emit_all_keeps_other_files by done.
    rewrite emit_keeps_other_files by done.
    simpl. by apply Hfs1.
  - rewrite (proj1 (emit_frame _ _ _)), (proj1 (emit_frame _ _ _)).
    rewrite (proj1 (emit_all_frame _ _ _)), (proj1 (emit_all_frame _ _ _)).
    rewrite (proj1 (emit_frame _ _ _)). simpl. by rewrite Hdirs1.
  - rewrite (proj1 (proj2 (emit_frame _ _ _))), (proj1 (proj2 (emit_frame _ _ _))).
    rewrite (proj1 (proj2 (emit_all_frame _ _ _))), (proj1 (proj2 (emit_all_frame _ _ _))).
    rewrite (proj1 (proj2 (emit_frame _ _ _))). done.
  - rewrite (proj2 (proj2 (emit_frame _ _ _))), (proj2 (proj2 (emit_frame _ _ _))).
    rewrite with_black_idemp.
    rewrite (proj2 (proj2 (emit_all_frame _ _ _))), (proj2 (proj2 (emit_all_frame _ _ _))).
    rewrite (proj2 (proj2 (emit_frame _ _ _))), with_black_idemp. simpl.
    by rewrite Hmods1.
  - intros Hblack.
    assert (Hone : ∀ folder w0 u,
      stdout (emit black folder w0 u)
      = stdout w0 ++ [warning_sign +:+ " Black not found. Skipping code formatting."]).
    { intros folder w0 u. apply (emit_all_missing_black folder [u] w0 Hblack). }
    rewrite Hone, Hone, !emit_all_missing_black, Hone by done. simpl stdout at 1.
    rewrite Hout1, <- !app_assoc. f_equal.
    set (msg := warning_sign +:+ " Black not found. Skipping code formatting.").
    change [msg] with (replicate 1 msg).
    rewrite <- !replicate_add. f_equal. lia.
Qed.

(** X16. A backup that is there is never written again: the write phase
    leaves an existing backup as it is, whatever it holds; when there is
    none, the backup gets the text the input file has before anything is
    written. *)
Theorem backup_is_written_once code_path output_dir (p : plan) w :
  let backup_path := code_path +:+ ".backup" in
  let w' := write_plan black code_path output_dir p w in
  (exists_ w backup_path = true → fs w' !! backup_path = fs w !! backup_path)
  ∧ (exists_ w backup_path = false → fs w' !! backup_path = fs w !! code_path).
Proof.
  cbv zeta. unfold write_plan. cbv zeta.
  pose proof (backup_path_is_no_py code_path) as Hno.
  rewrite emit_keeps_other_files by done.
  rewrite emit_keeps_other_files by done.
  rewrite emit_all_keeps_other_files by done.
  rewrite emit_all_keeps_other_files by done.
  rewrite emit_keeps_other_files by done.
  split; intros Hexists; rewrite Hexists; simpl; [done|].
  destruct (fs w !! code_path) as [original|] eqn:Hread; simpl.
  - apply lookup_insert_eq.
  - unfold exists_ in Hexists. apply orb_false_iff in Hexists as [Hfile _].
    apply bool_decide_eq_false in Hfile.
    destruct (fs w !! (code_path +:+ ".backup")) eqn:Hb; [|done].
    exfalso. apply Hfile. by eexists.
Qed.

(** X17. The interface file is written last, to the output directory
    under the name of the input: when the output directory is the
    directory of the input, the input file itself is replaced by the
    interface file, as the formatter leaves it. *)
Theorem interface_file_replaces_input code_path output_dir (p : plan) w :
  Path.join output_dir (p_base p +:+ ".py") = code_path →
  fs (write_plan black code_path output_dir p w) !! code_path
  = Some (format_text black (p_interface p)).
Proof.
  intros Hsame. unfold write_plan. cbv zeta. rewrite emit_lookup. cbn [unit_name unit_content].
  by rewrite decide_True.
Qed.

End WritePhase.

Lemma interface_file_replaces_input_witness :
  let p := Demo.make_plan "out/m.py" None Demo.a_b_src
             (splitlines Demo.a_b_src) Demo.a_b_tree in
  fs (write_plan Demo.black "out/m.py" "out" p
        (Demo.source_world "out/m.py" Demo.a_b_src)) !! "out/m.py"
  = Some (format_text Demo.black (p_interface p)).
Proof.
  intros p. apply interface_file_replaces_input. vm_compute. reflexivity.
Defined.

(** ** A config that cannot be read *)

Section ConfigFailure.

Variable ast_parse : string → option Module_.
Variable syntax_error_message : string → string.
Variable spec_from_file_location : string → string → bool.
Variable exec_module : string → string → world → world * load_result.
Variable mkdtemp : world → string.
Variable summary_of : bool → nat → nat → string.
Variable json_load : string → json_result.
Variable black : option black_package.

(** X18. When a config path is given and the config does not load, the
    run ends before it looks at the input, whether the input is there and
    parses or not, and no file and no directory is made or changed - no
    backup either.  For a config file that is missing or is no JSON the
    run prints one diagnostic and returns without a verdict; for one that
    holds JSON [null] it returns and prints nothing; and when the path is
    a directory, or leads through a regular file, an exception leaves the
    run, since only the missing file and the JSON error are caught. *)
Theorem unreadable_config_writes_nothing code_path output_dir config_path w :
  config_path ≠ EmptyString →
  (∀ text config, fs w !! config_path = Some text → json_load text ≠ JsonConfig config) →
  let r := write_split_files ast_parse syntax_error_message spec_from_file_location
             exec_module mkdtemp summary_of json_load black
             code_path output_dir (Some config_path) w in
  let config_diagnostic reason :=
    cross_mark +:+ " Error parsing config file " +:+ config_path +:+ ": " +:+ reason in
  (fs (snd r) = fs w ∧ dirs (snd r) = dirs w
   ∧ sys_path (snd r) = sys_path w ∧ sys_modules (snd r) = sys_modules w)
  ∧ (∀ text msg, fs w !! config_path = Some text → json_load text = JsonError msg →
       fst r = Returned None ∧ stdout (snd r) = stdout w ++ [config_diagnostic msg])
  ∧ (fs w !! config_path = None → config_path ∉ dirs w →
     under_a_file w config_path = false →
     fst r = Returned None
     ∧ stdout (snd r)
       = stdout w
         ++ [config_diagnostic ("[Errno 2] No such file or directory: "
                                  +:+ String SQ config_path +:+ String SQ EmptyString)])
  ∧ (∀ text, fs w !! config_path = Some text → json_load text = JsonNull →
       fst r = Returned None ∧ stdout (snd r) = stdout w)
  ∧ (fs w !! config_path = None →
     config_path ∈ dirs w ∨ under_a_file w config_path = true →
     fst r = Raised ∧ stdout (snd r) = stdout w).
Proof.
  intros Hpath Hconfig. cbv zeta. unfold write_split_files.
  apply String.eqb_neq in Hpath. rewrite Hpath.
  destruct (parse_config_keeps_files json_load config_path w)
    as (Hfs & Hdirs & Hsp & Hmods & _).
  destruct (parse_config_cases json_load config_path w)
    as (Hok & Hnull & Herr & Hraise & Hmissing).
  cbv zeta in *. split; [|split; [|split; [|split]]].
  - destruct (parse_config json_load config_path w) as [[| |config] w0] eqn:Hcfg;
      cbn [fst snd] in *; [done|done|]. exfalso.
    revert Hcfg. unfold parse_config, open_read.
    destruct (fs w !! config_path) as [text|] eqn:Htext.
    + specialize (Hconfig text). destruct (json_load text); try done.
      by destruct (Hconfig config0).
    + destruct (bool_decide _); [done|]. by destruct (under_a_file _ _).
  - intros text msg Htext Hjson. by rewrite (Herr _ _ Htext Hjson).
  - intros Hnone Hdir Hfile. by rewrite (Hmissing Hnone Hdir Hfile).
  - intros text Htext Hjson. by rewrite (Hnull _ Htext Hjson).
  - intros Hnone Hway. by rewrite (Hraise Hnone Hway).
Qed.

End ConfigFailure.

Lemma unreadable_config_writes_nothing_witness :
  let w := Demo.source_world "in/m.py" Demo.a_b_src in
  let r := Demo.write_split_files "in/m.py" "out" (Some "in/groups.json") w in
  fs (snd r) = fs w
  ∧ dirs (snd r) = dirs w
  ∧ fst r = Returned None
  ∧ stdout (snd r)
    = [cross_mark +:+ " Error parsing config file in/groups.json: "
         +:+ "[Errno 2] No such file or directory: "
         +:+ String SQ "in/groups.json" +:+ String SQ EmptyString].
Proof.
  intros w r.
  destruct (unreadable_config_writes_nothing Demo.ast_parse Demo.syntax_error_message
              Demo.spec_from_file_location Demo.exec_module Demo.mkdtemp Demo.summary_of
              Demo.json_load Demo.black "in/m.py" "out" "in/groups.json" w)
    as ((Hfs & Hdirs & _) & _ & Hmissing & _).
  - discriminate.
  - intros text config Htext. vm_compute in Htext. discriminate Htext.
  - destruct Hmissing as [Hret Hout].
    + vm_compute. reflexivity.
    + intros Hin. vm_compute in Hin. by repeat (apply elem_of_union in Hin as [Hin|Hin];
        [apply elem_of_singleton in Hin; discriminate Hin|]); try set_solver.
    + vm_compute. reflexivity.
    + split; [exact Hfs|]. split; [exact Hdirs|]. split; [exact Hret|]. exact Hout.
Defined.

(** ** The lines of the sandbox copy *)

Lemma contains_nl_cons (a : ascii) (s : string) :
  contains (String a s) nl = Ascii.eqb a NL || contains s nl.
Proof.
  cbn [contains]. f_equal. unfold nl. simpl.
  destruct (ascii_dec NL a) as [<-|Hne].
  - by destruct s.
  - symmetry. apply Ascii.eqb_neq. congruence.
Qed.

Lemma contains_nl_app (s t : string) :
  contains (s +:+ t) nl = contains s nl || contains t nl.
Proof.
  induction s as [|a s IH].
  - change (EmptyString +:+ t) with t. by destruct (contains t nl).
  - rewrite append_cons, !contains_nl_cons, IH. by rewrite orb_assoc.
Qed.

Lemma split_parts_without_nl (s p : string) :
  p ∈ split NL s → contains p nl = false.
Proof.
  revert p. induction s as [|a s IH]; intros p Hp; simpl in Hp.
  - by apply list_elem_of_singleton in Hp as ->.
  - destruct (Ascii.eqb a NL) eqn:Ha.
    + apply elem_of_cons in Hp as [->|Hp]; [done|by apply IH].
    + pose proof (split_nonempty NL s) as Hne.
      destruct (split NL s) as [|q qs]; [done|].
      apply elem_of_cons in Hp as [->|Hp].
      * rewrite contains_nl_cons, Ha. apply IH. by left.
      * apply IH. by right.
Qed.

Lemma split_line (p s : string) :
  contains p nl = false →
  split NL (p +:+ nl +:+ s) = p :: split NL s.
Proof.
  induction p as [|a p IH]; intros Hp.
  - change (EmptyString +:+ nl +:+ s) with (String NL s). reflexivity.
  - rewrite contains_nl_cons in Hp. apply orb_false_iff in Hp as [Ha Hp].
    rewrite append_cons. simpl. rewrite Ha, IH by done. done.
Qed.

Lemma split_one_line (p : string) :
  contains p nl = false → split NL p = [p].
Proof.
  induction p as [|a p IH]; intros Hp; [done|].
  rewrite contains_nl_cons in Hp. apply orb_false_iff in Hp as [Ha Hp].
  simpl. by rewrite Ha, IH.
Qed.

(** Joining lines and splitting the text again gives the lines back. *)
Lemma split_join (parts : list string) :
  parts ≠ [] →
  (∀ p, p ∈ parts → contains p nl = false) →
  split NL (join nl parts) = parts.
Proof.
  induction parts as [|p parts IH]; intros Hne Hparts; [done|].
  destruct parts as [|q parts].
  - simpl. apply split_one_line, Hparts. by left.
  - rewrite join_cons by done. rewrite split_line by (apply Hparts; by left).
    f_equal. apply IH; [done|]. intros p' Hp'. apply Hparts. by right.
Qed.

Lemma fix_line_without_nl (line : string) :
  contains line nl = false → contains (fix_line line) nl = false.
Proof.
  intros Hline. unfold fix_line. destruct (escapes_package line); [|done].
  by rewrite !contains_nl_app, Hline.
Qed.

(** X19. The sandbox copy of a file has the lines of the file, one for
    one: splitting the text that is written back at line feeds gives the
    lines of the original, each as it was or turned into a comment.  So the
    copy has as many lines as the original, and a line number in the copy
    is the same line in the emitted file. *)
Theorem sandbox_copy_keeps_the_lines (content : string) :
  split NL (fix_content content) = fix_line <$> split NL content
  ∧ length (split NL (fix_content content)) = length (split NL content).
Proof.
  assert (Heq : split NL (fix_content content) = fix_line <$> split NL content).
  { unfold fix_content. apply split_join.
    - pose proof (split_nonempty NL content) as Hne.
      by destruct (split NL content).
    - intros p (line & -> & Hline)%list_elem_of_fmap.
      by apply fix_line_without_nl, (split_parts_without_nl content). }
  split; [done|]. by rewrite Heq, length_fmap.
Qed.

(** ** The results of the import stage *)

Lemma contains_refl (s : string) : contains s s = true.
Proof. destruct s as [|a s]; [done|]. cbn [contains]. by rewrite prefix_refl. Qed.

Lemma contains_end (a s : string) : contains (a +:+ s) s = true.
Proof. apply contains_app_r, contains_refl. Qed.

Section ImportResults.

Variable spec_from_file_location : string → string → bool.
Variable exec_module : string → string → world → world * load_result.
Variable mkdtemp : world → string.

(** What loading the file [f] does to the results, when it does not end
    in an exception that is no [Exception]. *)
Lemma load_file_step folder base_name w r f w' r' :
  load_file spec_from_file_location exec_module folder base_name (w, Some r) f
  = (w', Some r') →
  (r' = r ∧ is_py f && negb (String.eqb f "__init__.py") = false)
  ∨ (is_py f && negb (String.eqb f "__init__.py") = true
     ∧ (r' = add_success f r
        ∨ (∃ msg, r' = add_warning msg r ∧ contains msg f = true)
        ∨ ∃ msg, r' = add_failure f msg r)).
Proof.
  unfold load_file. cbn [fst snd].
  destruct (is_py f && negb (String.eqb f "__init__.py")) eqn:Hpy;
    [|intros [= <- <-]; by left].
  intros Hrun. right. split; [done|]. revert Hrun.
  destruct (spec_from_file_location _ _).
  - destruct (exec_module _ _ _) as [reg res].
    destruct res as [|msg|msg|].
    + intros [= <- <-]. by left.
    + destruct (contains (lower msg) "relative import"); intros [= <- <-];
        right; left; eexists; (split; [reflexivity|]).
      * apply contains_middle.
      * apply contains_middle.
    + intros [= <- <-]. right. right. by eexists.
    + discriminate.
  - intros [= <- <-]. right. left. eexists. split; [reflexivity|]. apply contains_end.
Qed.

Lemma load_file_stops folder base_name w f :
  snd (load_file spec_from_file_location exec_module folder base_name (w, None) f) = None.
Proof. done. Qed.

Lemma load_files_stop folder base_name (names : list string) w :
  snd (foldl (load_file spec_from_file_location exec_module folder base_name)
         (w, None) names) = None.
Proof.
  revert w. induction names as [|f names IH]; intros w; [done|]. cbn [foldl]. apply IH.
Qed.

(** X20. Loading the files of the sandbox one after the other accounts
    for every one of them, whatever happens to the others: when the loop
    comes to its end, each [.py] file of the listing other than the
    initializer is among the successful imports, among the failed imports,
    or named in a warning; a file that fails does not keep the files after
    it from being loaded. *)
Theorem every_file_is_accounted_for folder base_name (names : list string) w r w' r' :
  foldl (load_file spec_from_file_location exec_module folder base_name)
    (w, Some r) names = (w', Some r') →
  ∀ f, f ∈ names → is_py f = true → f ≠ "__init__.py" →
    f ∈ successful_imports r'
    ∨ f ∈ failed_imports r'
    ∨ ∃ msg, msg ∈ import_warnings r' ∧ contains msg f = true.
Proof.
  assert (Hkeep : ∀ (l : list string) w r w' r' f,
    foldl (load_file spec_from_file_location exec_module folder base_name)
      (w, Some r) l = (w', Some r') →
    (f ∈ successful_imports r
     ∨ f ∈ failed_imports r
     ∨ ∃ msg, msg ∈ import_warnings r ∧ contains msg f = true) →
    f ∈ successful_imports r'
    ∨ f ∈ failed_imports r'
    ∨ ∃ msg, msg ∈ import_warnings r' ∧ contains msg f = true).
  { clear. intros l. induction l as [|g l IH]; intros w r w' r' f Hrun Hacc.
    - by injection Hrun as <- <-.
    - cbn [foldl] in Hrun.
      destruct (load_file spec_from_file_location exec_module folder base_name
                  (w, Some r) g) as [w1 [r1|]] eqn:Hstep.
      + apply (IH _ _ _ _ _ Hrun).
        apply load_file_step in Hstep
          as [[-> _]|(_ & [->|[(msg & -> & _)|(msg & ->)]])]; [done|..];
          simpl; destruct Hacc as [H|[H|(m & H & Hm)]].
        * left. apply elem_of_app. by left.
        * by right; left.
        * right; right. by exists m.
        * by left.
        * by right; left.
        * right; right. exists m. split; [|done]. apply elem_of_app. by left.
        * by left.
        * right; left. apply elem_of_app. by left.
        * right; right. by exists m.
      + pose proof (load_files_stop folder base_name l w1) as Hnone.
        rewrite Hrun in Hnone. discriminate Hnone. }
  revert w r. induction names as [|g names IH]; intros w r Hrun f Hf Hpy Hinit.
  - by apply elem_of_nil in Hf.
  - cbn [foldl] in Hrun.
    destruct (load_file spec_from_file_location exec_module folder base_name
                (w, Some r) g) as [w1 [r1|]] eqn:Hstep.
    + apply elem_of_cons in Hf as [->|Hf]; [|by apply (IH _ _ Hrun)].
      apply (Hkeep _ _ _ _ _ _ Hrun).
      assert (Hdo : is_py g && negb (String.eqb g "__init__.py") = true).
      { rewrite Hpy. simpl. apply negb_true_iff. by apply String.eqb_neq. }
      apply load_file_step in Hstep
        as [[_ Hskip]|(_ & [->|[(msg & -> & Hmsg)|(msg & ->)]])].
      * by rewrite Hdo in Hskip.
      * left. simpl. apply elem_of_app. right. apply list_elem_of_here.
      * right; right. exists msg. split; [|done].
        simpl. apply elem_of_app. right. apply list_elem_of_here.
      * right; left. simpl. apply elem_of_app. right. apply list_elem_of_here.
    + pose proof (load_files_stop folder base_name names w1) as Hnone.
      rewrite Hrun in Hnone. discriminate Hnone.
Qed.

Lemma load_init_consistent folder base_name w r w' r' :
  ((all_imports_successful r = true ↔ import_errors r = [])
   ∧ (length (failed_imports r) ≤ length (import_errors r))%nat) →
  load_init spec_from_file_location exec_module folder base_name (w, Some r)
  = (w', Some r') →
  ((all_imports_successful r' = true ↔ import_errors r' = [])
   ∧ (length (failed_imports r') ≤ length (import_errors r'))%nat).
Proof.
  intros [Hflag Hlen]. unfold load_init. cbn [fst snd].
  destruct (spec_from_file_location _ _); [|by intros [= <- <-]].
  destruct (exec_module _ _ _) as [reg res].
  destruct res as [|msg|msg|]; [by intros [= <- <-]| | |discriminate];
    (destruct (contains (lower msg) "relative import"); intros [= <- <-];
       [done|]; simpl; split; [split; [done|by destruct (import_errors r)]|];
       rewrite !length_app; simpl; lia).
Qed.

Lemma load_files_consistent folder base_name (names : list string) w r w' r' :
  ((all_imports_successful r = true ↔ import_errors r = [])
   ∧ (length (failed_imports r) ≤ length (import_errors r))%nat) →
  foldl (load_file spec_from_file_location exec_module folder base_name)
    (w, Some r) names = (w', Some r') →
  ((all_imports_successful r' = true ↔ import_errors r' = [])
   ∧ (length (failed_imports r') ≤ length (import_errors r'))%nat).
Proof.
  revert w r. induction names as [|f names IH]; intros w r Hr Hrun.
  - by injection Hrun as <- <-.
  - cbn [foldl] in Hrun.
    destruct (load_file spec_from_file_location exec_module folder base_name
                (w, Some r) f) as [w1 [r1|]] eqn:Hstep.
    + apply (IH w1 r1); [|exact Hrun].
      destruct Hr as [Hflag Hlen].
      apply load_file_step in Hstep
        as [[-> _]|(_ & [->|[(msg & -> & _)|(msg & ->)]])]; [done|done|done|].
      simpl. split; [split; [done|by destruct (import_errors r)]|].
      rewrite !length_app. simpl. lia.
    + pose proof (load_files_stop folder base_name names w1) as Hnone.
      rewrite Hrun in Hnone. discriminate Hnone.
Qed.

(** X21. The results of the import stage are consistent: they say that
    all imports succeeded exactly when they hold no error; every failed
    import has its error, so there are at least as many errors as failed
    imports; and when all imports succeeded, no import is listed as
    failed. *)
Theorem import_results_are_consistent split_folder base_name w r :
  fst (_validate_imports spec_from_file_location exec_module mkdtemp
         split_folder base_name w) = Some r →
  (all_imports_successful r = true ↔ import_errors r = [])
  ∧ (length (failed_imports r) ≤ length (import_errors r))%nat
  ∧ (all_imports_successful r = true → failed_imports r = []).
Proof.
  intros Hrun.
  assert (Hr : ((all_imports_successful r = true ↔ import_errors r = [])
   ∧ (length (failed_imports r) ≤ length (import_errors r))%nat)).
  { revert Hrun. unfold _validate_imports. cbv zeta.
    destruct (_create_test_version_with_fixed_imports _ _ _ _) as [[w1 folder]|].
    - cbn [fst snd]. intros Hrun.
      set (start := {| all_imports_successful := true; successful_imports := [];
                       failed_imports := []; import_errors := [];
                       import_warnings := [] |}) in *.
      destruct (load_init spec_from_file_location exec_module folder base_name _)
        as [w2 [r2|]] eqn:Hinit.
      + cbn [fst snd] in Hrun.
        destruct (foldl (load_file spec_from_file_location exec_module folder base_name)
                    (w2, Some r2) (default [] (listdir w2 folder)))
          as [w3 r3] eqn:Hfiles.
        cbn [snd] in Hrun. subst r3.
        assert (Hstart : ((all_imports_successful start = true ↔ import_errors start = [])
   ∧ (length (failed_imports start) ≤ length (import_errors start))%nat))
          by (split; [done|simpl; lia]).
        apply (load_files_consistent _ _ _ _ _ _ _
                 (load_init_consistent _ _ _ _ _ _ Hstart Hinit) Hfiles).
      + cbn [fst snd] in Hrun. rewrite load_files_stop in Hrun. discriminate Hrun.
    - cbn [fst]. intros [= <-]. simpl. split; [done|lia]. }
  destruct Hr as [Hflag Hlen]. split; [done|]. split; [done|].
  intros Hok. apply Hflag in Hok. rewrite Hok in Hlen. simpl in Hlen.
  by destruct (failed_imports r); [|simpl in Hlen; lia].
Qed.

End ImportResults.

Lemma every_file_is_accounted_for_witness :
  let start :=
    {| all_imports_successful := true; successful_imports := [];
       failed_imports := []; import_errors := []; import_warnings := [] |} in
  ∃ w' r',
    foldl (load_file Demo.spec_from_file_location Demo.exec_module "out/m" "m")
      (Demo.package_world ∅, Some start) ["__init__.py"; "A.py"; "B.py"]
    = (w', Some r')
    ∧ ∀ f, f ∈ ["__init__.py"; "A.py"; "B.py"] → is_py f = true → f ≠ "__init__.py" →
        f ∈ successful_imports r'
        ∨ f ∈ failed_imports r'
        ∨ ∃ msg, msg ∈ import_warnings r' ∧ contains msg f = true.
Proof.
  intros start. eexists _, _. split; [vm_compute; reflexivity|].
  eapply (every_file_is_accounted_for Demo.spec_from_file_location Demo.exec_module
            "out/m" "m" ["__init__.py"; "A.py"; "B.py"] (Demo.package_world ∅) start).
  vm_compute. reflexivity.
Defined.

Lemma import_results_are_consistent_witness :
  ∃ r,
    fst (Demo._validate_imports "out/m" "m" (Demo.package_world ∅)) = Some r
    ∧ (all_imports_successful r = true ↔ import_errors r = [])
    ∧ (length (failed_imports r) ≤ length (import_errors r))%nat
    ∧ (all_imports_successful r = true → failed_imports r = []).
Proof.
  eexists. split; [vm_compute; reflexivity|].
  eapply (import_results_are_consistent Demo.spec_from_file_location Demo.exec_module
            Demo.mkdtemp "out/m" "m" (Demo.package_world ∅)).
  vm_compute. reflexivity.
Defined.

(** ** The documentation generator *)

Section Documentation.

Variable get_docstring : node → option string.
Variable ast_parse : string → option Module_.

Lemma docstring_or_default_nonempty (n : node) :
  Docgen.docstring_or_default get_docstring n ≠ EmptyString.
Proof.
  unfold Docgen.docstring_or_default.
  destruct (get_docstring n) as [d|]; [|done].
  destruct (String.eqb d EmptyString) eqn:Hd; [done|]. by apply String.eqb_neq.
Qed.

(** X22. The documentation has one entry for every top-level class, one
    for every plain function directly in the body of such a class, named
    [Class.method], and one for every top-level plain function, and no
    other entry: nothing for a coroutine function, for a class inside a
    class, or for a function inside a function.  The text of an entry is
    never empty: where the docstring is missing or empty it is
    [No docstring.] *)
Theorem documentation_entries (tree : Module_) :
  (∀ e, e ∈ Docgen.extract_docstrings get_docstring tree
        ↔ (∃ name lineno end_lineno ds ch,
             ClassDef name lineno end_lineno ds ch ∈ tree
             ∧ e = ("Class", name,
                    Docgen.docstring_or_default get_docstring
                      (ClassDef name lineno end_lineno ds ch)))
          ∨ (∃ class_name lineno end_lineno ds ch name lineno' end_lineno' ds' ch',
               ClassDef class_name lineno end_lineno ds ch ∈ tree
               ∧ FunctionDef name lineno' end_lineno' ds' ch' ∈ ch
               ∧ e = ("Method", class_name +:+ "." +:+ name,
                      Docgen.docstring_or_default get_docstring
                        (FunctionDef name lineno' end_lineno' ds' ch')))
          ∨ (∃ name lineno end_lineno ds ch,
               FunctionDef name lineno end_lineno ds ch ∈ tree
               ∧ e = ("Function", name,
                      Docgen.docstring_or_default get_docstring
                        (FunctionDef name lineno end_lineno ds ch))))
  ∧ (∀ e, e ∈ Docgen.extract_docstrings get_docstring tree → e.2 ≠ EmptyString)
  ∧ (∀ n, get_docstring n = None ∨ get_docstring n = Some EmptyString →
          Docgen.docstring_or_default get_docstring n = "No docstring.").
Proof.
  assert (Hiff : ∀ e, e ∈ Docgen.extract_docstrings get_docstring tree
        ↔ (∃ name lineno end_lineno ds ch,
             ClassDef name lineno end_lineno ds ch ∈ tree
             ∧ e = ("Class", name,
                    Docgen.docstring_or_default get_docstring
                      (ClassDef name lineno end_lineno ds ch)))
          ∨ (∃ class_name lineno end_lineno ds ch name lineno' end_lineno' ds' ch',
               ClassDef class_name lineno end_lineno ds ch ∈ tree
               ∧ FunctionDef name lineno' end_lineno' ds' ch' ∈ ch
               ∧ e = ("Method", class_name +:+ "." +:+ name,
                      Docgen.docstring_or_default get_docstring
                        (FunctionDef name lineno' end_lineno' ds' ch')))
          ∨ (∃ name lineno end_lineno ds ch,
               FunctionDef name lineno end_lineno ds ch ∈ tree
               ∧ e = ("Function", name,
                      Docgen.docstring_or_default get_docstring
                        (FunctionDef name lineno end_lineno ds ch)))).
  { intros e. unfold Docgen.extract_docstrings. rewrite list_elem_of_In, in_flat_map.
    split.
    - intros (s & Hs%list_elem_of_In & He%list_elem_of_In).
      destruct s; try (by apply elem_of_nil in He).
      + simpl in He. apply elem_of_cons in He as [->|He].
        * left. by eexists _, _, _, _, _.
        * right. left. apply list_elem_of_omap in He as (sub & Hsub & He).
          destruct sub; try discriminate He. simpl in He. injection He as <-.
          by eexists _, _, _, _, _, _, _, _, _, _.
      + simpl in He. apply list_elem_of_singleton in He as ->.
        right. right. by eexists _, _, _, _, _.
    - intros [(name & lineno & e' & ds & ch & Hs & ->)
             |[(cn & lineno & e' & ds & ch & name & l' & e'' & ds' & ch' & Hs & Hsub & ->)
              |(name & lineno & e' & ds & ch & Hs & ->)]].
      + eexists. split; [by apply list_elem_of_In|].
        apply list_elem_of_In. simpl. apply list_elem_of_here.
      + eexists. split; [by apply list_elem_of_In|].
        apply list_elem_of_In. simpl. apply list_elem_of_further.
        apply list_elem_of_omap. eexists. split; [exact Hsub|done].
      + eexists. split; [by apply list_elem_of_In|].
        apply list_elem_of_In. simpl. apply list_elem_of_here. }
  split; [exact Hiff|]. split.
  - intros e He. apply Hiff in He
      as [(? & ? & ? & ? & ? & _ & ->)
         |[(? & ? & ? & ? & ? & ? & ? & ? & ? & ? & _ & _ & ->)
          |(? & ? & ? & ? & ? & _ & ->)]];
      apply docstring_or_default_nonempty.
  - intros n [Hn|Hn]; unfold Docgen.docstring_or_default; by rewrite Hn.
Qed.

(** X23. The documentation generator writes one file or none.  An
    exception leaves it, with nothing changed, exactly when the input
    file cannot be read or does not parse, or when the folder of the
    package is no directory (the generator never makes it) or
    [DOCS.md] is one.  Otherwise it returns and [DOCS.md] in that folder
    holds the title line and the entries; no other file and no directory
    has changed. *)
Theorem documentation_is_one_file input_file output_dir w :
  let base := Path.splitext_root (Path.basename input_file) in
  let folder := Path.join output_dir base in
  let docs_md := Path.join folder "DOCS.md" in
  let r := Docgen.generate_doc get_docstring ast_parse input_file output_dir w in
  (fst r = Raised
   ↔ fs w !! input_file ≫= ast_parse = None ∨ folder ∉ dirs w ∨ docs_md ∈ dirs w)
  ∧ (fst r = Raised → snd r = w)
  ∧ (∀ tree, fs w !! input_file ≫= ast_parse = Some tree →
       fst r ≠ Raised →
       fst r = Returned None
       ∧ fs (snd r)
         = <[docs_md := Docgen.docs_text base
                          (Docgen.extract_docstrings get_docstring tree)]> (fs w)
       ∧ dirs (snd r) = dirs w
       ∧ sys_path (snd r) = sys_path w
       ∧ sys_modules (snd r) = sys_modules w).
Proof.
  cbv zeta. unfold Docgen.generate_doc. cbv zeta.
  destruct (fs w !! input_file) as [code|]; cbn [mbind option_bind];
    [|split; [split; [by left|done]|split; [done|]; by intros ? [=]]].
  destruct (ast_parse code) as [tree|];
    [|split; [split; [by left|done]|split; [done|]; by intros ? [=]]].
  destruct (bool_decide (_ ∈ dirs w)) eqn:Hfolder; cbn [andb negb].
  - apply bool_decide_eq_true in Hfolder.
    destruct (bool_decide (_ ∈ dirs w)) eqn:Hdocs; cbn [negb fst snd].
    + apply bool_decide_eq_true in Hdocs.
      split; [split; [by right; right|done]|split; [done|]]. by intros ? _ [].
    + apply bool_decide_eq_false in Hdocs.
      split; [split; [done|by intros [?|[?|?]]]|split; [done|]].
      intros tree' [= <-] _. done.
  - apply bool_decide_eq_false in Hfolder. cbn [fst snd].
    split; [split; [by right; left|done]|split; [done|]]. by intros ? _ [].
Qed.

End Documentation.

(** ** The command line *)

Lemma lstrip_char_cons (c : ascii) (s : string) :
  Cli.lstrip_char c (String c s) = Cli.lstrip_char c s.
Proof. simpl. by rewrite Ascii.eqb_refl. Qed.

Lemma lstrip_char_snoc (c : ascii) (s : string) :
  Cli.lstrip_char c s ≠ EmptyString →
  Cli.lstrip_char c (s +:+ String c EmptyString)
  = Cli.lstrip_char c s +:+ String c EmptyString.
Proof.
  induction s as [|a s IH]; intros Hne; [done|].
  rewrite append_cons. simpl in *. destruct (Ascii.eqb a c); [by apply IH|done].
Qed.

Lemma lstrip_char_all (c : ascii) (s : string) :
  Cli.lstrip_char c s = EmptyString →
  Cli.lstrip_char c (s +:+ String c EmptyString) = EmptyString.
Proof.
  induction s as [|a s IH]; intros Hall.
  - simpl. by rewrite Ascii.eqb_refl.
  - rewrite append_cons. simpl in *. destruct (Ascii.eqb a c); [by apply IH|done].
Qed.

(** A text between two [c] is stripped to what the text alone is
    stripped to. *)
Lemma strip_char_wrapped (c : ascii) (s : string) :
  Cli.strip_char c (String c (s +:+ String c EmptyString)) = Cli.strip_char c s.
Proof.
  unfold Cli.strip_char. rewrite lstrip_char_cons.
  destruct (Cli.lstrip_char c s) as [|a t] eqn:Hs.
  - by rewrite lstrip_char_all.
  - rewrite lstrip_char_snoc by (by rewrite Hs). rewrite Hs, rev_append.
    change (String.rev (String c EmptyString) +:+ String.rev (String a t))
      with (String c (String.rev (String a t))).
    by rewrite lstrip_char_cons.
Qed.

Section CommandLine.

Variable ast_parse : string → option Module_.
Variable syntax_error_message : string → string.
Variable spec_from_file_location : string → string → bool.
Variable exec_module : string → string → world → world * load_result.
Variable mkdtemp : world → string.
Variable summary_of : bool → nat → nat → string.
Variable json_load : string → json_result.
Variable black : option black_package.
Variable get_docstring : node → option string.

(** X24. On a source that does not parse, the command with [--doc] ends
    in an exception - the splitter itself has printed its diagnostic and
    returned, and the documentation generator then parses the file again
    and does not catch the error - while the same command without
    [--doc] returns.  Either way the output directory has been made and no
    file has been written. *)
Theorem doc_flag_on_broken_source_raises (a : Cli.args) w code :
  fs w !! Cli.strip_char DQ (Cli.input a) = Some code →
  ast_parse code = None →
  Cli.output a ≠ EmptyString →
  fs w !! Cli.output a = None →
  Cli.config a = None →
  let r := Cli.main ast_parse syntax_error_message spec_from_file_location
             exec_module mkdtemp summary_of json_load black get_docstring a w in
  fst r = (if Cli.doc a then Raised else Returned None)
  ∧ fs (snd r) = fs w
  ∧ dirs (snd r) = {[Cli.output a]} ∪ dirs w.
Proof.
  intros Hread Hparse Hout Hfree Hconfig. cbv zeta.
  unfold Cli.main. cbv zeta. unfold Cli.isfile, Cli.makedirs, Cli.isfile.
  rewrite Hread, Hfree.
  rewrite (bool_decide_eq_true_2 (is_Some (Some code))) by by eexists.
  rewrite (bool_decide_eq_false_2 (is_Some None)) by by intros [? ?].
  apply String.eqb_neq in Hout. rewrite Hout. cbn [negb orb].
  rewrite Hconfig. unfold write_split_files, parse_script.
  cbn [with_dirs fs]. rewrite Hread, Hparse. cbn [default].
  destruct (Cli.doc a); [|done].
  unfold Docgen.generate_doc. cbv zeta. cbn [print with_dirs fs fst snd].
  rewrite Hread, Hparse. done.
Qed.

(** X25. Double quotes around the input path make no difference: the
    command strips them before it does anything else. *)
Theorem quoted_input_is_the_same (a : Cli.args) w :
  let quoted :=
    {| Cli.input := String DQ (Cli.input a +:+ String DQ EmptyString);
       Cli.output := Cli.output a; Cli.doc := Cli.doc a; Cli.config := Cli.config a |} in
  Cli.main ast_parse syntax_error_message spec_from_file_location
    exec_module mkdtemp summary_of json_load black get_docstring quoted w
  = Cli.main ast_parse syntax_error_message spec_from_file_location
      exec_module mkdtemp summary_of json_load black get_docstring a w.
Proof.
  cbv zeta. unfold Cli.main. cbn [Cli.input Cli.output Cli.doc Cli.config].
  by rewrite strip_char_wrapped.
Qed.

End CommandLine.

Lemma doc_flag_on_broken_source_raises_witness :
  let a := {| Cli.input := "in/m.py"; Cli.output := "out"; Cli.doc := true;
              Cli.config := None |} in
  let w := Demo.source_world "in/m.py" Demo.broken_src in
  let r := Cli.main Demo.ast_parse Demo.syntax_error_message Demo.spec_from_file_location
             Demo.exec_module Demo.mkdtemp Demo.summary_of Demo.json_load
             Demo.black (λ _, None) a w in
  fst r = (if Cli.doc a then Raised else Returned None)
  ∧ fs (snd r) = fs w
  ∧ dirs (snd r) = {[Cli.output a]} ∪ dirs w.
Proof.
  intros a w.
  apply (doc_flag_on_broken_source_raises Demo.ast_parse Demo.syntax_error_message
           Demo.spec_from_file_location Demo.exec_module Demo.mkdtemp Demo.summary_of
           Demo.json_load Demo.black (λ _, None) a w Demo.broken_src).
  - vm_compute. reflexivity.
  - vm_compute. reflexivity.
  - discriminate.
  - vm_compute. reflexivity.
  - reflexivity.
Defined.

(** ** The units of the two modes *)

Section Units.

Variable ast_parse : string → option Module_.

(** X26. In config mode every group of the config gets a unit of its
    name, whatever it lists.  The members of the unit are the names the
    group lists as classes that some class of the source with an end line
    has, and the names it lists as functions that some plain function with
    an end line has; a listed name that the source does not declare in that
    way is passed over without a word.  A unit without members is the
    import block and nothing else. *)
Theorem every_group_gets_a_unit code_path code lines tree (ms : config_modules) m :
  let classes_ := (find_top_level_defs tree).1 in
  let functions_ := (find_top_level_defs tree).2 in
  m ∈ ms →
  ∃ u, u ∈ p_units (make_plan ast_parse code_path (Some ms) code lines tree)
       ∧ unit_name u = fst m
       ∧ (∀ n, n ∈ unit_members u
               ↔ (n ∈ classes (snd m)
                  ∧ ∃ d, d ∈ classes_ ∧ decl_name d = n ∧ decl_end d ≠ None)
                 ∨ (n ∈ functions (snd m)
                    ∧ ∃ d, d ∈ functions_ ∧ decl_name d = n ∧ decl_end d ≠ None))
       ∧ (unit_members u = [] → unit_content u = join nl (get_imports tree) +:+ nl).
Proof.
  cbv zeta. unfold find_top_level_defs. cbn [fst snd]. intros Hm.
  rewrite p_units_make_plan. cbv zeta. unfold partition_units.
  eexists. split; [apply list_elem_of_fmap_2, Hm|].
  split; [reflexivity|]. split.
  - intros n. cbn [unit_members group_unit]. rewrite elem_of_app, !elem_of_group_picks.
    rewrite !find_def_is_Some. split.
    + intros [(Hl & _ & Hd)|(Hl & _ & Hd)]; [by left|by right].
    + intros [(Hl & d & Hd & Hn & He)|(Hl & d & Hd & Hn & He)]; [left|right];
        (split; [done|]); (split; [|by exists d]);
        apply elem_of_decl_names; by exists d.
  - cbn [unit_members unit_content group_unit]. intros Hnone.
    apply app_eq_nil in Hnone as [Hcs Hfs].
    apply fmap_nil_inv in Hcs. apply fmap_nil_inv in Hfs.
    rewrite Hcs, Hfs. unfold picks_code. simpl.
    by rewrite !append_nil_r.
Qed.

(** X27. Every unit begins with the whole import block of the source,
    whether it uses the imports or not: each partition unit of either mode
    and the main unit start with the top-level import statements of the
    source, one per line in their order, and a line feed.  An import inside
    a class or a function is no part of the block. *)
Theorem every_unit_starts_with_the_imports code_path config code lines tree :
  let plan := make_plan ast_parse code_path config code lines tree in
  (∀ u, u ∈ p_units plan ++ option_list (p_main plan) →
        ∃ rest, unit_content u = join nl (get_imports tree) +:+ nl +:+ rest)
  ∧ (∀ line, line ∈ get_imports tree
             ↔ ∃ s, s ∈ tree ∧ is_import s = true ∧ unparse_import s = Some line).
Proof.
  cbv zeta. split.
  - intros u Hu. apply elem_of_app in Hu as [Hu|Hu].
    + rewrite p_units_make_plan in Hu. cbv zeta in Hu. unfold partition_units in Hu.
      destruct config as [ms|].
      * apply list_elem_of_fmap in Hu as (m & -> & _).
        cbn [unit_content group_unit]. by eexists.
      * apply elem_of_app in Hu as [Hu|Hu].
        -- apply list_elem_of_omap in Hu as (d & _ & Hu). unfold class_unit in Hu.
           destruct (decl_end d); [|done]. injection Hu as <-.
           cbn [unit_content]. by eexists.
        -- unfold functions_unit in Hu.
           destruct (omap function_decl tree); [by apply elem_of_nil in Hu|].
           apply list_elem_of_singleton in Hu as ->. cbn [unit_content]. by eexists.
    + rewrite p_main_make_plan in Hu. cbv zeta in Hu. unfold main_unit in Hu.
      destruct (free_lines _ _); [by apply elem_of_nil in Hu|].
      apply list_elem_of_singleton in Hu as ->. cbn [unit_content]. by eexists.
  - intros line. unfold get_imports. rewrite list_elem_of_omap. split.
    + intros (s & Hs & Hline). exists s. split; [done|]. split; [|done].
      by destruct s.
    + intros (s & Hs & _ & Hline). by exists s.
Qed.

End Units.

Lemma every_group_gets_a_unit_witness :
  let m := ("core", {| classes := ["A"]; functions := [] |}) in
  ∃ u, u ∈ p_units (Demo.make_plan "in/m.py" (Some Demo.core_A) Demo.two_classes_src
                      (splitlines Demo.two_classes_src) Demo.two_classes_tree)
       ∧ unit_name u = fst m
       ∧ (∀ n, n ∈ unit_members u
               ↔ (n ∈ classes (snd m)
                  ∧ ∃ d, d ∈ (find_top_level_defs Demo.two_classes_tree).1
                         ∧ decl_name d = n ∧ decl_end d ≠ None)
                 ∨ (n ∈ functions (snd m)
                    ∧ ∃ d, d ∈ (find_top_level_defs Demo.two_classes_tree).2
                           ∧ decl_name d = n ∧ decl_end d ≠ None))
       ∧ (unit_members u = []
          → unit_content u = join nl (get_imports Demo.two_classes_tree) +:+ nl).
Proof.
  intros m.
  apply (every_group_gets_a_unit Demo.ast_parse "in/m.py" Demo.two_classes_src
           (splitlines Demo.two_classes_src) Demo.two_classes_tree Demo.core_A m).
  apply list_elem_of_here.
Defined.

(** ** The lines of a text *)

Lemma splitlines_go_lf (cur : option string) (a : ascii) (s : string) :
  Nat.eqb (break_width (String a s)) 0 || Ascii.eqb a NL = true →
  splitlines_go cur O (String a s)
  = if Ascii.eqb a NL
    then String.rev (default EmptyString cur) :: splitlines_go None O s
    else splitlines_go (Some (String a (default EmptyString cur))) O s.
Proof.
  intros Ha. cbn [splitlines_go].
  destruct (Ascii.eqb a NL) eqn:Hnl.
  - apply Ascii.eqb_eq in Hnl as ->. reflexivity.
  - rewrite orb_false_r in Ha. apply Nat.eqb_eq in Ha. by rewrite Ha.
Qed.

(** A line feed put at the end of a text makes no line boundary of
    several bytes, and takes none away. *)
Lemma break_width_app_nl (a : ascii) (s : string) :
  break_width (String a (s +:+ nl)) = O ↔ break_width (String a s) = O.
Proof.
  assert (H133 : byte_is NL 133 = false) by reflexivity.
  assert (H168 : byte_is NL 168 = false) by reflexivity.
  assert (H169 : byte_is NL 169 = false) by reflexivity.
  destruct s as [|c2 [|c3 s]]; rewrite ?append_cons;
    change (EmptyString +:+ nl) with (String NL EmptyString);
    cbn [break_width];
    destruct (Ascii.eqb a CR); try (by repeat case_match);
    destruct (is_linebreak a); try done.
  - by rewrite H133, andb_false_r.
  - destruct (byte_is a 194 && byte_is c2 133); [done|].
    by rewrite H168, H169, !andb_false_r.
Qed.

Lemma lf_only_app_nl (t : string) : lf_only (t +:+ nl) = lf_only t.
Proof.
  induction t as [|a t IH]; [done|].
  rewrite append_cons. cbn [lf_only]. rewrite IH. f_equal. f_equal.
  apply eq_true_iff_eq. rewrite !Nat.eqb_eq. apply break_width_app_nl.
Qed.

Lemma splitlines_go_nonempty (cur : option string) (s : string) :
  lf_only s = true →
  s ≠ EmptyString ∨ cur ≠ None →
  splitlines_go cur O s ≠ [].
Proof.
  revert cur. induction s as [|a s IH]; intros cur Hlf Hsome.
  - destruct Hsome as [?|Hcur]; [done|]. by destruct cur.
  - cbn [lf_only] in Hlf. apply andb_true_iff in Hlf as [Ha Hlf].
    rewrite splitlines_go_lf by done.
    destruct (Ascii.eqb a NL); [done|]. apply IH; [done|by right].
Qed.

(** The lines of a text that ends in a line feed, joined again. *)
Lemma join_splitlines_closed (cur : option string) (t : string) :
  lf_only t = true →
  join nl (splitlines_go cur O (t +:+ nl))
  = String.rev (default EmptyString cur) +:+ t.
Proof.
  revert cur. induction t as [|a t IH]; intros cur Hlf.
  - change (EmptyString +:+ nl) with (String NL EmptyString).
    rewrite splitlines_go_lf by done. rewrite Ascii.eqb_refl. simpl.
    by rewrite append_nil_r.
  - cbn [lf_only] in Hlf. apply andb_true_iff in Hlf as [Ha Hlf].
    assert (Ha' : Nat.eqb (break_width (String a (t +:+ nl))) 0 || Ascii.eqb a NL = true).
    { apply orb_true_iff in Ha as [Ha|Ha]; [|by rewrite Ha, orb_true_r].
      apply Nat.eqb_eq in Ha. apply break_width_app_nl in Ha. by rewrite Ha. }
    rewrite append_cons, splitlines_go_lf by done.
    destruct (Ascii.eqb a NL) eqn:Hnl.
    + apply Ascii.eqb_eq in Hnl as ->.
      rewrite join_cons.
      * rewrite IH by done. simpl. reflexivity.
      * apply splitlines_go_nonempty; [by rewrite lf_only_app_nl|left; by destruct t].
    + rewrite IH by done.
      change (default EmptyString (Some (String a (default EmptyString cur))))
        with (String a (default EmptyString cur)).
      by rewrite rev_cons, append_assoc.
Qed.

(** The lines of a text that does not end in a line feed, joined again. *)
Lemma join_splitlines_open (cur : option string) (s : string) :
  lf_only s = true →
  (∀ t, s ≠ t +:+ nl) →
  join nl (splitlines_go cur O s)
  = String.rev (default EmptyString cur) +:+ s.
Proof.
  revert cur. induction s as [|a s IH]; intros cur Hlf Hopen.
  - destruct cur; simpl; by rewrite append_nil_r.
  - cbn [lf_only] in Hlf. apply andb_true_iff in Hlf as [Ha Hlf].
    assert (Hopen' : s = EmptyString ∨ ∀ t, s ≠ t +:+ nl).
    { destruct s as [|b s]; [by left|right]. intros t Ht.
      apply (Hopen (String a t)). by rewrite append_cons, <- Ht. }
    rewrite splitlines_go_lf by done.
    destruct (Ascii.eqb a NL) eqn:Hnl.
    + apply Ascii.eqb_eq in Hnl as ->.
      destruct Hopen' as [->|Hopen']; [by destruct (Hopen EmptyString)|].
      rewrite join_cons.
      * rewrite IH by done. reflexivity.
      * apply splitlines_go_nonempty; [done|]. left. intros ->.
        by apply (Hopen EmptyString).
    + destruct Hopen' as [->|Hopen'].
      * simpl. by rewrite rev_cons.
      * rewrite IH by done.
        change (default EmptyString (Some (String a (default EmptyString cur))))
          with (String a (default EmptyString cur)).
        by rewrite rev_cons, append_assoc.
Qed.

Lemma extract_code_all (lines : list string) :
  extract_code lines 1 (Z.of_nat (length lines)) = join nl lines.
Proof.
  unfold extract_code. rewrite py_slice_in_range by lia.
  rewrite Z.min_l by lia. rewrite Z.min_l by lia. simpl.
  rewrite take_ge; [done|]. rewrite length_drop. lia.
Qed.

(** X28. Taking a text apart into lines and extracting all of them gives
    the text back, up to the line feed at its end: for a text whose line
    boundaries are line feeds only, the text of the lines [1..n] of its [n]
    lines is the text without its last line feed when it ends in one, and
    the text itself when it does not. *)
Theorem all_lines_give_the_text_back (code : string) :
  lf_only code = true →
  let lines := splitlines code in
  let whole := extract_code lines 1 (Z.of_nat (length lines)) in
  (∀ t, code = t +:+ nl → whole = t)
  ∧ ((∀ t, code ≠ t +:+ nl) → whole = code).
Proof.
  intros Hlf. cbv zeta. rewrite extract_code_all. unfold splitlines. split.
  - intros t ->. rewrite join_splitlines_closed; [done|].
    by rewrite lf_only_app_nl in Hlf.
  - intros Hopen. by rewrite join_splitlines_open.
Qed.

Lemma all_lines_give_the_text_back_witness :
  let lines := splitlines Demo.a_b_src in
  let whole := extract_code lines 1 (Z.of_nat (length lines)) in
  (∀ t, Demo.a_b_src = t +:+ nl → whole = t)
  ∧ ((∀ t, Demo.a_b_src ≠ t +:+ nl) → whole = Demo.a_b_src).
Proof. apply all_lines_give_the_text_back. vm_compute. reflexivity. Defined.

(** [str.splitlines] and [str.strip] know the characters outside ASCII:
    U+2028 and U+0085 end a line, and the no-break space and the en quad
    are whitespace. *)
Lemma lines_and_whitespace_outside_ascii :
  splitlines ("a" +:+ utf8 [226; 128; 168]%nat +:+ "b") = ["a"; "b"]
  ∧ splitlines ("a" +:+ utf8 [194; 133]%nat +:+ "b") = ["a"; "b"]
  ∧ lf_only ("a" +:+ utf8 [226; 128; 168]%nat +:+ "b") = false
  ∧ strip (utf8 [194; 160]%nat +:+ "a" +:+ utf8 [226; 128; 128]%nat) = "a".
Proof. vm_compute. done. Qed.

(** ** The interface file *)



(** ** The files of the write phase *)

Section WritePhaseFiles.

Variable black : option black_package.

Lemma emit_all_last folder (us : list unit_file) path (before : option string) :
  ∀ w (last : option string),
    fs w !! path = match last with
                   | Some text => Some (format_text black text)
                   | None => before
                   end →
    fs (foldl (emit black folder) w us) !! path
    = match foldl (λ last pt, if decide (pt.1 = path) then Some pt.2 else last) last
              ((λ u, (Path.join folder (unit_name u +:+ ".py"), unit_content u)) <$> us)
      with
      | Some text => Some (format_text black text)
      | None => before
      end.
Proof.
  induction us as [|u us IH]; intros w last Hw; [done|].
  cbn [foldl fmap list_fmap]. apply IH. rewrite emit_lookup. cbn [fst snd].
  destruct (decide (path = _)) as [->|Hne].
  - by rewrite decide_True.
  - by rewrite decide_False.
Qed.

(** X30. After the write phase a file that the phase has written holds
    the text that was written to it last, as the formatter leaves it: the
    phase writes the residual file, then the partition units in their
    order, the main unit, the initializer and at last the interface file,
    and a later file of the same path replaces an earlier one.  A file that
    is none of these and is not the backup is as it was. *)
Theorem files_hold_what_was_written_last code_path output_dir (p : plan) w path :
  let w' := write_plan black code_path output_dir p w in
  (∀ text, last_write path (planned_writes output_dir p) = Some text →
           fs w' !! path = Some (format_text black text))
  ∧ (last_write path (planned_writes output_dir p) = None →
     path ≠ code_path +:+ ".backup" →
     fs w' !! path = fs w !! path).
Proof.
  cbv zeta. unfold write_plan. cbv zeta.
  set (w1 := if exists_ w (code_path +:+ ".backup") then w
             else match fs w !! code_path with
                  | Some original => write_file (code_path +:+ ".backup") original w
                  | None => w
                  end).
  assert (Hw1 : path ≠ code_path +:+ ".backup" → fs w1 !! path = fs w !! path).
  { intros Hne. unfold w1. destruct (exists_ w _); [done|].
    destruct (fs w !! code_path); [|done]. unfold write_file. simpl.
    by rewrite lookup_insert_ne. }
  set (folder := Path.join output_dir (p_base p)).
  set (w2 := with_dirs (λ ds, {[folder]} ∪ ds) w1).
  set (residual := {| unit_name := p_base p; unit_members := [];
                      unit_content := p_residual p |}).
  set (init := {| unit_name := "__init__"; unit_members := [];
                  unit_content := p_init p |}).
  set (interface := {| unit_name := p_base p; unit_members := [];
                       unit_content := p_interface p |}).
  assert (Hall : fs (emit black output_dir
                       (emit black folder
                          (foldl (emit black folder)
                             (foldl (emit black folder) (emit black folder w2 residual)
                                (p_units p))
                             (option_list (p_main p))) init) interface) !! path
    = match last_write path (planned_writes output_dir p) with
      | Some text => Some (format_text black text)
      | None => fs w1 !! path
      end).
  { unfold last_write, planned_writes. cbv zeta. fold folder.
    rewrite !foldl_app, fmap_app, foldl_app.
    change (emit black output_dir ?w interface)
      with (foldl (emit black output_dir) w [interface]).
    change (emit black folder ?w init) with (foldl (emit black folder) w [init]).
    change (emit black folder w2 residual)
      with (foldl (emit black folder) w2 [residual]).
    change [(Path.join folder "__init__.py", p_init p);
            (Path.join output_dir (p_base p +:+ ".py"), p_interface p)]
      with ([(Path.join folder "__init__.py", p_init p)]
            ++ [(Path.join output_dir (p_base p +:+ ".py"), p_interface p)]).
    rewrite foldl_app.
    apply (emit_all_last output_dir [interface] path (fs w1 !! path)).
    apply (emit_all_last folder [init] path (fs w1 !! path)).
    apply (emit_all_last folder (option_list (p_main p)) path (fs w1 !! path)).
    apply (emit_all_last folder (p_units p) path (fs w1 !! path)).
    apply (emit_all_last folder [residual] path (fs w1 !! path)).
    done. }
  rewrite Hall. split.
  - by intros text ->.
  - intros -> Hne. by apply Hw1.
Qed.

End WritePhaseFiles.

(** The files of X30 for the two classes of one name: the unit of the
    second [A] replaces the unit of the first. *)
Lemma files_hold_what_was_written_last_witness :
  let p := Demo.make_plan "in/m.py" None Demo.twice_src
             (splitlines Demo.twice_src) Demo.twice_tree in
  fs (write_plan Demo.black "in/m.py" "out" p (Demo.source_world "in/m.py" Demo.twice_src))
    !! "out/m/A.py"
  = Some (join nl [""; ""; "class A:"; "    pass"]).
Proof.
  intros p.
  apply (files_hold_what_was_written_last Demo.black "in/m.py" "out" p
           (Demo.source_world "in/m.py" Demo.twice_src) "out/m/A.py").
  vm_compute. reflexivity.
Defined.
